(** * The translation pipeline of the Meet translator extension

    A shallow embedding of the pipeline core of the extension:
    - [modules/errorHandler.js]   (retry with backoff, error counters,
                                   classification of errors),
    - [modules/whisperAPI.js]     (transcription client, script detection),
    - [modules/translationAPI.js] (translation client, history, skip policy),
    - [modules/elevenLabsTTS.js]  (synthesis client, playback),
    - [modules/audioCapture.js]   (the audio capture object),
    - [background.js]             (the coordinator and its health check).

    JavaScript strings that carry spoken text are sequences of UTF-16 code
    units; regular expressions without the [u] flag match on code units, so
    a transcript is a [list N] ([utf16]).  Language codes, error messages and map keys
    are ASCII and are kept as [string].  JavaScript numbers that the code
    uses as integers (delays, counters) are [Z] or [nat]; volume and
    confidence are rationals. *)

From Stdlib Require Import ZArith NArith QArith Qminmax Lia Ascii String.
From stdpp Require Import base strings list gmap.

Local Open Scope string_scope.
Local Open Scope list_scope.

(** ** Text *)

Module Text.

(** A transcript: UTF-16 code units. *)
Definition utf16 := list N.

(** An ASCII literal as code units. *)
Fixpoint lit (s : string) : utf16 :=
  match s with
  | EmptyString => []
  | String c rest => N_of_ascii c :: lit rest
  end.

Definition between (lo hi c : N) : bool := (lo <=? c)%N && (c <=? hi)%N.

(** [WhiteSpace] and [LineTerminator] of ECMAScript: what [String.prototype.trim]
    strips and what [\s] matches. *)
Definition isWhiteSpace (c : N) : bool :=
  between 0x09 0x0D c || (c =? 0x20)%N || (c =? 0xA0)%N || (c =? 0x1680)%N
  || between 0x2000 0x200A c || (c =? 0x2028)%N || (c =? 0x2029)%N
  || (c =? 0x202F)%N || (c =? 0x205F)%N || (c =? 0x3000)%N || (c =? 0xFEFF)%N.

Fixpoint trimStart (t : utf16) : utf16 :=
  match t with
  | [] => []
  | c :: rest => if isWhiteSpace c then trimStart rest else t
  end.

Definition trimEnd (t : utf16) : utf16 := rev (trimStart (rev t)).

(** [text.trim()] *)
Definition trim (t : utf16) : utf16 := trimEnd (trimStart t).

(** [!text || text.trim().length === 0] *)
Definition isEmptyOrBlank (t : utf16) : bool :=
  match t with
  | [] => true
  | _ => (length (trim t) =? 0)%nat
  end.

(** [/[class]/.test(text)] : some code unit of the text is in the class. *)
Definition testAny (class : N -> bool) (t : utf16) : bool := existsb class t.

(** [/^[class]+$/.test(text)] : the text is not empty and every code unit is
    in the class. *)
Definition testAll (class : N -> bool) (t : utf16) : bool :=
  match t with
  | [] => false
  | _ => forallb class t
  end.

Definition inList (l : list N) (c : N) : bool := existsb (N.eqb c) l.

End Text.

Import Text.

(** ** whisperAPI.js : script-based language detection *)

Module WhisperDetect.

(** The class U+0600-U+06FF, U+0750-U+077F, U+08A0-U+08FF, U+FB50-U+FDFF,
    U+FE70-U+FEFF of the outer test. *)
Definition arabicScript (c : N) : bool :=
  between 0x0600 0x06FF c || between 0x0750 0x077F c || between 0x08A0 0x08FF c
  || between 0xFB50 0xFDFF c || between 0xFE70 0xFEFF c.

(** The "Persian specific characters" class, in the order of the source. *)
Definition persianSpecific (c : N) : bool :=
  inList [0x06A9; 0x06AF; 0x0686; 0x0698; 0x06CC; 0x06A0; 0x06BE; 0x06C1;
          0x06D2; 0x06D4; 0x06D5; 0x06D6; 0x06D7; 0x06D8; 0x06D9; 0x06DA;
          0x06DB; 0x06DC; 0x06DD; 0x06DE; 0x06DF; 0x06E0; 0x06E1; 0x06E2;
          0x06E3; 0x06E4; 0x06E5; 0x06E6; 0x06E7; 0x06E8; 0x06E9; 0x06EA;
          0x06EB; 0x06EC; 0x06ED; 0x06EE; 0x06EF; 0x06F0; 0x06F1; 0x06F2;
          0x06F3; 0x06F4; 0x06F5; 0x06F6; 0x06F7; 0x06F8; 0x06F9]%N c.

(** The "Hebrew specific characters" class: U+0590-U+05FF, U+200F, U+200E. *)
Definition hebrewSpecific (c : N) : bool :=
  between 0x0590 0x05FF c || (c =? 0x200F)%N || (c =? 0x200E)%N.

(** The "Kurdish specific characters" class: the source lists every code
    point from U+06B5 to U+06EF. *)
Definition kurdishSpecific (c : N) : bool :=
  inList (map N.of_nat (seq 0x06B5 59)) c.

(** The "Turkish specific characters" class, in the order of the source:
    c-cedilla, g-breve, dotless i, o-umlaut, s-cedilla, u-umlaut, then their
    capitals; the capital of dotless i is the plain letter I (U+0049). *)
Definition turkishSpecific (c : N) : bool :=
  inList [0xE7; 0x11F; 0x131; 0xF6; 0x15F; 0xFC;
          0xC7; 0x11E; 0x49; 0x130; 0xD6; 0x15E; 0xDC]%N c.

(** [detectLanguage(text)] *)
Definition detectLanguage (t : utf16) : string :=
  match t with
  | [] => "en"
  | _ =>
    if testAny arabicScript t then
      if testAny persianSpecific t then "fa"
      else if testAny hebrewSpecific t then "he"
      else if testAny kurdishSpecific t then "ku"
      else "ar"
    else if testAny turkishSpecific t then "tr"
    else "en"
  end.

End WhisperDetect.

(** ** translationAPI.js : the skip policy *)

Module TranslationPolicy.

(** The class of [englishPattern]: ASCII letters, [\s], and the marks
    . , ! ? ; : ' (double quote) ( ) - *)
Definition englishClass (c : N) : bool :=
  between 0x61 0x7A c || between 0x41 0x5A c || isWhiteSpace c
  || inList (lit ".,!?;:'" ++ [0x22%N] ++ lit "()-") c.

(** [englishPattern.test(text)]: the pattern is the class above, anchored
    at both ends and repeated one or more times. *)
Definition englishPattern (t : utf16) : bool := testAll englishClass t.

(** [needsTranslation(text, targetLanguage)] *)
Definition needsTranslation (t : utf16) (targetLanguage : string) : bool :=
  if isEmptyOrBlank t then false
  else if String.eqb targetLanguage "en" then negb (englishPattern t)
  else true.

End TranslationPolicy.

(** ** Settings and the direction resolver of background.js *)

Module Direction.

(** The settings object ([DEFAULT_SETTINGS] gives its keys). *)
Record Settings := mkSettings {
  sourceLanguage : string;
  targetLanguage : string;
  mockMode : bool;
  volume : Q;
  bidirectionalMode : bool;
  autoDetectLanguage : bool;
  micDevice : string
}.

Record TranslationDirection := mkDirection {
  source : string;
  target : string
}.

Definition middleEastern : list string := ["ar"; "fa"; "tr"; "he"; "ku"].

(** [determineTranslationDirection(detectedLanguage, text)]; [cfg] is
    [this.currentSettings]. *)
Definition determineTranslationDirection
    (cfg : Settings) (detectedLanguage : string) (t : utf16)
    : TranslationDirection :=
  let isMiddleEasternLanguage := existsb (String.eqb detectedLanguage) middleEastern in
  let isEnglish := String.eqb detectedLanguage "en" in
  if isMiddleEasternLanguage then
    {| source := detectedLanguage; target := "en" |}
  else if isEnglish then
    {| source := "en"; target := sourceLanguage cfg |}
  else
    {| source := sourceLanguage cfg; target := targetLanguage cfg |}.

End Direction.

Import Direction.

(** ** Errors, the console and the runtime *)

Module Js.

(** A thrown value: every error of the pipeline is an [Error] object (or a
    DOMException of the platform); [name] and [message] are what the code
    inspects. *)
Record JsError := mkError {
  name : string;
  message : string
}.

(** [new Error(msg)] *)
Definition newError (msg : string) : JsError :=
  {| name := "Error"; message := msg |}.

(** [hay.includes(needle)] *)
Fixpoint includes (hay needle : string) : bool :=
  String.prefix needle hay
  || match hay with
     | EmptyString => false
     | String _ rest => includes rest needle
     end.

(** What the code writes to the console. *)
Inductive LogEntry :=
| ConsoleError (label : string) (error : JsError)
| ConsoleWarn (label : string)
| ConsoleLog (label : string)
| RetryWarn (attemptNo total : nat) (context : string) (delay : Z) (msg : string)
| ErrorLogged (context : string) (error : JsError).

(** The platform as the error handler sees it: a console to write to and a
    timer to wait on. *)
Class Runtime (St : Type) := {
  console : LogEntry -> St -> St;
  sleep : Z -> St -> St
}.

(** An asynchronous operation that may throw: run from a state, it ends with
    a thrown error or a value, in a new state. *)
Definition Op (St A : Type) : Type := St -> (JsError + A) * St.

Definition ret {St A} (a : A) : Op St A := fun s => (inr a, s).

Definition throw {St A} (e : JsError) : Op St A := fun s => (inl e, s).

Definition bind {St A B} (m : Op St A) (k : A -> Op St B) : Op St B :=
  fun s =>
    match m s with
    | (inr a, s') => k a s'
    | (inl e, s') => (inl e, s')
    end.

(** [try { m } catch (error) { h error }] *)
Definition tryCatch {St A} (m : Op St A) (h : JsError -> Op St A) : Op St A :=
  fun s =>
    match m s with
    | (inr a, s') => (inr a, s')
    | (inl e, s') => h e s'
    end.

(** A statement that cannot throw. *)
Definition effect {St} (f : St -> St) : Op St unit := fun s => (inr tt, f s).

(** Reading the state. *)
Definition gets {St A} (f : St -> A) : Op St A := fun s => (inr (f s), s).

End Js.

Import Js.

Declare Scope op_scope.
Delimit Scope op_scope with op.
Notation "'let*' x ':=' m 'in' k" := (bind m (fun x => k))
  (at level 10, x name, m at level 100, k at level 200) : op_scope.
Notation "m ';;' k" := (bind m (fun _ => k))
  (at level 100, k at level 200, right associativity) : op_scope.

(** ** errorHandler.js *)

Module ErrorHandler.

(** [RETRY_CONFIG] of constants.js *)
Definition MAX_RETRIES : nat := 3.
Definition INITIAL_DELAY : Z := 1000.
Definition MAX_DELAY : Z := 10000.
Definition BACKOFF_MULTIPLIER : Z := 2.

Record ErrorHandler := mkErrorHandler {
  errorCounts : gmap string nat;
  maxRetries : nat;
  initialDelay : Z;
  maxDelay : Z;
  backoffMultiplier : Z
}.

(** [new ErrorHandler()] *)
Definition newErrorHandler : ErrorHandler := {|
  errorCounts := ∅;
  maxRetries := MAX_RETRIES;
  initialDelay := INITIAL_DELAY;
  maxDelay := MAX_DELAY;
  backoffMultiplier := BACKOFF_MULTIPLIER
|}.

Definition setErrorCounts (h : ErrorHandler) (m : gmap string nat) : ErrorHandler :=
  {| errorCounts := m;
     maxRetries := maxRetries h;
     initialDelay := initialDelay h;
     maxDelay := maxDelay h;
     backoffMultiplier := backoffMultiplier h |}.

(** [calculateDelay(attempt)] *)
Definition calculateDelay (h : ErrorHandler) (attempt : nat) : Z :=
  let delay := (initialDelay h * backoffMultiplier h ^ Z.of_nat attempt)%Z in
  Z.min delay (maxDelay h).

Section Retry.
Context {St : Type} `{Runtime St} {A : Type}.
Variable h : ErrorHandler.
Variable fn : Op St A.
Variable context : string.
Variable maxRetries_ : nat.

(** The [for] loop of [retryWithBackoff], entered with loop counter
    [attempt]; [remaining] is the number of iterations the loop header
    [attempt <= maxRetries] still allows after this one.  The last branch is
    the [throw lastError] that follows the loop. *)
Fixpoint retryLoop (remaining attempt : nat) : Op St A :=
  tryCatch fn (fun error =>
    if (attempt =? maxRetries_)%nat then
      (effect (console (ConsoleError ("Max retries exceeded for " +:+ context +:+ ":") error));;
       throw error)%op
    else
      let delay := calculateDelay h attempt in
      (effect (console (RetryWarn (attempt + 1) (maxRetries_ + 1) context delay (message error)));;
       effect (sleep delay);;
       match remaining with
       | S remaining' => retryLoop remaining' (S attempt)
       | O => throw error
       end)%op).

End Retry.

(** [retryWithBackoff(fn, context, maxRetries)] *)
Definition retryWithBackoff {St : Type} `{Runtime St} {A : Type}
    (h : ErrorHandler) (fn : Op St A) (context : string) (maxRetries_ : nat)
    : Op St A :=
  retryLoop h fn context maxRetries_ maxRetries_ 0.

(** The key [`${errorType}-${context}`] *)
Definition counterKey (errorType context : string) : string :=
  errorType +:+ "-" +:+ context.

(** [this.errorCounts.get(key) || 0] *)
Definition countOf (h : ErrorHandler) (key : string) : nat :=
  default 0%nat (errorCounts h !! key).

(** [trackError(errorType, context)]: the handler after the call and the
    value returned. *)
Definition trackError (h : ErrorHandler) (errorType context : string)
    : ErrorHandler * bool :=
  let key := counterKey errorType context in
  let count := countOf h key in
  let h' := setErrorCounts h (<[key := (count + 1)%nat]> (errorCounts h)) in
  if (5 <? count)%nat then (h', false) else (h', true).

(** [resetErrorCount(errorType, context)] *)
Definition resetErrorCount (h : ErrorHandler) (errorType context : string)
    : ErrorHandler :=
  setErrorCounts h (delete (counterKey errorType context) (errorCounts h)).

(** [isFeatureDisabled(errorType, context)] *)
Definition isFeatureDisabled (h : ErrorHandler) (errorType context : string) : bool :=
  let count := countOf h (counterKey errorType context) in
  (5 <? count)%nat.

Record ErrorInfo := mkErrorInfo {
  type : string;
  info_message : string;
  action : string
}.

(** [handleApiError(error, apiName)] (its console line is written by the
    caller in the state model below) *)
Definition handleApiError (error : JsError) (apiName : string) : ErrorInfo :=
  if includes (message error) "401" || includes (message error) "Unauthorized" then
    {| type := "AUTH_ERROR"; info_message := "API key is invalid or expired";
       action := "check_api_key" |}
  else if includes (message error) "429" || includes (message error) "rate limit" then
    {| type := "RATE_LIMIT"; info_message := "API rate limit exceeded";
       action := "wait_and_retry" |}
  else if includes (message error) "network" || includes (message error) "fetch" then
    {| type := "NETWORK_ERROR"; info_message := "Network connection failed";
       action := "check_connection" |}
  else
    {| type := "UNKNOWN_ERROR"; info_message := message error; action := "retry" |}.

(** [handleAudioError(error, context)] *)
Definition handleAudioError (error : JsError) (context : string) : ErrorInfo :=
  if String.eqb (name error) "NotAllowedError" then
    {| type := "PERMISSION_ERROR"; info_message := "Microphone permission denied";
       action := "request_permission" |}
  else if String.eqb (name error) "NotFoundError" then
    {| type := "DEVICE_ERROR"; info_message := "Microphone device not found";
       action := "check_device" |}
  else if String.eqb (name error) "NotReadableError" then
    {| type := "DEVICE_ERROR";
       info_message := "Microphone is being used by another application";
       action := "close_other_apps" |}
  else
    {| type := "AUDIO_ERROR"; info_message := message error; action := "retry" |}.

(** The [messages] table of [getUserFriendlyMessage]. *)
Definition messages : gmap string string :=
  list_to_map [
    ("AUTH_ERROR", "Please check your API keys in the extension settings");
    ("RATE_LIMIT", "API rate limit exceeded. Please wait a moment and try again");
    ("NETWORK_ERROR", "Network connection failed. Please check your internet connection");
    ("PERMISSION_ERROR", "Microphone permission denied. Please allow microphone access");
    ("DEVICE_ERROR", "Microphone device not found. Please check your audio settings");
    ("STORAGE_ERROR", "Failed to save settings. Please try again");
    ("UNKNOWN_ERROR", "An unexpected error occurred. Please try again")].

(** [getUserFriendlyMessage(errorInfo)] *)
Definition getUserFriendlyMessage (errorInfo : ErrorInfo) : string :=
  match messages !! type errorInfo with
  | Some m => m
  | None => default "" (messages !! "UNKNOWN_ERROR")
  end.

Record RetryStrategy := mkStrategy {
  strategy_maxRetries : nat;
  strategy_delay : Z
}.

(** The [strategies] table of [getRetryStrategy]. *)
Definition strategies : gmap string RetryStrategy :=
  list_to_map [
    ("AUTH_ERROR", mkStrategy 0 0);
    ("RATE_LIMIT", mkStrategy 3 5000);
    ("NETWORK_ERROR", mkStrategy 5 1000);
    ("AUDIO_ERROR", mkStrategy 2 2000);
    ("STORAGE_ERROR", mkStrategy 3 1000);
    ("UNKNOWN_ERROR", mkStrategy 2 1000)].

(** [getRetryStrategy(errorType)] *)
Definition getRetryStrategy (errorType : string) : RetryStrategy :=
  match strategies !! errorType with
  | Some s => s
  | None => default (mkStrategy 2 1000) (strategies !! "UNKNOWN_ERROR")
  end.

End ErrorHandler.

Import ErrorHandler.

(** ** The clients and the coordinator *)

Module Pipeline.

Definition AudioBuffer := list N.
Definition Blob := list N.

(** [a || b] on strings: the empty string is falsy. *)
Definition orElse (a b : string) : string :=
  if String.eqb a "" then b else a.

(** [a || b] on text. *)
Definition orElseText (a b : utf16) : utf16 :=
  match a with [] => b | _ => a end.

(** [c || d] on an optional number: absent and zero are falsy. *)
Definition orElseNum (c : option Q) (d : Q) : Q :=
  match c with
  | Some q => if Qeq_bool q 0 then d else q
  | None => d
  end.

(** The result of [fetch] followed by the reading of the response:
    the request fails or the body cannot be read ([Rejected]), the backend
    answers with a status that is not ok ([status] as it prints, [errorField]
    the body's [error], empty when absent), or it answers with a body. *)
Inductive Fetched (A : Type) :=
| Rejected (error : JsError)
| NotOk (status : string) (errorField : string)
| Ok (body : A).
Arguments Rejected {A} error.
Arguments NotOk {A} status errorField.
Arguments Ok {A} body.

(** What [transcribe] returns. *)
Record Transcription := mkTranscription {
  text : utf16;
  language : string;
  confidence : Q
}.

(** The JSON body of the transcription endpoint. *)
Record TranscribeBody := mkTranscribeBody {
  body_text : utf16;
  body_language : string;
  body_confidence : option Q
}.

(** What [translate] returns; the early return for an empty text has no
    language keys. *)
Record Translation := mkTranslation {
  translatedText : utf16;
  translationConfidence : Q;
  translationSource : option string;
  translationTarget : option string
}.

(** The JSON body of the translation endpoint. *)
Record TranslateBody := mkTranslateBody {
  body_translatedText : utf16;
  body_translationConfidence : option Q;
  body_sourceLanguage : string;
  body_targetLanguage : string
}.

Record HistoryEntry := mkHistoryEntry {
  role : string;
  content : utf16
}.

(** A message of type [UPDATE_SETTINGS]: the keys it carries. *)
Record SettingsPatch := mkPatch {
  patch_sourceLanguage : option string;
  patch_targetLanguage : option string;
  patch_mockMode : option bool;
  patch_volume : option Q;
  patch_bidirectionalMode : option bool;
  patch_autoDetectLanguage : option bool;
  patch_micDevice : option string
}.

Definition emptyPatch : SettingsPatch :=
  mkPatch None None None None None None None.

(** [{ ...cur, ...patch }] *)
Definition spread (cur : Settings) (p : SettingsPatch) : Settings := {|
  sourceLanguage := default (sourceLanguage cur) (patch_sourceLanguage p);
  targetLanguage := default (targetLanguage cur) (patch_targetLanguage p);
  mockMode := default (mockMode cur) (patch_mockMode p);
  volume := default (volume cur) (patch_volume p);
  bidirectionalMode := default (bidirectionalMode cur) (patch_bidirectionalMode p);
  autoDetectLanguage := default (autoDetectLanguage cur) (patch_autoDetectLanguage p);
  micDevice := default (micDevice cur) (patch_micDevice p)
|}.

(** What the coordinator reads of the object that [getStatus()] of
    audioCapture.js returns; its keys [deviceId], [volume] and
    [bufferLength] are read by nothing in the service. *)
Record CaptureStatus := mkCapture {
  isInitialized : bool;
  isCapturing : bool
}.

End Pipeline.

(** ** modules/audioCapture.js *)

Module Capture.

(** An [AudioCapture] object.  The stream, the audio context and the
    processor node are objects of the platform, of which the code only tests
    whether they are there; [chunkCallbacks] is the number of callbacks
    registered.  The sample buffer, which [processAudioData] fills from the
    events of the platform, is left out: no method that the coordinator
    calls reads it. *)
Record AudioCapture := mkAudioCapture {
  mediaStream : bool;
  audioContext : bool;
  audioWorkletNode : bool;
  isCapturing : bool;
  chunkCallbacks : nat;
  volume : Q;
  deviceId : string
}.

(** [new AudioCapture()] *)
Definition newAudioCapture : AudioCapture := {|
  mediaStream := false;
  audioContext := false;
  audioWorkletNode := false;
  isCapturing := false;
  chunkCallbacks := 0;
  volume := 1;
  deviceId := "default"
|}.

Definition setMediaStream (b : bool) (c : AudioCapture) : AudioCapture :=
  mkAudioCapture b (audioContext c) (audioWorkletNode c) (isCapturing c)
    (chunkCallbacks c) (volume c) (deviceId c).

Definition setAudioContext (b : bool) (c : AudioCapture) : AudioCapture :=
  mkAudioCapture (mediaStream c) b (audioWorkletNode c) (isCapturing c)
    (chunkCallbacks c) (volume c) (deviceId c).

Definition setAudioWorkletNode (b : bool) (c : AudioCapture) : AudioCapture :=
  mkAudioCapture (mediaStream c) (audioContext c) b (isCapturing c)
    (chunkCallbacks c) (volume c) (deviceId c).

Definition setIsCapturing (b : bool) (c : AudioCapture) : AudioCapture :=
  mkAudioCapture (mediaStream c) (audioContext c) (audioWorkletNode c) b
    (chunkCallbacks c) (volume c) (deviceId c).

Definition setChunkCallbacks (n : nat) (c : AudioCapture) : AudioCapture :=
  mkAudioCapture (mediaStream c) (audioContext c) (audioWorkletNode c) (isCapturing c)
    n (volume c) (deviceId c).

(** The first two statements of [initialize(deviceId, volume)]. *)
Definition setDevice (deviceId_ : string) (volume_ : Q) (c : AudioCapture) : AudioCapture :=
  mkAudioCapture (mediaStream c) (audioContext c) (audioWorkletNode c) (isCapturing c)
    (chunkCallbacks c) volume_ deviceId_.

(** [startCapture()]: the error thrown, or the object after the call (the
    context of a capture that was suspended is told to resume, which the
    call does not wait for). *)
Definition startCapture (c : AudioCapture) : JsError + AudioCapture :=
  if negb (audioContext c) then inl (newError "Audio capture not initialized")
  else inr (setIsCapturing true c).

(** [stopCapture()] *)
Definition stopCapture (c : AudioCapture) : AudioCapture := setIsCapturing false c.

(** [onAudioChunk(callback)] *)
Definition onAudioChunk (c : AudioCapture) : AudioCapture :=
  setChunkCallbacks (S (chunkCallbacks c)) c.

(** [getStatus()] *)
Definition getStatus (c : AudioCapture) : Pipeline.CaptureStatus :=
  {| Pipeline.isInitialized := audioContext c;
     Pipeline.isCapturing := isCapturing c |}.

End Capture.

(** The events of the result sink: the messages [TRANSLATION_RESULT] and
    [TRANSLATION_ERROR] handed to the Meet tabs. *)
Module Sink.

Record ResultData := mkResult {
  originalText : utf16;
  translatedText : utf16;
  sourceLanguage : string;
  targetLanguage : string;
  confidence : Q;
  bidirectional : bool
}.

Inductive Event :=
| TRANSLATION_RESULT (data : ResultData)
| TRANSLATION_ERROR (error : string).

Definition isResult (e : Event) : bool :=
  match e with TRANSLATION_RESULT _ => true | TRANSLATION_ERROR _ => false end.

Definition isError (e : Event) : bool := negb (isResult e).

End Sink.

Import Pipeline.

Module Service.

(** The background service with the clients it owns, the console, the
    audio output and the sink.  [tick] counts the suspensions of the running
    code (an awaited timer, request or platform call). *)
Record World := mkWorld {
  isActive : bool;
  currentSettings : option Settings;
  audioCapture : option Capture.AudioCapture;
  errorHandler : ErrorHandler;
  conversationHistory : list HistoryEntry;
  maxHistoryLength : nat;
  currentAudio : option AudioBuffer;
  audioOut : list (AudioBuffer * Q);
  tick : nat;
  consoleOut : list LogEntry;
  sink : list Sink.Event
}.

Definition setIsActive (b : bool) (w : World) : World :=
  mkWorld b (currentSettings w) (audioCapture w) (errorHandler w)
    (conversationHistory w) (maxHistoryLength w) (currentAudio w) (audioOut w)
    (tick w) (consoleOut w) (sink w).

Definition setCurrentSettings (s : option Settings) (w : World) : World :=
  mkWorld (isActive w) s (audioCapture w) (errorHandler w)
    (conversationHistory w) (maxHistoryLength w) (currentAudio w) (audioOut w)
    (tick w) (consoleOut w) (sink w).

Definition setAudioCapture (c : option Capture.AudioCapture) (w : World) : World :=
  mkWorld (isActive w) (currentSettings w) c (errorHandler w)
    (conversationHistory w) (maxHistoryLength w) (currentAudio w) (audioOut w)
    (tick w) (consoleOut w) (sink w).

Definition setConversationHistory (l : list HistoryEntry) (w : World) : World :=
  mkWorld (isActive w) (currentSettings w) (audioCapture w) (errorHandler w)
    l (maxHistoryLength w) (currentAudio w) (audioOut w)
    (tick w) (consoleOut w) (sink w).

Definition setMaxHistory (n : nat) (w : World) : World :=
  mkWorld (isActive w) (currentSettings w) (audioCapture w) (errorHandler w)
    (conversationHistory w) n (currentAudio w) (audioOut w)
    (tick w) (consoleOut w) (sink w).

Definition startSource (b : AudioBuffer) (gain : Q) (w : World) : World :=
  mkWorld (isActive w) (currentSettings w) (audioCapture w) (errorHandler w)
    (conversationHistory w) (maxHistoryLength w) (Some b) (audioOut w ++ [(b, gain)])
    (tick w) (consoleOut w) (sink w).

Definition setTick (n : nat) (w : World) : World :=
  mkWorld (isActive w) (currentSettings w) (audioCapture w) (errorHandler w)
    (conversationHistory w) (maxHistoryLength w) (currentAudio w) (audioOut w)
    n (consoleOut w) (sink w).

Definition writeConsole (e : LogEntry) (w : World) : World :=
  mkWorld (isActive w) (currentSettings w) (audioCapture w) (errorHandler w)
    (conversationHistory w) (maxHistoryLength w) (currentAudio w) (audioOut w)
    (tick w) (consoleOut w ++ [e]) (sink w).

Definition post (e : Sink.Event) (w : World) : World :=
  mkWorld (isActive w) (currentSettings w) (audioCapture w) (errorHandler w)
    (conversationHistory w) (maxHistoryLength w) (currentAudio w) (audioOut w)
    (tick w) (consoleOut w) (sink w ++ [e]).

(** [new BackgroundService()] before any message is handled. *)
Definition newBackgroundService : World := {|
  isActive := false;
  currentSettings := None;
  audioCapture := None;
  errorHandler := newErrorHandler;
  conversationHistory := [];
  maxHistoryLength := 10;
  currentAudio := None;
  audioOut := [];
  tick := 0;
  consoleOut := [];
  sink := []
|}.

(** What lies outside the extension, indexed by the suspension at which it
    is consulted: the backend's answers, the audio platform, the messages
    of the popup, the stored settings; and the tables and helpers the model
    takes as given ([MOCK_RESPONSES] of constants.js, the generated mock
    clip, the floating-point confidence heuristic).  [storedSettings] is
    what [getSettings()] of the storage manager resolves to: the stored
    object, or the defaults when the storage fails.  Of the audio platform
    as the capture uses it: [getUserMedia] is the error, if any, with which
    the request for the microphone is refused, [newAudioContext] the error,
    if any, thrown when the audio context is created, [closeAudioContext]
    the error, if any, with which closing the context is refused. *)
Record Env := mkEnv {
  MOCK_transcription : gmap string utf16;
  MOCK_translation : gmap string utf16;
  getMockAudioBuffer : utf16 -> string -> AudioBuffer;
  calculateConfidence : utf16 -> utf16 -> Q;
  fetchTranscribe : nat -> Blob -> string -> Fetched TranscribeBody;
  fetchTranslate : nat -> utf16 -> string -> string -> Fetched TranslateBody;
  fetchSynthesize : nat -> utf16 -> string -> Fetched AudioBuffer;
  playbackFault : nat -> option JsError;
  inbox : nat -> list SettingsPatch;
  storedSettings : nat -> Settings;
  getUserMedia : nat -> option JsError;
  newAudioContext : nat -> option JsError;
  closeAudioContext : nat -> option JsError
}.

End Service.

Import Service.

Module Coordinator.

Local Open Scope op_scope.

Section WithEnv.
Variable E : Env.

(** [updateSettings(settings)] of background.js.  The settings object is
    replaced by a new one; the write to storage that follows has no effect
    on the service.  Before the first start [currentSettings] is [null] and
    the spread would hold the keys of the patch alone; no segment is
    processed in that state ([startTranslation] loads the full object before
    it sets [isActive]), and the model leaves [None] in place. *)
Definition updateSettings (settings : SettingsPatch) (w : World) : World :=
  match currentSettings w with
  | Some cur => setCurrentSettings (Some (spread cur settings)) w
  | None => w
  end.

(** The running code is suspended once: the [UPDATE_SETTINGS] messages that
    arrive meanwhile are handled, then it resumes. *)
Definition suspend (w : World) : World :=
  let w' := foldl (fun acc p => updateSettings p acc) w (inbox E (tick w)) in
  setTick (S (tick w')) w'.

#[local] Instance worldRuntime : Runtime World := {|
  console := writeConsole;
  sleep := fun _ => suspend
|}.

(** An awaited call to the outside: the answer is the one of the current
    suspension. *)
Definition await {A} (answer : nat -> A) : Op World A :=
  fun w => (inr (answer (tick w)), suspend w).

(** *** whisperAPI.js *)

Definition defaultMockText : utf16 :=
  [0x0645; 0x0631; 0x062D; 0x0628; 0x0627; 0x060C; 0x0020; 0x0643; 0x064A;
   0x0641; 0x0020; 0x062D; 0x0627; 0x0644; 0x0643; 0x061F]%N.

(** [getMockTranscription(language)] *)
Definition getMockTranscription (language_ : string) : Op World Transcription :=
  await (fun _ => tt);;
  let mockText :=
    orElseText (default [] (MOCK_transcription E !! language_))
      (orElseText (default [] (MOCK_transcription E !! "ar")) defaultMockText) in
  ret {| text := mockText; language := language_; confidence := 95 # 100 |}.

Definition backendError (status errorField : string) : JsError :=
  newError ("Backend API error: " +:+ status +:+ " - " +:+ orElse errorField "Unknown error").

(** [transcribe(audioBlob, language, mockMode)] *)
Definition transcribe (audioBlob : Blob) (language_ : string) (mockMode_ : bool)
    : Op World Transcription :=
  tryCatch
    (if mockMode_ then getMockTranscription language_
     else
       let* response := await (fun n => fetchTranscribe E n audioBlob language_) in
       match response with
       | Rejected error => throw error
       | NotOk status errorField => throw (backendError status errorField)
       | Ok result =>
           ret {| text := body_text result;
                  language := orElse (body_language result) language_;
                  confidence := orElseNum (body_confidence result) 1 |}
       end)
    (fun error =>
       effect (console (ConsoleError "Transcription error:" error));;
       throw (newError ("Transcription failed: " +:+ message error))).

(** *** translationAPI.js *)

(** [array.slice(-n)] *)
Definition sliceFromEnd {A} (n : nat) (l : list A) : list A :=
  match n with
  | O => l
  | _ => drop (length l - n) l
  end.

(** [addToHistory(originalText, translatedText, sourceLanguage, targetLanguage)] *)
Definition addToHistory (originalText translatedText_ : utf16)
    (sourceLanguage_ targetLanguage_ : string) (w : World) : World :=
  let pushed :=
    conversationHistory w
    ++ [ {| role := "user";
            content := lit ("Original (" +:+ sourceLanguage_ +:+ "): ") ++ originalText |} ]
    ++ [ {| role := "assistant";
            content := lit ("Translation (" +:+ targetLanguage_ +:+ "): ") ++ translatedText_ |} ] in
  if (maxHistoryLength w <? length pushed)%nat then
    setConversationHistory (sliceFromEnd (maxHistoryLength w) pushed) w
  else
    setConversationHistory pushed w.

(** [clearHistory()] *)
Definition clearHistory (w : World) : World := setConversationHistory [] w.

(** [setMaxHistoryLength(length)] for an integer argument *)
Definition setMaxHistoryLength (len : Z) (w : World) : World :=
  setMaxHistory (Z.to_nat (Z.max 1 (Z.min 50 len))) w.

(** [getMockTranslation(text, sourceLanguage, targetLanguage)] *)
Definition getMockTranslation (t : utf16) (sourceLanguage_ targetLanguage_ : string)
    : Op World Translation :=
  await (fun _ => tt);;
  let mockTranslation :=
    orElseText (default [] (MOCK_translation E !! sourceLanguage_))
      (orElseText (default [] (MOCK_translation E !! "ar")) (lit "Hello, how are you?")) in
  ret {| translatedText := mockTranslation;
         translationConfidence := 9 # 10;
         translationSource := Some sourceLanguage_;
         translationTarget := Some targetLanguage_ |}.

(** [translate(text, sourceLanguage, targetLanguage, mockMode)] *)
Definition translate (t : utf16) (sourceLanguage_ targetLanguage_ : string)
    (mockMode_ : bool) : Op World Translation :=
  tryCatch
    (if mockMode_ then getMockTranslation t sourceLanguage_ targetLanguage_
     else if isEmptyOrBlank t then
       ret {| translatedText := []; translationConfidence := 0;
              translationSource := None; translationTarget := None |}
     else
       let* response := await (fun n => fetchTranslate E n t sourceLanguage_ targetLanguage_) in
       match response with
       | Rejected error => throw error
       | NotOk status errorField => throw (backendError status errorField)
       | Ok result =>
           let translatedText_ := body_translatedText result in
           effect (addToHistory t translatedText_ sourceLanguage_ targetLanguage_);;
           ret {| translatedText := translatedText_;
                  translationConfidence :=
                    orElseNum (body_translationConfidence result)
                      (calculateConfidence E t translatedText_);
                  translationSource :=
                    Some (orElse (body_sourceLanguage result) sourceLanguage_);
                  translationTarget :=
                    Some (orElse (body_targetLanguage result) targetLanguage_) |}
       end)
    (fun error =>
       effect (console (ConsoleError "Translation error:" error));;
       throw (newError ("Translation failed: " +:+ message error))).

(** *** elevenLabsTTS.js *)

(** [getMockAudio(text, language)] *)
Definition getMockAudio (t : utf16) (language_ : string) : Op World AudioBuffer :=
  await (fun _ => tt);;
  ret (getMockAudioBuffer E t language_).

(** [synthesize(text, language, mockMode)] *)
Definition synthesize (t : utf16) (language_ : string) (mockMode_ : bool)
    : Op World AudioBuffer :=
  tryCatch
    (if mockMode_ then getMockAudio t language_
     else if isEmptyOrBlank t then throw (newError "No text provided for synthesis")
     else
       let* response := await (fun n => fetchSynthesize E n t language_) in
       match response with
       | Rejected error => throw error
       | NotOk status errorField => throw (backendError status errorField)
       | Ok audioBuffer => ret audioBuffer
       end)
    (fun error =>
       effect (console (ConsoleError "TTS synthesis error:" error));;
       throw (newError ("TTS synthesis failed: " +:+ message error))).

(** [Math.max(0, Math.min(1, volume))] *)
Definition clampVolume (v : Q) : Q := Qmax 0 (Qmin 1 v).

(** [playAudio(audioBuffer, volume)]: the calls into the audio platform
    (creating or resuming the context, decoding, starting the source) either
    all go through or one of them throws. *)
Definition playAudio (audioBuffer : AudioBuffer) (volume_ : Q) : Op World bool :=
  tryCatch
    (let* fault := await (playbackFault E) in
     match fault with
     | Some error => throw error
     | None =>
         effect (startSource audioBuffer (clampVolume volume_));;
         ret true
     end)
    (fun error =>
       effect (console (ConsoleError "Error playing audio:" error));;
       throw (newError ("Audio playback failed: " +:+ message error))).

(** *** background.js *)

(** Reading a key of [this.currentSettings]; on [null] the read throws. *)
Definition settings : Op World Settings :=
  fun w =>
    match currentSettings w with
    | Some cfg => (inr cfg, w)
    | None => (inl {| name := "TypeError";
                      message := "Cannot read properties of null" |}, w)
    end.

(** [logError(error, context)] *)
Definition logError (error : JsError) (context : string) : Op World unit :=
  effect (console (ErrorLogged context error)).

(** [sendResultsToContentScript(results)] *)
Definition sendResultsToContentScript (results : Sink.ResultData) : Op World unit :=
  await (fun _ => tt);;
  effect (post (Sink.TRANSLATION_RESULT results)).

(** [sendErrorToContentScript(errorMessage)] *)
Definition sendErrorToContentScript (errorMessage : string) : Op World unit :=
  await (fun _ => tt);;
  effect (post (Sink.TRANSLATION_ERROR errorMessage)).

(** The first stage of [processAudioChunk]: transcription under retry. *)
Definition transcribeStage (audioBlob : Blob) : Op World Transcription :=
  let* handler := gets errorHandler in
  retryWithBackoff handler
    (let* cfg := settings in
     transcribe audioBlob
       (if autoDetectLanguage cfg then "auto" else sourceLanguage cfg)
       (mockMode cfg))
    "whisper_transcription" (maxRetries handler).

(** Step 2 of [processAudioChunk]: source and target language, from the
    settings in force when the transcription has arrived. *)
Definition resolveLanguages (cfg : Settings) (transcription : Transcription)
    : TranslationDirection :=
  let sourceLanguage0 := language transcription in
  let targetLanguage0 := targetLanguage cfg in
  let sourceLanguage1 :=
    if autoDetectLanguage cfg then WhisperDetect.detectLanguage (text transcription)
    else sourceLanguage0 in
  if bidirectionalMode cfg then
    determineTranslationDirection cfg sourceLanguage1 (text transcription)
  else
    {| source := sourceLanguage1; target := targetLanguage0 |}.

(** Step 3: translation under retry. *)
Definition translateStage (t : utf16) (sourceLanguage_ targetLanguage_ : string)
    : Op World Translation :=
  let* handler := gets errorHandler in
  retryWithBackoff handler
    (let* cfg := settings in
     translate t sourceLanguage_ targetLanguage_ (mockMode cfg))
    "translation" (maxRetries handler).

(** Step 4: synthesis under retry. *)
Definition synthesizeStage (t : utf16) (targetLanguage_ : string)
    : Op World AudioBuffer :=
  let* handler := gets errorHandler in
  retryWithBackoff handler
    (let* cfg := settings in
     synthesize t targetLanguage_ (mockMode cfg))
    "tts_synthesis" (maxRetries handler).

(** Step 5: playback at the configured volume. *)
Definition playStage (audioBuffer : AudioBuffer) : Op World bool :=
  let* cfg := settings in
  playAudio audioBuffer (volume cfg).

(** Step 6: the result event. *)
Definition emitStage (transcription : Transcription) (translation : Translation)
    (direction : TranslationDirection) : Op World unit :=
  let* cfg := settings in
  sendResultsToContentScript
    {| Sink.originalText := text transcription;
       Sink.translatedText := translatedText translation;
       Sink.sourceLanguage := source direction;
       Sink.targetLanguage := target direction;
       Sink.confidence := confidence transcription;
       Sink.bidirectional := bidirectionalMode cfg |}.

(** The [try] block of [processAudioChunk]. *)
Definition pipeline (audioBlob : Blob) : Op World unit :=
  let* active := gets isActive in
  let* current := gets currentSettings in
  if negb active || negb (bool_decide (is_Some current)) then ret tt
  else
    let* transcription := transcribeStage audioBlob in
    if isEmptyOrBlank (text transcription) then ret tt
    else
      let* cfg := settings in
      let direction := resolveLanguages cfg transcription in
      if TranslationPolicy.needsTranslation (text transcription) (target direction) then
        let* translation :=
          translateStage (text transcription) (source direction) (target direction) in
        let* audioBuffer :=
          synthesizeStage (translatedText translation) (target direction) in
        playStage audioBuffer;;
        emitStage transcription translation direction
      else ret tt.

(** The [catch] block of [processAudioChunk]. *)
Definition pipelineFailed (error : JsError) : Op World unit :=
  logError error "processAudioChunk";;
  effect (console (ConsoleError "Translation Pipeline API error:" error));;
  let errorInfo := handleApiError error "Translation Pipeline" in
  sendErrorToContentScript (getUserFriendlyMessage errorInfo).

(** [processAudioChunk(audioBlob)]: the service once the promise settles. *)
Definition processAudioChunk (audioBlob : Blob) (w : World) : World :=
  snd (tryCatch (pipeline audioBlob) pipelineFailed w).

(** *** Start, stop and the health check *)

(** Reading [this.audioCapture] to call a method of it; on [null] the call
    throws. *)
Definition capture : Op World Capture.AudioCapture :=
  fun w =>
    match audioCapture w with
    | Some c => (inr c, w)
    | None => (inl {| name := "TypeError";
                      message := "Cannot read properties of null" |}, w)
    end.

(** A statement of a method of the capture object that assigns its fields. *)
Definition updateCapture (f : Capture.AudioCapture -> Capture.AudioCapture)
    : Op World unit :=
  let* c := capture in
  effect (setAudioCapture (Some (f c))).

(** [initialize(deviceId, volume)] of audioCapture.js.  The microphone is
    asked for; then the audio context is created and, on it, the source, the
    gain node and the processor node, which are connected (calls with
    constant arguments on a context just made: they go through). *)
Definition initialize (deviceId_ : string) (volume_ : Q) : Op World bool :=
  tryCatch
    (updateCapture (Capture.setDevice deviceId_ volume_);;
     let* refused := await (getUserMedia E) in
     match refused with
     | Some error => throw error
     | None =>
         updateCapture (Capture.setMediaStream true);;
         let* now := gets tick in
         match newAudioContext E now with
         | Some error => throw error
         | None =>
             updateCapture (Capture.setAudioContext true);;
             updateCapture (Capture.setAudioWorkletNode true);;
             ret true
         end
     end)
    (fun error =>
       effect (console (ConsoleError "Error initializing audio capture:" error));;
       throw (newError ("Failed to initialize audio capture: " +:+ message error))).

(** [startCapture()] called on [this.audioCapture] *)
Definition startCapture : Op World unit :=
  let* c := capture in
  match Capture.startCapture c with
  | inl error => throw error
  | inr c' => effect (setAudioCapture (Some c'))
  end.

(** [cleanup()] of audioCapture.js: whatever is thrown inside is written to
    the console and goes no further. *)
Definition cleanup : Op World unit :=
  tryCatch
    (updateCapture (Capture.setIsCapturing false);;
     updateCapture (Capture.setAudioWorkletNode false);;
     let* c := capture in
     (if Capture.audioContext c then
        let* refused := await (closeAudioContext E) in
        match refused with
        | Some error => throw error
        | None => updateCapture (Capture.setAudioContext false)
        end
      else ret tt);;
     updateCapture (Capture.setMediaStream false);;
     updateCapture (Capture.setChunkCallbacks 0))
    (fun error =>
       effect (console (ConsoleError "Error cleaning up audio capture:" error))).

(** [startTranslation()] *)
Definition startTranslation : Op World unit :=
  tryCatch
    (let* active := gets isActive in
     if active then effect (console (ConsoleLog "Translation already active"))
     else
       let* loaded := await (storedSettings E) in
       effect (setCurrentSettings (Some loaded));;
       effect (setAudioCapture (Some Capture.newAudioCapture));;
       tryCatch
         (let* cfg := settings in
          initialize (orElse (micDevice cfg) "default")
            (orElseNum (Some (Direction.volume cfg)) (8 # 10));;
          ret tt)
         (fun audioError =>
            effect (console (ConsoleError "Audio error in startTranslation:" audioError));;
            let errorInfo := handleAudioError audioError "startTranslation" in
            throw (newError (getUserFriendlyMessage errorInfo)));;
       updateCapture Capture.onAudioChunk;;
       startCapture;;
       effect (setIsActive true);;
       effect (console (ConsoleLog "Translation started successfully")))
    (fun error =>
       logError error "startTranslation";;
       effect (console (ConsoleError "Error starting translation:" error));;
       throw error).

(** [stopTranslation()] *)
Definition stopTranslation : Op World unit :=
  tryCatch
    (let* active := gets isActive in
     if negb active then effect (console (ConsoleLog "Translation not active"))
     else
       let* current := gets audioCapture in
       match current with
       | Some _ =>
           updateCapture Capture.stopCapture;;
           cleanup;;
           effect (setAudioCapture None)
       | None => ret tt
       end;;
       effect (setIsActive false);;
       effect (console (ConsoleLog "Translation stopped")))
    (fun error =>
       effect (console (ConsoleError "Error stopping translation:" error));;
       throw error).

(** [restartTranslation()] *)
Definition restartTranslation : Op World unit :=
  tryCatch
    (stopTranslation;;
     effect (sleep 1000);;
     startTranslation)
    (fun error =>
       effect (console (ConsoleError "Error restarting translation:" error))).

Definition tooManyAudioErrors : string :=
  "Too many audio errors. Please check your microphone settings.".

(** The [try] block of the callback that [startHealthCheck] schedules. *)
Definition healthCheckBody : Op World unit :=
  let* active := gets isActive in
  let* current := gets audioCapture in
  match current with
  | Some c =>
      if active then
        let status := Capture.getStatus c in
        if negb (isInitialized status) then
          effect (console (ConsoleWarn "Audio capture lost, attempting to restart..."));;
          restartTranslation
        else if negb (isCapturing status) then
          effect (console (ConsoleWarn "Audio capture stopped, attempting to restart..."));;
          restartTranslation
        else
          let* handler := gets errorHandler in
          if isFeatureDisabled handler "audio_error" "health_check" then
            effect (console (ConsoleWarn "Too many audio errors, temporarily disabling translation..."));;
            stopTranslation;;
            sendErrorToContentScript tooManyAudioErrors
          else ret tt
      else ret tt
  | None => ret tt
  end.

(** One run of the health check callback. *)
Definition healthCheck (w : World) : World :=
  snd (tryCatch healthCheckBody
         (fun error =>
            logError error "healthCheck";;
            effect (console (ConsoleError "Health check error:" error)))
         w).

(** A message of the popup, of one of the types whose handling assigns a
    field of the service ([GET_STATUS] and [TEST_APIS] read the service and
    answer the sender). *)
Inductive Message :=
| START_TRANSLATION
| STOP_TRANSLATION
| UPDATE_SETTINGS (settings_ : SettingsPatch).

(** What [sendResponse] is called with. *)
Inductive Response :=
| Success
| Failure (error : string).

(** [handleMessage(message, sender, sendResponse)]; the value returned is
    what [sendResponse] is called with.  For [UPDATE_SETTINGS] the handler
    waits for the write to storage, whose failures the storage manager
    keeps to itself. *)
Definition handleMessage (msg : Message) : Op World Response :=
  tryCatch
    (match msg with
     | START_TRANSLATION => startTranslation;; ret Success
     | STOP_TRANSLATION => stopTranslation;; ret Success
     | UPDATE_SETTINGS settings_ =>
         effect (updateSettings settings_);;
         await (fun _ => tt);;
         ret Success
     end)
    (fun error =>
       effect (console (ConsoleError "Error handling message:" error));;
       ret (Failure (message error))).

(** What happens to the service: a message is handled, the capture hands
    over a chunk, the timer of the health check fires. *)
Inductive Occurrence :=
| Received (msg : Message)
| AudioChunk (audioBlob : Blob)
| HealthCheckTimer.

Definition occur (o : Occurrence) (w : World) : World :=
  match o with
  | Received msg => snd (handleMessage msg w)
  | AudioChunk audioBlob => processAudioChunk audioBlob w
  | HealthCheckTimer => healthCheck w
  end.

(** The service after the occurrences of [history], each handled to its
    end before the next. *)
Definition run (history : list Occurrence) (w : World) : World :=
  foldl (fun acc o => occur o acc) w history.

(** One call of [translate]: its four arguments. *)
Record TranslateCall := mkCall {
  call_text : utf16;
  call_source : string;
  call_target : string;
  call_mockMode : bool
}.

(** The calls made one after the other, whatever each returns or throws. *)
Fixpoint translateCalls (calls : list TranslateCall) (w : World) : World :=
  match calls with
  | [] => w
  | c :: rest =>
      translateCalls rest
        (snd (translate (call_text c) (call_source c) (call_target c)
                (call_mockMode c) w))
  end.

End WithEnv.

End Coordinator.

(** ** Relating the service before and after an operation *)

Module Frame.

(** The operation takes every service to one that [R] relates to it. *)
Definition keeps (R : World -> World -> Prop) {A} (m : Op World A) : Prop :=
  forall w, R w (snd (m w)).

(** Nothing was sent to the sink and the settings object was not lost. *)
Definition quiet (w w' : World) : Prop :=
  sink w' = sink w
  /\ (is_Some (currentSettings w) -> is_Some (currentSettings w')).

End Frame.

Import Frame.

(** ** Observing a retried operation *)

Module Probe.

(** What an observer of [retryWithBackoff] sees: the operation is invoked
    and throws or returns, or the retrier waits. *)
Inductive Observation :=
| Invoked (thrown : option JsError)
| Slept (ms : Z).

Definition thrownBy {A} (r : JsError + A) : option JsError :=
  match r with
  | inl e => Some e
  | inr _ => None
  end.

(** The operation with every invocation written down, next to a state the
    operation itself cannot reach. *)
Definition probed {St A} (fn : Op St A) : Op (St * list Observation) A :=
  fun sl =>
    let r := fn (fst sl) in
    (fst r, (snd r, snd sl ++ [Invoked (thrownBy (fst r))])).

(** The runtime with every wait written down. *)
#[export] Instance probedRuntime {St} `{Runtime St} : Runtime (St * list Observation) := {|
  console := fun e sl => (console e (fst sl), snd sl);
  sleep := fun ms sl => (sleep ms (fst sl), snd sl ++ [Slept ms])
|}.

Definition isInvocation (o : Observation) : bool :=
  match o with Invoked _ => true | Slept _ => false end.

Definition invocations (l : list Observation) : nat :=
  length (filter (fun o => isInvocation o = true) l).

Fixpoint delays (l : list Observation) : list Z :=
  match l with
  | [] => []
  | Slept ms :: rest => ms :: delays rest
  | Invoked _ :: rest => delays rest
  end.

(** What is observed of [retryWithBackoff] run on [fn] from state [s]. *)
Definition observe {St} `{Runtime St} {A}
    (h : ErrorHandler) (fn : Op St A) (context : string) (maxRetries_ : nat)
    (s : St) : list Observation :=
  snd (snd (retryWithBackoff h (probed fn) context maxRetries_ (s, []))).

(** An operation that throws whatever the state. *)
Definition alwaysFails {St A} (fn : Op St A) : Prop :=
  forall s, exists e, fst (fn s) = inl e.

(** The runtime of a state without console or timer. *)
Definition bareRuntime : Runtime nat := {|
  console := fun _ s => s;
  sleep := fun _ s => s
|}.

(** An operation that counts its calls and throws the count. *)
Definition failingCounter : Op nat unit :=
  fun n => (inl (newError (nth n ["first"; "second"; "third"; "fourth"] "later")), S n).

End Probe.

Import Probe.

(** ** Concrete environments and services *)

Module Scenario.

(** [DEFAULT_SETTINGS] of constants.js *)
Definition DEFAULT_SETTINGS : Settings := {|
  sourceLanguage := "ar";
  targetLanguage := "en";
  mockMode := true;
  volume := 8 # 10;
  bidirectionalMode := false;
  autoDetectLanguage := true;
  micDevice := "default"
|}.

Definition failedToFetch : JsError :=
  {| name := "TypeError"; message := "Failed to fetch" |}.

(** No backend, a working audio platform, no message from the popup. *)
Definition offline : Env := {|
  MOCK_transcription := ∅;
  MOCK_translation := ∅;
  getMockAudioBuffer := fun _ _ => [0x52; 0x49; 0x46; 0x46]%N;
  calculateConfidence := fun _ _ => 8 # 10;
  fetchTranscribe := fun _ _ _ => Rejected failedToFetch;
  fetchTranslate := fun _ _ _ _ => Rejected failedToFetch;
  fetchSynthesize := fun _ _ _ => Rejected failedToFetch;
  playbackFault := fun _ => None;
  inbox := fun _ => [];
  storedSettings := fun _ => DEFAULT_SETTINGS;
  getUserMedia := fun _ => None;
  newAudioContext := fun _ => None;
  closeAudioContext := fun _ => None
|}.

Definition withPlaybackFault (fault : nat -> option JsError) (E : Env) : Env :=
  mkEnv (MOCK_transcription E) (MOCK_translation E) (getMockAudioBuffer E)
    (calculateConfidence E) (fetchTranscribe E) (fetchTranslate E)
    (fetchSynthesize E) fault (inbox E) (storedSettings E)
    (getUserMedia E) (newAudioContext E) (closeAudioContext E).

Definition withInbox (messages : nat -> list SettingsPatch) (E : Env) : Env :=
  mkEnv (MOCK_transcription E) (MOCK_translation E) (getMockAudioBuffer E)
    (calculateConfidence E) (fetchTranscribe E) (fetchTranslate E)
    (fetchSynthesize E) (playbackFault E) messages (storedSettings E)
    (getUserMedia E) (newAudioContext E) (closeAudioContext E).

Definition withTranscribe
    (answer : nat -> Blob -> string -> Fetched TranscribeBody) (E : Env) : Env :=
  mkEnv (MOCK_transcription E) (MOCK_translation E) (getMockAudioBuffer E)
    (calculateConfidence E) answer (fetchTranslate E)
    (fetchSynthesize E) (playbackFault E) (inbox E) (storedSettings E)
    (getUserMedia E) (newAudioContext E) (closeAudioContext E).

Definition withTranslate
    (answer : nat -> utf16 -> string -> string -> Fetched TranslateBody) (E : Env) : Env :=
  mkEnv (MOCK_transcription E) (MOCK_translation E) (getMockAudioBuffer E)
    (calculateConfidence E) (fetchTranscribe E) answer
    (fetchSynthesize E) (playbackFault E) (inbox E) (storedSettings E)
    (getUserMedia E) (newAudioContext E) (closeAudioContext E).

(** The capture object of a service that [startTranslation] has started
    under the given settings. *)
Definition capturing (cfg : Settings) : Capture.AudioCapture := {|
  Capture.mediaStream := true;
  Capture.audioContext := true;
  Capture.audioWorkletNode := true;
  Capture.isCapturing := true;
  Capture.chunkCallbacks := 1;
  Capture.volume := orElseNum (Some (volume cfg)) (8 # 10);
  Capture.deviceId := orElse (micDevice cfg) "default"
|}.

(** A service that is translating: started, capture initialised and
    capturing, under the given settings. *)
Definition running (cfg : Settings) : World :=
  setAudioCapture (Some (capturing cfg))
    (setCurrentSettings (Some cfg) (setIsActive true newBackgroundService)).

(** In a service worker there is no [window]: the first line of
    [playAudio] that touches it throws. *)
Definition noWindow : JsError :=
  {| name := "ReferenceError"; message := "window is not defined" |}.

Definition brokenPlayback : Env := withPlaybackFault (fun _ => Some noWindow) offline.

(** The backend rejects the credential on every request. *)
Definition unauthorized : Env :=
  withTranscribe (fun _ _ _ => NotOk "401" "Unauthorized") offline.

Definition realMode : Settings := {|
  sourceLanguage := "ar";
  targetLanguage := "en";
  mockMode := false;
  volume := 8 # 10;
  bidirectionalMode := false;
  autoDetectLanguage := false;
  micDevice := "default"
|}.

(** The popup switches the target language to Persian while the first
    request of the segment is under way. *)
Definition targetToPersian : SettingsPatch :=
  mkPatch None (Some "fa") None None None None None.

Definition switchedMidFlight : Env :=
  withInbox (fun n => match n with O => [targetToPersian] | _ => [] end) offline.

(** One segment under the default settings, stage by stage. *)
Definition segment : Blob := [].

Definition mockTranscription : Transcription :=
  {| text := Coordinator.defaultMockText; language := "auto"; confidence := 95 # 100 |}.

Definition mockTranslationTo (targetLanguage_ : string) : Translation :=
  {| translatedText := lit "Hello, how are you?";
     translationConfidence := 9 # 10;
     translationSource := Some "ar";
     translationTarget := Some targetLanguage_ |}.

Definition mockTranslation : Translation := mockTranslationTo "en".

Definition mockClip : AudioBuffer := [0x52; 0x49; 0x46; 0x46]%N.

Definition transcribed (E : Env) : World :=
  snd (Coordinator.transcribeStage E segment (running DEFAULT_SETTINGS)).

Definition translated (E : Env) (targetLanguage_ : string) : World :=
  snd (Coordinator.translateStage E Coordinator.defaultMockText "ar" targetLanguage_
         (transcribed E)).

Definition synthesized (E : Env) (targetLanguage_ : string) : World :=
  snd (Coordinator.synthesizeStage E (lit "Hello, how are you?") targetLanguage_
         (translated E targetLanguage_)).

Definition played (E : Env) (targetLanguage_ : string) : World :=
  snd (Coordinator.playStage E mockClip (synthesized E targetLanguage_)).

(** A Hebrew greeting: shin, lamed, vav, final mem. *)
Definition shalom : utf16 := [0x05E9; 0x05DC; 0x05D5; 0x05DD]%N.

(** The console line that [transcribe] writes when a request has failed. *)
Definition isTranscriptionError (e : LogEntry) : bool :=
  match e with
  | ConsoleError label _ => String.eqb label "Transcription error:"
  | _ => false
  end.

(** What [transcribe] throws when the backend answers 401. *)
Definition authFailure : JsError :=
  newError "Transcription failed: Backend API error: 401 - Unauthorized".

(** The microphone is held by another application: what the platform
    refuses the request with. *)
Definition microphoneInUse : JsError :=
  {| name := "NotReadableError"; message := "Could not start audio source" |}.

Definition withGetUserMedia (refusal : nat -> option JsError) (E : Env) : Env :=
  mkEnv (MOCK_transcription E) (MOCK_translation E) (getMockAudioBuffer E)
    (calculateConfidence E) (fetchTranscribe E) (fetchTranslate E)
    (fetchSynthesize E) (playbackFault E) (inbox E) (storedSettings E)
    refusal (newAudioContext E) (closeAudioContext E).

(** The microphone is in use during the first twelve suspensions, the time
    of six attempts to start, and free afterwards. *)
Definition microphoneBusyAtFirst : Env :=
  withGetUserMedia (fun n => if (n <? 12)%nat then Some microphoneInUse else None) offline.

(** What [initialize] throws when the platform has thrown [cause]. *)
Definition initializeError (cause : JsError) : JsError :=
  newError ("Failed to initialize audio capture: " +:+ message cause).

(** What [initialize] throws while the microphone is in use. *)
Definition initializeFailure : JsError := initializeError microphoneInUse.

(** The console line that [handleAudioError] writes for that failure. *)
Definition isAudioError (e : LogEntry) : bool :=
  match e with
  | ConsoleError label error =>
      String.eqb label "Audio error in startTranslation:"
      && String.eqb (message error) (message initializeFailure)
  | _ => false
  end.

(** The popup asks six times for the translation to start. *)
Definition sixStarts : list Coordinator.Occurrence :=
  replicate 6 (Coordinator.Received Coordinator.START_TRANSLATION).

(** The service after the six attempts, and after a seventh. *)
Definition afterSixFailures : World :=
  Coordinator.run microphoneBusyAtFirst sixStarts newBackgroundService.

Definition startedAtLast : World :=
  Coordinator.occur microphoneBusyAtFirst
    (Coordinator.Received Coordinator.START_TRANSLATION) afterSixFailures.

(** The backend translates every text to the same sentence. *)
Definition translating : Env :=
  withTranslate
    (fun _ _ _ _ => Ok {| body_translatedText := lit "Hello";
                          body_translationConfidence := None;
                          body_sourceLanguage := "";
                          body_targetLanguage := "" |})
    offline.

End Scenario.

(** ** The words of the specification *)

Module SpecWords.

(** "ASCII-only" text: every code unit is below 128. *)
Definition asciiOnly (t : utf16) : bool := forallb (fun c => (c <? 128)%N) t.

(** A character the English pattern admits: an ASCII letter, a whitespace
    character, or one of the marks . , ! ? ; : ' ( ) - and the double
    quote. *)
Definition englishChar (c : N) : Prop :=
  (0x41 <= c <= 0x5A)%N \/ (0x61 <= c <= 0x7A)%N \/ isWhiteSpace c = true
  \/ c ∈ lit ".,!?;:'()-" \/ c = 0x22%N.

(** A character of the Hebrew block. *)
Definition hebrewBlock (c : N) : Prop := (0x0590 <= c <= 0x05FF)%N.

End SpecWords.

Import Coordinator Scenario SpecWords.

(** ** Further definitions: repeated tracking, other client helpers *)

Module Further.

(** [n] calls of [trackError] in a row for one pair. *)
Fixpoint trackTimes (n : nat) (h : ErrorHandler) (errorType context : string)
    : ErrorHandler :=
  match n with
  | O => h
  | S n' => fst (trackError (trackTimes n' h errorType context) errorType context)
  end.

End Further.

Import Further.

(** ** Observing the outcomes of a retried operation *)

Module Trace.

(** What an observer of [retryWithBackoff] sees when it also keeps what each
    invocation returned or threw. *)
Inductive Step (A : Type) :=
| Called (outcome : JsError + A)
| Waited (ms : Z).
Arguments Called {A} outcome.
Arguments Waited {A} ms.

(** The operation with the outcome of every invocation written down. *)
Definition traced {St A} (fn : Op St A) : Op (St * list (Step A)) A :=
  fun sl =>
    let r := fn (fst sl) in
    (fst r, (snd r, snd sl ++ [Called (fst r)])).

#[export] Instance tracedRuntime {St A} `{Runtime St} : Runtime (St * list (Step A)) := {|
  console := fun e sl => (console e (fst sl), snd sl);
  sleep := fun ms sl => (sleep ms (fst sl), snd sl ++ [Waited ms])
|}.

(** Invocations that threw [failures] one after the other, from attempt
    number [attempt] on, each followed by the wait of its attempt. *)
Fixpoint retried {A} (h : ErrorHandler) (attempt : nat) (failures : list JsError)
    : list (Step A) :=
  match failures with
  | [] => []
  | e :: rest =>
      Called (inl e) :: Waited (calculateDelay h attempt) :: retried h (S attempt) rest
  end.

End Trace.

Import Trace.

Module MoreScenarios.

(** The Kurdish greeting of the mock responses (sin, lam with small v, alef,
    waw, comma, space, tcheh, oe, noon, farsi yeh, teh, question mark). *)
Definition kurdishGreeting : utf16 :=
  [0x0633; 0x06B5; 0x0627; 0x0648; 0x060C; 0x0020; 0x0686; 0x06C6; 0x0646;
   0x06CC; 0x062A; 0x061F]%N.

(** An Arabic word after a right-to-left mark. *)
Definition markedArabic : utf16 := [0x200F; 0x0645; 0x0631; 0x062D; 0x0628; 0x0627]%N.

(** The texts an error event can carry. *)
Definition errorTexts : list string :=
  [ "Please check your API keys in the extension settings";
    "API rate limit exceeded. Please wait a moment and try again";
    "Network connection failed. Please check your internet connection";
    "An unexpected error occurred. Please try again" ].

End MoreScenarios.

Import MoreScenarios.

Module SegmentScenarios.

(** The mock transcription table answers the hint "auto" with an English
    sentence, or with blanks. *)
Definition withMockTranscription (table : gmap string utf16) (E : Env) : Env :=
  mkEnv table (MOCK_translation E) (getMockAudioBuffer E)
    (calculateConfidence E) (fetchTranscribe E) (fetchTranslate E)
    (fetchSynthesize E) (playbackFault E) (inbox E) (storedSettings E)
    (getUserMedia E) (newAudioContext E) (closeAudioContext E).

Definition englishSpeaker : Env :=
  withMockTranscription {[ "auto" := lit "Hello there" ]} offline.

Definition silence : Env :=
  withMockTranscription {[ "auto" := lit "   " ]} offline.

Definition heard (t : utf16) : Transcription :=
  {| text := t; language := "auto"; confidence := 95 # 100 |}.

End SegmentScenarios.

Import SegmentScenarios.

Module MockMode.

(** What the mock clients answer, by the tables of the environment. *)
Definition mockTextFor (E : Env) (hint : string) : utf16 :=
  orElseText (default [] (MOCK_transcription E !! hint))
    (orElseText (default [] (MOCK_transcription E !! "ar")) Coordinator.defaultMockText).

Definition mockTranslationFor (E : Env) (sourceLanguage_ : string) : utf16 :=
  orElseText (default [] (MOCK_translation E !! sourceLanguage_))
    (orElseText (default [] (MOCK_translation E !! "ar")) (lit "Hello, how are you?")).

(** The language hint the coordinator passes to [transcribe]. *)
Definition hintOf (cfg : Settings) : string :=
  if autoDetectLanguage cfg then "auto" else sourceLanguage cfg.

Definition mockHeard (E : Env) (cfg : Settings) : Transcription :=
  {| text := mockTextFor E (hintOf cfg); language := hintOf cfg; confidence := 95 # 100 |}.

End MockMode.

Import MockMode.

Module Lifecycle.

(** The sink holds what it held. *)
Definition sameSink (w w' : World) : Prop := sink w' = sink w.

(** The texts an audio error can be reported with. *)
Definition audioErrorTexts : list string :=
  [ "Microphone permission denied. Please allow microphone access";
    "Microphone device not found. Please check your audio settings";
    "An unexpected error occurred. Please try again" ].

(** The handler keeps its counters and its configuration. *)
Definition sameHandler (w w' : World) : Prop := errorHandler w' = errorHandler w.

(** The microphone stays in use. *)
Definition microphoneBusy : Env := withGetUserMedia (fun _ => Some microphoneInUse) offline.

(** The audio context cannot be closed. *)
Definition stuckContext : JsError :=
  {| name := "InvalidStateError"; message := "Cannot close a closed AudioContext" |}.

Definition withCloseAudioContext (refusal : nat -> option JsError) (E : Env) : Env :=
  mkEnv (MOCK_transcription E) (MOCK_translation E) (getMockAudioBuffer E)
    (calculateConfidence E) (fetchTranscribe E) (fetchTranslate E)
    (fetchSynthesize E) (playbackFault E) (inbox E) (storedSettings E)
    (getUserMedia E) (newAudioContext E) refusal.

Definition closeRefused : Env := withCloseAudioContext (fun _ => Some stuckContext) offline.

End Lifecycle.

Import Lifecycle.

(** ** translationAPI.js : the supported language pairs;
       errorHandler.js : recoverable errors *)

Module Languages.

(** An entry of [SUPPORTED_LANGUAGES] (of its keys, [name] and [flag] are
    the ones read here). *)
Record LanguageInfo := mkLanguageInfo {
  language_name : string;
  language_flag : utf16
}.

Record LanguagePair := mkLanguagePair {
  pair_source : string;
  pair_target : string;
  pair_sourceName : string;
  pair_targetName : string;
  pair_sourceFlag : utf16;
  pair_targetFlag : utf16
}.

(** [table[code]] for an object written as the list of its entries. *)
Fixpoint entryOf (table : list (string * LanguageInfo)) (code : string)
    : option LanguageInfo :=
  match table with
  | [] => None
  | (key, info) :: rest => if String.eqb key code then Some info else entryOf rest code
  end.

Definition nameOf (table : list (string * LanguageInfo)) (code : string) : string :=
  match entryOf table code with Some info => language_name info | None => "" end.

Definition flagOf (table : list (string * LanguageInfo)) (code : string) : utf16 :=
  match entryOf table code with Some info => language_flag info | None => [] end.

(** [getSupportedLanguagePairs()]; [table] is [SUPPORTED_LANGUAGES], its
    entries in the order of [Object.keys]. *)
Definition getSupportedLanguagePairs (table : list (string * LanguageInfo))
    : list LanguagePair :=
  let languages := map fst table in
  flat_map (fun source_ =>
    flat_map (fun target_ =>
      if negb (String.eqb source_ target_) then
        [ {| pair_source := source_;
             pair_target := target_;
             pair_sourceName := nameOf table source_;
             pair_targetName := nameOf table target_;
             pair_sourceFlag := flagOf table source_;
             pair_targetFlag := flagOf table target_ |} ]
      else [])
      languages)
    languages.

(** The six languages of constants.js, by code and name (flags left out). *)
Definition sixLanguages : list (string * LanguageInfo) :=
  [ ("ar", mkLanguageInfo "Arabic" []); ("fa", mkLanguageInfo "Persian" []);
    ("tr", mkLanguageInfo "Turkish" []); ("he", mkLanguageInfo "Hebrew" []);
    ("ku", mkLanguageInfo "Kurdish" []); ("en", mkLanguageInfo "English" []) ].

(** [isRecoverableError(error)]; [error] is an error info. *)
Definition isRecoverableError (error : ErrorInfo) : bool :=
  existsb (String.eqb (type error)) ["RATE_LIMIT"; "NETWORK_ERROR"; "AUDIO_ERROR"].

End Languages.

Import Languages.

(** * Properties *)

(** ** Text and classes *)

Lemma between_spec (lo hi c : N) :
  between lo hi c = true <-> (lo <= c <= hi)%N.
Proof.
  unfold between. rewrite andb_true_iff, !N.leb_le. tauto.
Qed.

Lemma inList_spec (l : list N) (c : N) :
  inList l c = true <-> c ∈ l.
Proof.
  unfold inList. rewrite existsb_exists. split.
  - intros (x & Hin & Heq). apply N.eqb_eq in Heq. subst x.
    now apply list_elem_of_In.
  - intros Hin. exists c. split; [now apply list_elem_of_In | apply N.eqb_refl].
Qed.

Lemma testAny_false (class : N -> bool) (t : utf16) :
  Forall (fun c => class c = false) t -> testAny class t = false.
Proof.
  unfold testAny. induction 1 as [|c t Hc _ IH]; simpl; [reflexivity|].
  now rewrite Hc, IH.
Qed.

Lemma trimStart_nil_iff (t : utf16) :
  trimStart t = [] <-> Forall (fun c => isWhiteSpace c = true) t.
Proof.
  induction t as [|c t IH]; simpl.
  - split; [constructor | reflexivity].
  - destruct (isWhiteSpace c) eqn:Hc.
    + rewrite IH. split; [now constructor | now inversion 1].
    + split; [discriminate | inversion 1; congruence].
Qed.

Lemma trimStart_all_white (t : utf16) :
  Forall (fun c => isWhiteSpace c = true) t -> trimStart t = [].
Proof. apply trimStart_nil_iff. Qed.

Lemma trimStart_suffix (t : utf16) : exists pre, t = pre ++ trimStart t
  /\ Forall (fun c => isWhiteSpace c = true) pre.
Proof.
  induction t as [|c t (pre & Heq & Hpre)]; simpl.
  - exists []. split; [reflexivity | constructor].
  - destruct (isWhiteSpace c) eqn:Hc.
    + exists (c :: pre). split; [simpl; congruence | now constructor].
    + exists []. split; [reflexivity | constructor].
Qed.

Lemma trim_nil_iff (t : utf16) :
  trim t = [] <-> Forall (fun c => isWhiteSpace c = true) t.
Proof.
  unfold trim, trimEnd. split.
  - intros Hnil.
    assert (Hrev : trimStart (rev (trimStart t)) = []).
    { apply (f_equal (@rev N)) in Hnil. now rewrite rev_involutive in Hnil. }
    apply trimStart_nil_iff in Hrev.
    destruct (trimStart_suffix t) as (pre & Heq & Hpre).
    rewrite Heq. apply Forall_app. split; [exact Hpre|].
    rewrite <- (rev_involutive (trimStart t)).
    apply Forall_rev. exact Hrev.
  - intros Hall. rewrite (trimStart_all_white t Hall). reflexivity.
Qed.

Lemma isEmptyOrBlank_spec (t : utf16) :
  isEmptyOrBlank t = true <-> Forall (fun c => isWhiteSpace c = true) t.
Proof.
  destruct t as [|c t]; simpl.
  - split; [constructor | reflexivity].
  - rewrite Nat.eqb_eq, length_zero_iff_nil. apply trim_nil_iff.
Qed.

Lemma englishClass_spec (c : N) :
  TranslationPolicy.englishClass c = true <-> englishChar c.
Proof.
  unfold TranslationPolicy.englishClass, englishChar.
  rewrite !orb_true_iff, !between_spec, inList_spec.
  change (lit ".,!?;:'" ++ [34%N] ++ lit "()-")
    with (lit ".,!?;:'" ++ 34%N :: lit "()-").
  change (lit ".,!?;:'()-") with (lit ".,!?;:'" ++ lit "()-").
  rewrite !elem_of_app, elem_of_cons. tauto.
Qed.

Lemma englishPattern_spec (t : utf16) :
  TranslationPolicy.englishPattern t = true <-> t <> [] /\ Forall englishChar t.
Proof.
  unfold TranslationPolicy.englishPattern, testAll.
  destruct t as [|c t].
  - split; [discriminate | intros [H _]; congruence].
  - rewrite forallb_forall, Forall_forall. split.
    + intros Hall. split; [discriminate|].
      intros x Hx. apply englishClass_spec, Hall. now apply list_elem_of_In.
    + intros [_ Hall] x Hx. apply englishClass_spec, Hall. now apply list_elem_of_In.
Qed.

(** ** The direction resolver *)

Lemma existsb_eqb_elem_of (d : string) (l : list string) :
  existsb (String.eqb d) l = true <-> d ∈ l.
Proof.
  rewrite existsb_exists. split.
  - intros (x & Hin & Heq). apply String.eqb_eq in Heq. subst x.
    now apply list_elem_of_In.
  - intros Hin. exists d. split; [now apply list_elem_of_In | apply String.eqb_refl].
Qed.

(** C6. For every detected language [d] and configured pair, the resolver
    returns source [d] and target "en" when [d] is one of ar, fa, tr, he, ku;
    source "en" and the configured source language as target when [d] is
    "en"; and the configured pair unchanged otherwise.  Detected "fa" gives
    (fa, en); detected "en" with configured source "ar" gives (en, ar). *)
Theorem determineTranslationDirection_cases
    (cfg : Settings) (d : string) (t : utf16) :
  (d ∈ ["ar"; "fa"; "tr"; "he"; "ku"] ->
     determineTranslationDirection cfg d t = {| source := d; target := "en" |})
  /\ (d = "en" ->
     determineTranslationDirection cfg d t
       = {| source := "en"; target := sourceLanguage cfg |})
  /\ (d ∉ ["ar"; "fa"; "tr"; "he"; "ku"] -> d <> "en" ->
     determineTranslationDirection cfg d t
       = {| source := sourceLanguage cfg; target := targetLanguage cfg |})
  /\ determineTranslationDirection cfg "fa" t = {| source := "fa"; target := "en" |}
  /\ (sourceLanguage cfg = "ar" ->
     determineTranslationDirection cfg "en" t = {| source := "en"; target := "ar" |}).
Proof.
  unfold determineTranslationDirection.
  repeat split.
  - intros Hin. apply existsb_eqb_elem_of in Hin.
    unfold middleEastern. now rewrite Hin.
  - intros ->. reflexivity.
  - intros Hnot Hen.
    destruct (existsb (String.eqb d) middleEastern) eqn:Hex.
    + apply existsb_eqb_elem_of in Hex. contradiction.
    + apply String.eqb_neq in Hen. now rewrite Hen.
  - intros Har. simpl. now rewrite Har.
Qed.

(** ** Script detection *)

Lemma hebrewBlock_not_arabicScript (c : N) :
  hebrewBlock c -> WhisperDetect.arabicScript c = false.
Proof.
  unfold hebrewBlock, WhisperDetect.arabicScript. intros Hc.
  repeat (apply orb_false_iff; split);
    apply not_true_iff_false; rewrite between_spec; lia.
Qed.

Lemma hebrewBlock_not_turkishSpecific (c : N) :
  hebrewBlock c -> WhisperDetect.turkishSpecific c = false.
Proof.
  unfold hebrewBlock, WhisperDetect.turkishSpecific. intros Hc.
  apply not_true_iff_false. rewrite inList_spec.
  rewrite !elem_of_cons, elem_of_nil. lia.
Qed.

(** Where the code answers "he": the Hebrew test sits inside the
    Arabic-script branch. *)
Lemma detectLanguage_he_iff (t : utf16) :
  WhisperDetect.detectLanguage t = "he" <->
    testAny WhisperDetect.arabicScript t = true
    /\ testAny WhisperDetect.persianSpecific t = false
    /\ testAny WhisperDetect.hebrewSpecific t = true.
Proof.
  unfold WhisperDetect.detectLanguage.
  destruct t as [|c t]; [split; [discriminate | intros (H & _); discriminate]|].
  destruct (testAny WhisperDetect.arabicScript (c :: t));
    destruct (testAny WhisperDetect.persianSpecific (c :: t));
    destruct (testAny WhisperDetect.hebrewSpecific (c :: t));
    destruct (testAny WhisperDetect.kurdishSpecific (c :: t));
    destruct (testAny WhisperDetect.turkishSpecific (c :: t));
    split; try discriminate; try tauto; intros (? & ? & ?); discriminate.
Qed.

(** C7. The claim says that every non-empty string of Hebrew-block
    characters is detected as "he".  The code answers "en" for each of them:
    the outer test looks for Arabic-script characters only, so the Hebrew
    test is never reached. *)
Theorem detectLanguage_hebrew_block_is_en (t : utf16) :
  t <> [] -> Forall hebrewBlock t -> WhisperDetect.detectLanguage t = "en".
Proof.
  intros Hne Hall. unfold WhisperDetect.detectLanguage.
  destruct t as [|c t]; [congruence|].
  rewrite (testAny_false WhisperDetect.arabicScript (c :: t)).
  - rewrite (testAny_false WhisperDetect.turkishSpecific (c :: t)); [reflexivity|].
    eapply Forall_impl; [exact Hall|]. apply hebrewBlock_not_turkishSpecific.
  - eapply Forall_impl; [exact Hall|]. apply hebrewBlock_not_arabicScript.
Qed.

Lemma detectLanguage_shalom :
  shalom <> [] /\ Forall hebrewBlock shalom
  /\ WhisperDetect.detectLanguage shalom = "en".
Proof.
  assert (Hne : shalom <> []) by discriminate.
  assert (Hall : Forall hebrewBlock shalom).
  { unfold shalom, hebrewBlock. repeat constructor; lia. }
  split; [exact Hne|]. split; [exact Hall|].
  exact (detectLanguage_hebrew_block_is_en shalom Hne Hall).
Defined.

(** ** The skip policy *)

(** C8, as stated, fails: a text of ASCII letters and a digit with target
    "en" is ASCII-only and not blank, yet the code asks for a translation. *)
Lemma needsTranslation_ascii_digit :
  asciiOnly (lit "abc1") = true
  /\ isEmptyOrBlank (lit "abc1") = false
  /\ TranslationPolicy.needsTranslation (lit "abc1") "en" = true.
Proof. repeat split; reflexivity. Qed.

(** C8, amended. [needsTranslation] is false exactly when the text is empty
    or all whitespace, or the target is "en" and every character is an ASCII
    letter, a whitespace character or one of the listed marks. *)
Theorem needsTranslation_false_iff (t : utf16) (targetLanguage_ : string) :
  TranslationPolicy.needsTranslation t targetLanguage_ = false <->
    Forall (fun c => isWhiteSpace c = true) t
    \/ (targetLanguage_ = "en" /\ Forall englishChar t).
Proof.
  unfold TranslationPolicy.needsTranslation.
  destruct (isEmptyOrBlank t) eqn:Hblank.
  - apply isEmptyOrBlank_spec in Hblank. tauto.
  - assert (Hnw : ~ Forall (fun c => isWhiteSpace c = true) t).
    { rewrite <- isEmptyOrBlank_spec. congruence. }
    assert (Hne : t <> []).
    { intros ->. apply Hnw. constructor. }
    destruct (String.eqb targetLanguage_ "en") eqn:Hen.
    + apply String.eqb_eq in Hen. rewrite negb_false_iff, englishPattern_spec.
      tauto.
    + apply String.eqb_neq in Hen. split; [discriminate | tauto].
Qed.

(** ** Retry with backoff *)

Section RetryProperties.
Context {St : Type} `{Runtime St} {A : Type}.
Variable h : ErrorHandler.
Variable fn : Op St A.
Variable context : string.
Variable n : nat.

Lemma retryLoop_eq {S' : Type} {RT : Runtime S'} {B : Type} (g : Op S' B)
    (remaining attempt : nat) :
  retryLoop h g context n remaining attempt
  = tryCatch g (fun error =>
      if (attempt =? n)%nat then
        (effect (console (ConsoleError ("Max retries exceeded for " +:+ context +:+ ":") error));;
         throw error)%op
      else
        (effect (console (RetryWarn (attempt + 1) (n + 1) context
                            (calculateDelay h attempt) (message error)));;
         effect (sleep (calculateDelay h attempt));;
         match remaining with
         | S remaining' => retryLoop h g context n remaining' (S attempt)
         | O => throw error
         end)%op).
Proof. destruct remaining; reflexivity. Qed.

Lemma delays_app (l1 l2 : list Observation) :
  delays (l1 ++ l2) = delays l1 ++ delays l2.
Proof.
  induction l1 as [|[e|ms] l1 IH]; simpl; [reflexivity | exact IH | now rewrite IH].
Qed.

Lemma invocations_app (l1 l2 : list Observation) :
  invocations (l1 ++ l2) = (invocations l1 + invocations l2)%nat.
Proof.
  unfold invocations. now rewrite filter_app, length_app.
Qed.

(** The operation returns: the loop returns its value. *)
Lemma retryLoop_returns (remaining attempt : nat) (sl : St * list Observation) (a : A) :
  fst (fn (fst sl)) = inr a ->
  retryLoop h (probed fn) context n remaining attempt sl
    = (inr a, (snd (fn (fst sl)), snd sl ++ [Invoked None])).
Proof.
  intros Hfn.
  destruct remaining; simpl; unfold tryCatch, probed; rewrite Hfn; reflexivity.
Qed.

(** The operation throws on the last attempt: the loop rethrows the error
    it caught. *)
Lemma retryLoop_rethrows (remaining : nat) (sl : St * list Observation) (e : JsError) :
  fst (fn (fst sl)) = inl e ->
  retryLoop h (probed fn) context n remaining n sl
    = (inl e,
       (console (ConsoleError ("Max retries exceeded for " +:+ context +:+ ":") e)
          (snd (fn (fst sl))),
        snd sl ++ [Invoked (Some e)])).
Proof.
  intros Hfn.
  destruct remaining; simpl; unfold tryCatch, probed; rewrite Hfn;
    rewrite Nat.eqb_refl; reflexivity.
Qed.

(** The operation throws on an earlier attempt: the loop waits and goes
    round again. *)
Lemma retryLoop_retries (remaining attempt : nat) (sl : St * list Observation)
    (e : JsError) :
  fst (fn (fst sl)) = inl e ->
  attempt <> n ->
  retryLoop h (probed fn) context n (S remaining) attempt sl
    = retryLoop h (probed fn) context n remaining (S attempt)
        (sleep (calculateDelay h attempt)
           (console (RetryWarn (attempt + 1) (n + 1) context
                       (calculateDelay h attempt) (message e))
              (snd (fn (fst sl)))),
         (snd sl ++ [Invoked (Some e)]) ++ [Slept (calculateDelay h attempt)]).
Proof.
  intros Hfn Hne. apply Nat.eqb_neq in Hne.
  simpl. unfold tryCatch at 1. unfold probed at 1. rewrite Hfn, Hne.
  reflexivity.
Qed.

Lemma retryLoop_delays (remaining : nat) :
  forall (attempt : nat) (sl : St * list Observation),
    (attempt + remaining = n)%nat ->
    exists k, (k <= remaining)%nat
      /\ delays (snd (snd (retryLoop h (probed fn) context n remaining attempt sl)))
         = delays (snd sl) ++ map (calculateDelay h) (seq attempt k).
Proof.
  induction remaining as [|r IH]; intros attempt sl Hsum.
  - assert (attempt = n) by lia. subst attempt. exists 0%nat. split; [lia|].
    destruct (fst (fn (fst sl))) as [e|a] eqn:Hfn.
    + rewrite (retryLoop_rethrows 0 sl e Hfn). simpl.
      rewrite delays_app. simpl. reflexivity.
    + rewrite (retryLoop_returns 0 n sl a Hfn). simpl.
      rewrite delays_app. simpl. reflexivity.
  - destruct (fst (fn (fst sl))) as [e|a] eqn:Hfn.
    + assert (Hne : attempt <> n) by lia.
      rewrite (retryLoop_retries r attempt sl e Hfn Hne).
      destruct (IH (S attempt)
                  (sleep (calculateDelay h attempt)
                     (console (RetryWarn (attempt + 1) (n + 1) context
                                 (calculateDelay h attempt) (message e))
                        (snd (fn (fst sl)))),
                   (snd sl ++ [Invoked (Some e)]) ++ [Slept (calculateDelay h attempt)]))
        as (k & Hk & Hd); [lia|].
      exists (S k). split; [lia|].
      rewrite Hd. simpl. rewrite !delays_app. simpl.
      rewrite <- !app_assoc. reflexivity.
    + exists 0%nat. split; [lia|].
      rewrite (retryLoop_returns (S r) attempt sl a Hfn). simpl.
      rewrite delays_app. simpl. reflexivity.
Qed.

End RetryProperties.

(** C5. The delay computed for attempt [i] is
    min(initialDelay * multiplier^i, maxDelay); the waits of any run of the
    retrier are these delays for attempts 0, 1, 2, ... in order, at most
    [maxRetries] of them; under the default configuration the delays for
    attempts 0, 1, 2 are 1000, 2000, 4000. *)
Theorem backoff_delay_sequence {St : Type} `{Runtime St} {A : Type}
    (h : ErrorHandler) (fn : Op St A) (context : string) (maxRetries_ : nat)
    (s : St) :
  (forall i : nat,
     calculateDelay h i
       = Z.min (initialDelay h * backoffMultiplier h ^ Z.of_nat i) (maxDelay h))
  /\ delays (observe h fn context maxRetries_ s)
     = map (fun i : nat =>
              Z.min (initialDelay h * backoffMultiplier h ^ Z.of_nat i) (maxDelay h))
         (seq 0 (length (delays (observe h fn context maxRetries_ s))))
  /\ (length (delays (observe h fn context maxRetries_ s)) <= maxRetries_)%nat
  /\ map (calculateDelay newErrorHandler) [0; 1; 2]%nat = [1000; 2000; 4000]%Z.
Proof.
  split; [reflexivity|].
  destruct (retryLoop_delays h fn context maxRetries_ maxRetries_ 0 (s, []))
    as (k & Hk & Hd); [lia|].
  unfold observe, retryWithBackoff. simpl in Hd.
  assert (Hlen : length (delays (snd (snd (retryLoop h (probed fn) context maxRetries_
                                              maxRetries_ 0 (s, []))))) = k).
  { rewrite Hd. now rewrite length_map, length_seq. }
  repeat split.
  - rewrite Hlen. exact Hd.
  - rewrite Hlen. exact Hk.
Qed.

(** C4. An operation that always fails, retried with [maxRetries] = 3, is
    invoked exactly four times, with the three waits in between, and the
    error that [retryWithBackoff] raises is the very error the fourth
    invocation threw. *)
Theorem retryWithBackoff_four_attempts {St : Type} `{Runtime St} {A : Type}
    (h : ErrorHandler) (fn : Op St A) (context : string) (s : St) :
  alwaysFails fn ->
  exists (e1 e2 e3 e4 : JsError) (s' : St),
    retryWithBackoff h (probed fn) context 3 (s, [])
      = (inl e4,
         (s', [Invoked (Some e1); Slept (calculateDelay h 0);
               Invoked (Some e2); Slept (calculateDelay h 1);
               Invoked (Some e3); Slept (calculateDelay h 2);
               Invoked (Some e4)]))
    /\ invocations (observe h fn context 3 s) = 4%nat.
Proof.
  intros Hfails. unfold observe, retryWithBackoff.
  destruct (Hfails s) as (e1 & H1).
  rewrite (retryLoop_retries h fn context 3 2 0 (s, []) e1 H1); [|lia].
  match goal with |- context [retryLoop _ _ _ _ 2 1 (?s1, _)] =>
    destruct (Hfails s1) as (e2 & H2);
    rewrite (retryLoop_retries h fn context 3 1 1 (s1, _) e2 H2); [|lia]
  end.
  match goal with |- context [retryLoop _ _ _ _ 1 2 (?s2, _)] =>
    destruct (Hfails s2) as (e3 & H3);
    rewrite (retryLoop_retries h fn context 3 0 2 (s2, _) e3 H3); [|lia]
  end.
  match goal with |- context [retryLoop _ _ _ _ 0 3 (?s3, _)] =>
    destruct (Hfails s3) as (e4 & H4);
    rewrite (retryLoop_rethrows h fn context 3 0 (s3, _) e4 H4)
  end.
  exists e1, e2, e3, e4. eexists. split; reflexivity.
Qed.

Lemma retryWithBackoff_four_attempts_counter :
  alwaysFails failingCounter
  /\ exists (e1 e2 e3 e4 : JsError) (s' : nat),
       @retryWithBackoff _ (@probedRuntime _ bareRuntime) _
          newErrorHandler (probed failingCounter) "count" 3 (0%nat, [])
         = (inl e4,
            (s', [Invoked (Some e1); Slept (calculateDelay newErrorHandler 0);
                  Invoked (Some e2); Slept (calculateDelay newErrorHandler 1);
                  Invoked (Some e3); Slept (calculateDelay newErrorHandler 2);
                  Invoked (Some e4)]))
       /\ invocations (@observe _ bareRuntime _ newErrorHandler failingCounter "count" 3 0%nat)
          = 4%nat.
Proof.
  assert (Hfails : alwaysFails failingCounter).
  { intros k. eexists. reflexivity. }
  split; [exact Hfails|].
  exact (@retryWithBackoff_four_attempts _ bareRuntime _ newErrorHandler
           failingCounter "count" 0%nat Hfails).
Defined.

(** ** What a suspension leaves alone *)

Section Frames.
Variable E : Env.

Lemma updateSettings_frame (p : SettingsPatch) (w : World) :
  let w' := Coordinator.updateSettings p w in
  isActive w' = isActive w /\ audioCapture w' = audioCapture w
  /\ errorHandler w' = errorHandler w
  /\ conversationHistory w' = conversationHistory w
  /\ maxHistoryLength w' = maxHistoryLength w
  /\ currentAudio w' = currentAudio w /\ audioOut w' = audioOut w
  /\ tick w' = tick w /\ consoleOut w' = consoleOut w /\ sink w' = sink w
  /\ (is_Some (currentSettings w') <-> is_Some (currentSettings w)).
Proof.
  unfold Coordinator.updateSettings.
  destruct (currentSettings w) as [cur|] eqn:Hcur; simpl; rewrite ?Hcur;
    repeat split; auto; intros _; eauto.
Qed.

Lemma deliver_frame (l : list SettingsPatch) :
  forall w : World,
    let w' := foldl (fun acc p => Coordinator.updateSettings p acc) w l in
    isActive w' = isActive w /\ audioCapture w' = audioCapture w
    /\ errorHandler w' = errorHandler w
    /\ conversationHistory w' = conversationHistory w
    /\ maxHistoryLength w' = maxHistoryLength w
    /\ currentAudio w' = currentAudio w /\ audioOut w' = audioOut w
    /\ tick w' = tick w /\ consoleOut w' = consoleOut w /\ sink w' = sink w
    /\ (is_Some (currentSettings w') <-> is_Some (currentSettings w)).
Proof.
  induction l as [|p l IH]; intros w; simpl.
  - repeat split; auto.
  - specialize (IH (Coordinator.updateSettings p w)). simpl in IH.
    pose proof (updateSettings_frame p w) as Hp. simpl in Hp.
    destruct IH as (I1 & I2 & I3 & I4 & I5 & I6 & I7 & I8 & I9 & I10 & I11).
    destruct Hp as (P1 & P2 & P3 & P4 & P5 & P6 & P7 & P8 & P9 & P10 & P11).
    repeat split; try congruence; tauto.
Qed.

Lemma suspend_frame (w : World) :
  let w' := Coordinator.suspend E w in
  isActive w' = isActive w /\ audioCapture w' = audioCapture w
  /\ errorHandler w' = errorHandler w
  /\ conversationHistory w' = conversationHistory w
  /\ maxHistoryLength w' = maxHistoryLength w
  /\ currentAudio w' = currentAudio w /\ audioOut w' = audioOut w
  /\ tick w' = S (tick w) /\ consoleOut w' = consoleOut w /\ sink w' = sink w
  /\ (is_Some (currentSettings w') <-> is_Some (currentSettings w)).
Proof.
  unfold Coordinator.suspend.
  pose proof (deliver_frame (inbox E (tick w)) w) as Hd. simpl in Hd.
  destruct Hd as (P1 & P2 & P3 & P4 & P5 & P6 & P7 & P8 & P9 & P10 & P11).
  simpl. repeat split; try congruence; tauto.
Qed.

Lemma suspend_history (w : World) :
  conversationHistory (Coordinator.suspend E w) = conversationHistory w.
Proof. apply (suspend_frame w). Qed.

Lemma suspend_maxHistory (w : World) :
  maxHistoryLength (Coordinator.suspend E w) = maxHistoryLength w.
Proof. apply (suspend_frame w). Qed.

Lemma suspend_sink (w : World) : sink (Coordinator.suspend E w) = sink w.
Proof. apply (suspend_frame w). Qed.

Lemma suspend_consoleOut (w : World) :
  consoleOut (Coordinator.suspend E w) = consoleOut w.
Proof. apply (suspend_frame w). Qed.

Lemma suspend_isActive (w : World) :
  isActive (Coordinator.suspend E w) = isActive w.
Proof. apply (suspend_frame w). Qed.

Lemma suspend_audioCapture (w : World) :
  audioCapture (Coordinator.suspend E w) = audioCapture w.
Proof. apply (suspend_frame w). Qed.

Lemma suspend_errorHandler (w : World) :
  errorHandler (Coordinator.suspend E w) = errorHandler w.
Proof. apply (suspend_frame w). Qed.

End Frames.

(** ** The conversation history *)

Section History.
Variable E : Env.

Lemma sliceFromEnd_length {A} (n : nat) (l : list A) :
  (1 <= n)%nat -> (n < length l)%nat -> length (Coordinator.sliceFromEnd n l) = n.
Proof.
  intros Hn Hl. unfold Coordinator.sliceFromEnd.
  destruct n as [|n]; [lia|]. rewrite length_drop. lia.
Qed.

Lemma sliceFromEnd_suffix {A} (n : nat) (l : list A) :
  (1 <= n)%nat ->
  l = take (length l - n) l ++ Coordinator.sliceFromEnd n l.
Proof.
  intros Hn. unfold Coordinator.sliceFromEnd.
  destruct n as [|n]; [lia|]. now rewrite take_drop.
Qed.

(** [addToHistory] keeps the newest entries: what it stores is what is left
    of the old history and the new pair once the oldest entries beyond the
    bound are dropped. *)
Lemma addToHistory_spec (original translated : utf16) (src tgt : string) (w : World) :
  (1 <= maxHistoryLength w)%nat ->
  let w' := Coordinator.addToHistory original translated src tgt w in
  let pair :=
    [ {| role := "user"; content := lit ("Original (" +:+ src +:+ "): ") ++ original |};
      {| role := "assistant";
         content := lit ("Translation (" +:+ tgt +:+ "): ") ++ translated |} ] in
  maxHistoryLength w' = maxHistoryLength w
  /\ exists dropped,
       conversationHistory w ++ pair = dropped ++ conversationHistory w'
       /\ length dropped
          = (length (conversationHistory w) + 2 - maxHistoryLength w)%nat
       /\ (length (conversationHistory w') <= maxHistoryLength w)%nat.
Proof.
  intros Hmax. cbv zeta. unfold Coordinator.addToHistory.
  set (pushed := conversationHistory w ++ _ ++ _).
  assert (Hpushed : pushed = conversationHistory w ++
            [ {| role := "user"; content := lit ("Original (" +:+ src +:+ "): ") ++ original |};
              {| role := "assistant";
                 content := lit ("Translation (" +:+ tgt +:+ "): ") ++ translated |} ])
    by reflexivity.
  assert (Hlen : length pushed = (length (conversationHistory w) + 2)%nat).
  { rewrite Hpushed, length_app. reflexivity. }
  rewrite <- Hpushed.
  destruct (maxHistoryLength w <? length pushed)%nat eqn:Hcmp.
  - apply Nat.ltb_lt in Hcmp. simpl. split; [reflexivity|].
    exists (take (length pushed - maxHistoryLength w) pushed).
    split; [apply sliceFromEnd_suffix; exact Hmax|].
    split; [rewrite length_take; lia|].
    rewrite sliceFromEnd_length; [lia | exact Hmax | exact Hcmp].
  - apply Nat.ltb_ge in Hcmp. simpl. split; [reflexivity|].
    exists []. split; [reflexivity|]. split; [simpl; lia | exact Hcmp].
Qed.

(** Whatever [translate] is called with and whatever it does, the bound
    stays and the history stays within it. *)
Lemma translate_keeps_bound (t : utf16) (src tgt : string) (mock : bool) (w : World) :
  (1 <= maxHistoryLength w)%nat ->
  (length (conversationHistory w) <= maxHistoryLength w)%nat ->
  let w' := snd (Coordinator.translate E t src tgt mock w) in
  maxHistoryLength w' = maxHistoryLength w
  /\ (length (conversationHistory w') <= maxHistoryLength w)%nat.
Proof.
  intros Hmax Hlen. cbv zeta.
  unfold translate, getMockTranslation, tryCatch, bind, await, throw, effect, ret.
  destruct mock; [|destruct (isEmptyOrBlank t)]; cbv beta iota zeta.
  - cbn [snd]. now rewrite suspend_maxHistory, suspend_history.
  - cbn [snd]. auto.
  - destruct (fetchTranslate E (tick w) t src tgt) as [error|status errorField|result];
      cbn [snd console worldRuntime writeConsole maxHistoryLength conversationHistory];
      rewrite ?suspend_maxHistory, ?suspend_history; auto.
    pose proof (addToHistory_spec t (body_translatedText result) src tgt
                  (suspend E w)) as Hadd.
    cbv zeta in Hadd. rewrite suspend_maxHistory in Hadd.
    destruct (Hadd Hmax) as (Hm & dropped & _ & _ & Hle).
    split; [exact Hm | exact Hle].
Qed.

Lemma translateCalls_keeps_bound (calls : list Coordinator.TranslateCall) :
  forall w : World,
    (1 <= maxHistoryLength w)%nat ->
    (length (conversationHistory w) <= maxHistoryLength w)%nat ->
    maxHistoryLength (Coordinator.translateCalls E calls w) = maxHistoryLength w
    /\ (length (conversationHistory (Coordinator.translateCalls E calls w))
        <= maxHistoryLength w)%nat.
Proof.
  induction calls as [|c calls IH]; intros w Hmax Hlen; simpl.
  - auto.
  - pose proof (translate_keeps_bound (Coordinator.call_text c)
                  (Coordinator.call_source c) (Coordinator.call_target c)
                  (Coordinator.call_mockMode c) w Hmax Hlen) as Hstep.
    simpl in Hstep. destruct Hstep as (Hm & Hl).
    destruct (IH _ ltac:(rewrite Hm; exact Hmax) ltac:(rewrite Hm; exact Hl))
      as (Hm' & Hl').
    rewrite Hm in Hm', Hl'. auto.
Qed.

(** A call that reaches the backend and returns has stored the pair. *)
Lemma translate_returns_stores (t : utf16) (src tgt : string) (w w' : World)
    (r : Translation) :
  isEmptyOrBlank t = false ->
  Coordinator.translate E t src tgt false w = (inr r, w') ->
  conversationHistory w'
    = conversationHistory
        (Coordinator.addToHistory t (translatedText r) src tgt (Coordinator.suspend E w)).
Proof.
  intros Hblank.
  unfold translate, tryCatch, bind, await, throw, effect, ret.
  rewrite Hblank. cbv beta iota zeta.
  destruct (fetchTranslate E (tick w) t src tgt) as [error|status errorField|result];
    cbv beta iota zeta; try discriminate.
  intros Heq. injection Heq as <- <-. reflexivity.
Qed.

End History.

(** C10. After any sequence of [translate] calls the history holds at most
    [maxHistoryLength] entries (10 for a new client); a call that reaches the
    backend and returns appends the pair of the original and its translation,
    and drops only the oldest entries beyond the bound. *)
Theorem conversationHistory_bounded
    (E : Env) (calls : list TranslateCall) (w : World) :
  (1 <= maxHistoryLength w)%nat ->
  (length (conversationHistory w) <= maxHistoryLength w)%nat ->
  maxHistoryLength (translateCalls E calls w) = maxHistoryLength w
  /\ (length (conversationHistory (translateCalls E calls w))
      <= maxHistoryLength w)%nat
  /\ (forall (t : utf16) (src tgt : string) (r : Translation) (w' : World),
        isEmptyOrBlank t = false ->
        translate E t src tgt false (translateCalls E calls w) = (inr r, w') ->
        exists dropped : list HistoryEntry,
          conversationHistory (translateCalls E calls w)
            ++ [ {| role := "user";
                    content := lit ("Original (" +:+ src +:+ "): ") ++ t |};
                 {| role := "assistant";
                    content := lit ("Translation (" +:+ tgt +:+ "): ")
                               ++ translatedText r |} ]
          = dropped ++ conversationHistory w'
          /\ length dropped
             = (length (conversationHistory (translateCalls E calls w)) + 2
                - maxHistoryLength w)%nat
          /\ (length (conversationHistory w') <= maxHistoryLength w)%nat)
  /\ (length (conversationHistory (translateCalls E calls newBackgroundService))
      <= 10)%nat.
Proof.
  intros Hmax Hlen.
  destruct (translateCalls_keeps_bound E calls w Hmax Hlen) as (Hm & Hl).
  split; [exact Hm|]. split; [exact Hl|]. split.
  - intros t src tgt r w' Hblank Hrun.
    rewrite (translate_returns_stores E t src tgt _ w' r Hblank Hrun).
    pose proof (addToHistory_spec t (translatedText r) src tgt
                  (suspend E (translateCalls E calls w))) as Hadd.
    cbv zeta in Hadd.
    rewrite suspend_maxHistory, suspend_history, Hm in Hadd.
    destruct (Hadd Hmax) as (_ & dropped & Hd1 & Hd2 & Hd3).
    exists dropped. auto.
  - apply (translateCalls_keeps_bound E calls newBackgroundService); simpl; lia.
Qed.

Lemma conversationHistory_bounded_new_client :
  (1 <= maxHistoryLength newBackgroundService)%nat
  /\ (length (conversationHistory newBackgroundService)
      <= maxHistoryLength newBackgroundService)%nat
  /\ (length (conversationHistory
                (translateCalls translating
                   (repeat (mkCall (lit "salam") "fa" "en" false) 7)
                   newBackgroundService))
      <= 10)%nat.
Proof.
  assert (H1 : (1 <= maxHistoryLength newBackgroundService)%nat) by (simpl; lia).
  assert (H2 : (length (conversationHistory newBackgroundService)
                <= maxHistoryLength newBackgroundService)%nat) by (simpl; lia).
  split; [exact H1|]. split; [exact H2|].
  exact (proj1 (proj2 (conversationHistory_bounded translating
                         (repeat (mkCall (lit "salam") "fa" "en" false) 7)
                         newBackgroundService H1 H2))).
Defined.

(** ** What the stages of the pipeline leave alone *)

Section Preservation.
Variable E : Env.
Variable R : World -> World -> Prop.
Hypothesis R_refl : forall w, R w w.
Hypothesis R_trans : forall a b c, R a b -> R b c -> R a c.
Hypothesis R_suspend : forall w, R w (suspend E w).
Hypothesis R_console : forall e w, R w (writeConsole e w).
Hypothesis R_history : forall l w, R w (setConversationHistory l w).
Hypothesis R_audio : forall b g w, R w (startSource b g w).

Lemma keeps_ret {A} (a : A) : keeps R (ret a).
Proof. intros w. apply R_refl. Qed.

Lemma keeps_throw {A} (e : JsError) : keeps R (@throw World A e).
Proof. intros w. apply R_refl. Qed.

Lemma keeps_gets {A} (f : World -> A) : keeps R (gets f).
Proof. intros w. apply R_refl. Qed.

Lemma keeps_settings : keeps R settings.
Proof. intros w. unfold settings. destruct (currentSettings w); apply R_refl. Qed.

Lemma keeps_bind {A B} (m : Op World A) (k : A -> Op World B) :
  keeps R m -> (forall a, keeps R (k a)) -> keeps R (bind m k).
Proof.
  intros Hm Hk w. unfold bind. specialize (Hm w).
  destruct (m w) as [[e|a] w1]; cbn [snd] in *; [exact Hm|].
  eapply R_trans; [exact Hm | apply Hk].
Qed.

Lemma keeps_tryCatch {A} (m : Op World A) (handler : JsError -> Op World A) :
  keeps R m -> (forall e, keeps R (handler e)) -> keeps R (tryCatch m handler).
Proof.
  intros Hm Hh w. unfold tryCatch. specialize (Hm w).
  destruct (m w) as [[e|a] w1]; cbn [snd] in *; [|exact Hm].
  eapply R_trans; [exact Hm | apply Hh].
Qed.

Lemma keeps_await {A} (answer : nat -> A) : keeps R (await E answer).
Proof. intros w. apply R_suspend. Qed.

Lemma keeps_console (e : LogEntry) :
  keeps R (effect (@console World (worldRuntime E) e)).
Proof. intros w. apply R_console. Qed.

Lemma keeps_sleep (ms : Z) :
  keeps R (effect (@sleep World (worldRuntime E) ms)).
Proof. intros w. apply R_suspend. Qed.

Lemma keeps_retryLoop {A} (h : ErrorHandler) (fn : Op World A) (context : string)
    (n remaining : nat) :
  keeps R fn ->
  forall attempt, keeps R (@retryLoop World (worldRuntime E) A h fn context n remaining attempt).
Proof.
  intros Hfn. induction remaining as [|r IH]; intros attempt;
    rewrite retryLoop_eq; apply keeps_tryCatch; try exact Hfn; intros e;
    destruct (attempt =? n)%nat.
  - apply keeps_bind; [apply keeps_console | intros; apply keeps_throw].
  - apply keeps_bind; [apply keeps_console | intros].
    apply keeps_bind; [apply keeps_sleep | intros; apply keeps_throw].
  - apply keeps_bind; [apply keeps_console | intros; apply keeps_throw].
  - apply keeps_bind; [apply keeps_console | intros].
    apply keeps_bind; [apply keeps_sleep | intros; apply IH].
Qed.

Lemma keeps_retryWithBackoff {A} (h : ErrorHandler) (fn : Op World A)
    (context : string) (n : nat) :
  keeps R fn -> keeps R (@retryWithBackoff World (worldRuntime E) A h fn context n).
Proof. intros Hfn. now apply keeps_retryLoop. Qed.

Lemma keeps_transcribe (blob : Blob) (lang : string) (mock : bool) :
  keeps R (transcribe E blob lang mock).
Proof.
  unfold transcribe, getMockTranscription.
  apply keeps_tryCatch.
  - destruct mock.
    + apply keeps_bind; [apply keeps_await | intros; apply keeps_ret].
    + apply keeps_bind; [apply keeps_await|].
      intros [error|status errorField|result];
        first [apply keeps_throw | apply keeps_ret].
  - intros e. apply keeps_bind; [apply keeps_console | intros; apply keeps_throw].
Qed.

Lemma keeps_addToHistory (o t : utf16) (src tgt : string) :
  keeps R (effect (addToHistory o t src tgt)).
Proof.
  intros w. unfold effect, addToHistory. cbn [snd].
  destruct (_ <? _)%nat; apply R_history.
Qed.

Lemma keeps_translate (t : utf16) (src tgt : string) (mock : bool) :
  keeps R (translate E t src tgt mock).
Proof.
  unfold translate, getMockTranslation.
  apply keeps_tryCatch.
  - destruct mock; [|destruct (isEmptyOrBlank t)].
    + apply keeps_bind; [apply keeps_await | intros; apply keeps_ret].
    + apply keeps_ret.
    + apply keeps_bind; [apply keeps_await|].
      intros [error|status errorField|result];
        first [apply keeps_throw | idtac].
      apply keeps_bind; [apply keeps_addToHistory | intros; apply keeps_ret].
  - intros e. apply keeps_bind; [apply keeps_console | intros; apply keeps_throw].
Qed.

Lemma keeps_synthesize (t : utf16) (lang : string) (mock : bool) :
  keeps R (synthesize E t lang mock).
Proof.
  unfold synthesize, getMockAudio.
  apply keeps_tryCatch.
  - destruct mock; [|destruct (isEmptyOrBlank t)].
    + apply keeps_bind; [apply keeps_await | intros; apply keeps_ret].
    + apply keeps_throw.
    + apply keeps_bind; [apply keeps_await|].
      intros [error|status errorField|result];
        first [apply keeps_throw | apply keeps_ret].
  - intros e. apply keeps_bind; [apply keeps_console | intros; apply keeps_throw].
Qed.

Lemma keeps_playAudio (b : AudioBuffer) (v : Q) : keeps R (playAudio E b v).
Proof.
  unfold playAudio. apply keeps_tryCatch.
  - apply keeps_bind; [apply keeps_await|].
    intros [error|]; [apply keeps_throw|].
    apply keeps_bind; [|intros; apply keeps_ret].
    intros w. apply R_audio.
  - intros e. apply keeps_bind; [apply keeps_console | intros; apply keeps_throw].
Qed.

Lemma keeps_transcribeStage (blob : Blob) : keeps R (transcribeStage E blob).
Proof.
  unfold transcribeStage. apply keeps_bind; [apply keeps_gets|]. intros h.
  apply keeps_retryWithBackoff.
  apply keeps_bind; [apply keeps_settings | intros; apply keeps_transcribe].
Qed.

Lemma keeps_translateStage (t : utf16) (src tgt : string) :
  keeps R (translateStage E t src tgt).
Proof.
  unfold translateStage. apply keeps_bind; [apply keeps_gets|]. intros h.
  apply keeps_retryWithBackoff.
  apply keeps_bind; [apply keeps_settings | intros; apply keeps_translate].
Qed.

Lemma keeps_synthesizeStage (t : utf16) (tgt : string) :
  keeps R (synthesizeStage E t tgt).
Proof.
  unfold synthesizeStage. apply keeps_bind; [apply keeps_gets|]. intros h.
  apply keeps_retryWithBackoff.
  apply keeps_bind; [apply keeps_settings | intros; apply keeps_synthesize].
Qed.

Lemma keeps_playStage (b : AudioBuffer) : keeps R (playStage E b).
Proof.
  unfold playStage.
  apply keeps_bind; [apply keeps_settings | intros; apply keeps_playAudio].
Qed.

End Preservation.

(** ** The pipeline, stage by stage *)

Section PipelineRuns.
Variable E : Env.

Lemma quiet_refl (w : World) : quiet w w.
Proof. split; auto. Qed.

Lemma quiet_trans (a b c : World) : quiet a b -> quiet b c -> quiet a c.
Proof. intros [H1 H2] [H3 H4]. split; [congruence | auto]. Qed.

Lemma quiet_suspend (w : World) : quiet w (suspend E w).
Proof.
  split; [apply suspend_sink|]. intros Hs. now apply (suspend_frame E w).
Qed.

Lemma quiet_console (e : LogEntry) (w : World) : quiet w (writeConsole e w).
Proof. split; auto. Qed.

Lemma quiet_history (l : list HistoryEntry) (w : World) :
  quiet w (setConversationHistory l w).
Proof. split; auto. Qed.

Lemma quiet_audio (b : AudioBuffer) (g : Q) (w : World) : quiet w (startSource b g w).
Proof. split; auto. Qed.

(** A stage that ran from [w] to [w'] sent nothing and kept the settings. *)
Lemma stage_quiet {A} (m : Op World A) (w w' : World) (r : JsError + A) :
  keeps quiet m -> m w = (r, w') -> quiet w w'.
Proof. intros Hk Hrun. specialize (Hk w). now rewrite Hrun in Hk. Qed.

Lemma transcribeStage_quiet (blob : Blob) : keeps quiet (transcribeStage E blob).
Proof.
  apply keeps_transcribeStage;
    auto using quiet_refl, quiet_suspend, quiet_console. apply quiet_trans.
Qed.

Lemma translateStage_quiet (t : utf16) (src tgt : string) :
  keeps quiet (translateStage E t src tgt).
Proof.
  apply keeps_translateStage;
    auto using quiet_refl, quiet_suspend, quiet_console, quiet_history.
  apply quiet_trans.
Qed.

Lemma synthesizeStage_quiet (t : utf16) (tgt : string) :
  keeps quiet (synthesizeStage E t tgt).
Proof.
  apply keeps_synthesizeStage;
    auto using quiet_refl, quiet_suspend, quiet_console. apply quiet_trans.
Qed.

Lemma playStage_quiet (b : AudioBuffer) : keeps quiet (playStage E b).
Proof.
  apply keeps_playStage;
    auto using quiet_refl, quiet_suspend, quiet_console, quiet_audio.
  apply quiet_trans.
Qed.

(** Once the guard has passed, the pipeline is the sequence of its stages. *)
Lemma pipeline_after_guard (blob : Blob) (w : World) :
  isActive w = true ->
  is_Some (currentSettings w) ->
  pipeline E blob w
  = bind (transcribeStage E blob) (fun transcription =>
      if isEmptyOrBlank (text transcription) then ret tt
      else
        bind settings (fun cfg =>
          let direction := resolveLanguages cfg transcription in
          if TranslationPolicy.needsTranslation (text transcription) (target direction) then
            bind (translateStage E (text transcription) (source direction) (target direction))
              (fun translation =>
                 bind (synthesizeStage E (translatedText translation) (target direction))
                   (fun audioBuffer =>
                      bind (playStage E audioBuffer)
                        (fun _ => emitStage E transcription translation direction)))
          else ret tt)) w.
Proof.
  intros Hactive Hsome.
  unfold pipeline. unfold bind at 1. unfold gets at 1. cbv beta iota.
  unfold bind at 1. unfold gets at 1. cbv beta iota.
  rewrite Hactive, (bool_decide_eq_true_2 _ Hsome). reflexivity.
Qed.

(** The run of the pipeline up to playback, when transcription, translation
    and synthesis return. *)
Lemma pipeline_reaches_playback (blob : Blob) (w w1 w2 w3 : World)
    (tr : Transcription) (cfg1 : Settings) (tl : Translation) (buf : AudioBuffer) :
  isActive w = true ->
  is_Some (currentSettings w) ->
  transcribeStage E blob w = (inr tr, w1) ->
  isEmptyOrBlank (text tr) = false ->
  currentSettings w1 = Some cfg1 ->
  TranslationPolicy.needsTranslation (text tr) (target (resolveLanguages cfg1 tr)) = true ->
  translateStage E (text tr) (source (resolveLanguages cfg1 tr))
    (target (resolveLanguages cfg1 tr)) w1 = (inr tl, w2) ->
  synthesizeStage E (translatedText tl) (target (resolveLanguages cfg1 tr)) w2
    = (inr buf, w3) ->
  pipeline E blob w
  = bind (playStage E buf)
      (fun _ => emitStage E tr tl (resolveLanguages cfg1 tr)) w3
  /\ quiet w w3.
Proof.
  intros Hactive Hsome Htr Hblank Hcfg Hneeds Htl Hsyn.
  split.
  - rewrite (pipeline_after_guard blob w Hactive Hsome).
    unfold bind at 1. rewrite Htr, Hblank.
    unfold bind at 1. unfold settings at 1. rewrite Hcfg. cbv zeta.
    rewrite Hneeds.
    unfold bind at 1. rewrite Htl.
    unfold bind at 1. rewrite Hsyn. reflexivity.
  - eapply quiet_trans; [exact (stage_quiet _ _ _ _ (transcribeStage_quiet blob) Htr)|].
    eapply quiet_trans;
      [exact (stage_quiet _ _ _ _ (translateStage_quiet _ _ _) Htl)|].
    exact (stage_quiet _ _ _ _ (synthesizeStage_quiet _ _) Hsyn).
Qed.

(** What the [catch] block sends and logs. *)
Lemma pipelineFailed_run (e : JsError) (w : World) :
  sink (snd (pipelineFailed E e w))
    = sink w ++ [Sink.TRANSLATION_ERROR
                   (getUserFriendlyMessage (handleApiError e "Translation Pipeline"))]
  /\ consoleOut (snd (pipelineFailed E e w))
     = consoleOut w ++ [ErrorLogged "processAudioChunk" e;
                        ConsoleError "Translation Pipeline API error:" e].
Proof.
  unfold pipelineFailed, logError, sendErrorToContentScript, bind, effect, await.
  cbn [fst snd sink consoleOut post console worldRuntime].
  rewrite suspend_sink, suspend_consoleOut. cbn [sink consoleOut writeConsole].
  rewrite <- app_assoc. split; reflexivity.
Qed.

(** What the result step sends. *)
Lemma emitStage_run (tr : Transcription) (tl : Translation)
    (d : TranslationDirection) (cfg : Settings) (w : World) :
  currentSettings w = Some cfg ->
  emitStage E tr tl d w
  = (inr tt,
     post (Sink.TRANSLATION_RESULT
             {| Sink.originalText := text tr;
                Sink.translatedText := translatedText tl;
                Sink.sourceLanguage := source d;
                Sink.targetLanguage := target d;
                Sink.confidence := confidence tr;
                Sink.bidirectional := bidirectionalMode cfg |})
       (suspend E w)).
Proof.
  intros Hcfg.
  unfold emitStage, sendResultsToContentScript, bind, settings, effect, await.
  rewrite Hcfg. reflexivity.
Qed.

End PipelineRuns.

(** ** Playback and the result event *)

(** C1, as stated, fails: with transcription, translation and synthesis
    done and playback throwing, the sink receives one error event and no
    result event. *)
Lemma playback_failure_suppresses_result :
  transcribeStage brokenPlayback segment (running DEFAULT_SETTINGS)
    = (inr mockTranscription, transcribed brokenPlayback)
  /\ translateStage brokenPlayback defaultMockText "ar" "en" (transcribed brokenPlayback)
     = (inr mockTranslation, translated brokenPlayback "en")
  /\ sink (processAudioChunk brokenPlayback segment (running DEFAULT_SETTINGS))
     = [Sink.TRANSLATION_ERROR "An unexpected error occurred. Please try again"]
  /\ filter (fun e => Sink.isResult e = true)
       (sink (processAudioChunk brokenPlayback segment (running DEFAULT_SETTINGS)))
     = [].
Proof. repeat split; vm_compute; reflexivity. Qed.

(** C1, amended. For a segment whose transcription, translation and
    synthesis return, the sink receives exactly one event: the result event
    when playback returns; when playback throws, an error event and no
    result event, the failure being logged. *)
Theorem playback_outcome_decides_event
    (E : Env) (blob : Blob) (w w1 w2 w3 : World)
    (tr : Transcription) (cfg1 : Settings) (tl : Translation) (buf : AudioBuffer) :
  isActive w = true ->
  is_Some (currentSettings w) ->
  transcribeStage E blob w = (inr tr, w1) ->
  isEmptyOrBlank (text tr) = false ->
  currentSettings w1 = Some cfg1 ->
  TranslationPolicy.needsTranslation (text tr) (target (resolveLanguages cfg1 tr)) = true ->
  translateStage E (text tr) (source (resolveLanguages cfg1 tr))
    (target (resolveLanguages cfg1 tr)) w1 = (inr tl, w2) ->
  synthesizeStage E (translatedText tl) (target (resolveLanguages cfg1 tr)) w2
    = (inr buf, w3) ->
  match playStage E buf w3 with
  | (inr _, w4) =>
      exists cfg4 : Settings,
        currentSettings w4 = Some cfg4
        /\ sink (processAudioChunk E blob w)
           = sink w ++ [Sink.TRANSLATION_RESULT
                          {| Sink.originalText := text tr;
                             Sink.translatedText := translatedText tl;
                             Sink.sourceLanguage := source (resolveLanguages cfg1 tr);
                             Sink.targetLanguage := target (resolveLanguages cfg1 tr);
                             Sink.confidence := confidence tr;
                             Sink.bidirectional := bidirectionalMode cfg4 |}]
  | (inl error, w4) =>
      sink (processAudioChunk E blob w)
        = sink w ++ [Sink.TRANSLATION_ERROR
                       (getUserFriendlyMessage (handleApiError error "Translation Pipeline"))]
      /\ consoleOut (processAudioChunk E blob w)
         = consoleOut w4 ++ [ErrorLogged "processAudioChunk" error;
                             ConsoleError "Translation Pipeline API error:" error]
  end.
Proof.
  intros Hactive Hsome Htr Hblank Hcfg Hneeds Htl Hsyn.
  destruct (pipeline_reaches_playback E blob w w1 w2 w3 tr cfg1 tl buf
              Hactive Hsome Htr Hblank Hcfg Hneeds Htl Hsyn) as (Hrun & Hq3).
  destruct (playStage E buf w3) as [[error|ok] w4] eqn:Hplay.
  - assert (Hpipe : pipeline E blob w = (inl error, w4)).
    { rewrite Hrun. unfold bind. now rewrite Hplay. }
    unfold processAudioChunk, tryCatch. rewrite Hpipe.
    destruct (pipelineFailed_run E error w4) as (Hs & Hc).
    pose proof (stage_quiet _ _ _ _ (playStage_quiet E buf) Hplay) as Hq4.
    destruct (quiet_trans _ _ _ Hq3 Hq4) as (Hsink & _).
    split; [rewrite Hs; now rewrite Hsink | exact Hc].
  - pose proof (stage_quiet _ _ _ _ (playStage_quiet E buf) Hplay) as Hq4.
    destruct (quiet_trans _ _ _ Hq3 Hq4) as (Hsink & Hkeep).
    destruct (Hkeep Hsome) as (cfg4 & Hcfg4).
    exists cfg4. split; [exact Hcfg4|].
    assert (Hpipe : pipeline E blob w
                    = emitStage E tr tl (resolveLanguages cfg1 tr) w4).
    { rewrite Hrun. unfold bind. now rewrite Hplay. }
    unfold processAudioChunk, tryCatch. rewrite Hpipe.
    rewrite (emitStage_run E tr tl _ cfg4 w4 Hcfg4).
    cbn [snd sink post]. now rewrite suspend_sink, Hsink.
Qed.

Lemma playback_outcome_broken_platform :
  sink (processAudioChunk brokenPlayback segment (running DEFAULT_SETTINGS))
    = sink (running DEFAULT_SETTINGS)
      ++ [Sink.TRANSLATION_ERROR
            (getUserFriendlyMessage
               (handleApiError (newError "Audio playback failed: window is not defined")
                  "Translation Pipeline"))]
  /\ consoleOut (processAudioChunk brokenPlayback segment (running DEFAULT_SETTINGS))
     = consoleOut (played brokenPlayback "en")
       ++ [ErrorLogged "processAudioChunk"
             (newError "Audio playback failed: window is not defined");
           ConsoleError "Translation Pipeline API error:"
             (newError "Audio playback failed: window is not defined")].
Proof.
  assert (Hsome : is_Some (currentSettings (running DEFAULT_SETTINGS)))
    by (eexists; reflexivity).
  exact (playback_outcome_decides_event brokenPlayback segment
           (running DEFAULT_SETTINGS) (transcribed brokenPlayback)
           (translated brokenPlayback "en") (synthesized brokenPlayback "en")
           mockTranscription DEFAULT_SETTINGS mockTranslation mockClip
           eq_refl Hsome
           ltac:(vm_compute; reflexivity) ltac:(vm_compute; reflexivity)
           ltac:(vm_compute; reflexivity) ltac:(vm_compute; reflexivity)
           ltac:(vm_compute; reflexivity) ltac:(vm_compute; reflexivity)).
Defined.

(** ** Settings changed while a segment is in flight *)

(** C9, as stated, fails: the same segment, from the same service, gives a
    result event with target "en" when no message arrives and with target
    "fa" when one [UPDATE_SETTINGS] message is handled during the first
    suspension of its processing. *)
Lemma settings_change_reaches_segment_in_flight :
  tick (running DEFAULT_SETTINGS) = 0%nat
  /\ inbox switchedMidFlight 0 = [targetToPersian]
  /\ sink (processAudioChunk offline segment (running DEFAULT_SETTINGS))
     = [Sink.TRANSLATION_RESULT
          {| Sink.originalText := defaultMockText;
             Sink.translatedText := lit "Hello, how are you?";
             Sink.sourceLanguage := "ar";
             Sink.targetLanguage := "en";
             Sink.confidence := 95 # 100;
             Sink.bidirectional := false |}]
  /\ sink (processAudioChunk switchedMidFlight segment (running DEFAULT_SETTINGS))
     = [Sink.TRANSLATION_RESULT
          {| Sink.originalText := defaultMockText;
             Sink.translatedText := lit "Hello, how are you?";
             Sink.sourceLanguage := "ar";
             Sink.targetLanguage := "fa";
             Sink.confidence := 95 # 100;
             Sink.bidirectional := false |}].
Proof. repeat split; vm_compute; reflexivity. Qed.

(** Playback that returns has started the clip at the volume of the
    settings read when the step began. *)
Lemma playStage_returns (E : Env) (buf : AudioBuffer) (w3 w4 : World)
    (cfg3 : Settings) (ok : bool) :
  currentSettings w3 = Some cfg3 ->
  playStage E buf w3 = (inr ok, w4) ->
  w4 = startSource buf (clampVolume (volume cfg3)) (suspend E w3).
Proof.
  intros Hcfg.
  unfold playStage, playAudio, tryCatch, bind, settings, await, throw, effect, ret.
  rewrite Hcfg. cbv beta iota zeta.
  destruct (playbackFault E (tick w3)) as [error|]; cbv beta iota zeta.
  - discriminate.
  - intros Heq. now injection Heq as _ <-.
Qed.

(** C9, amended. No snapshot is taken for a segment: each step reads the
    settings when it runs.  For a segment that completes, direction and
    target language are those of the settings in force when the
    transcription has arrived, the playback volume that of the settings in
    force when synthesis has returned, and the bidirectional flag that of
    the settings in force when playback has returned. *)
Theorem settings_read_when_each_step_runs
    (E : Env) (blob : Blob) (w w1 w2 w3 w4 : World)
    (tr : Transcription) (cfg1 cfg3 : Settings) (tl : Translation)
    (buf : AudioBuffer) (ok : bool) :
  isActive w = true ->
  is_Some (currentSettings w) ->
  transcribeStage E blob w = (inr tr, w1) ->
  isEmptyOrBlank (text tr) = false ->
  currentSettings w1 = Some cfg1 ->
  TranslationPolicy.needsTranslation (text tr) (target (resolveLanguages cfg1 tr)) = true ->
  translateStage E (text tr) (source (resolveLanguages cfg1 tr))
    (target (resolveLanguages cfg1 tr)) w1 = (inr tl, w2) ->
  synthesizeStage E (translatedText tl) (target (resolveLanguages cfg1 tr)) w2
    = (inr buf, w3) ->
  currentSettings w3 = Some cfg3 ->
  playStage E buf w3 = (inr ok, w4) ->
  exists cfg4 : Settings,
    currentSettings w4 = Some cfg4
    /\ sink (processAudioChunk E blob w)
       = sink w ++ [Sink.TRANSLATION_RESULT
                      {| Sink.originalText := text tr;
                         Sink.translatedText := translatedText tl;
                         Sink.sourceLanguage := source (resolveLanguages cfg1 tr);
                         Sink.targetLanguage := target (resolveLanguages cfg1 tr);
                         Sink.confidence := confidence tr;
                         Sink.bidirectional := bidirectionalMode cfg4 |}]
    /\ audioOut (processAudioChunk E blob w)
       = audioOut w3 ++ [(buf, clampVolume (volume cfg3))].
Proof.
  intros Hactive Hsome Htr Hblank Hcfg Hneeds Htl Hsyn Hcfg3 Hplay.
  destruct (pipeline_reaches_playback E blob w w1 w2 w3 tr cfg1 tl buf
              Hactive Hsome Htr Hblank Hcfg Hneeds Htl Hsyn) as (Hrun & Hq3).
  pose proof (stage_quiet _ _ _ _ (playStage_quiet E buf) Hplay) as Hq4.
  destruct (quiet_trans _ _ _ Hq3 Hq4) as (Hsink & Hkeep).
  destruct (Hkeep Hsome) as (cfg4 & Hcfg4).
  exists cfg4. split; [exact Hcfg4|].
  assert (Hpipe : pipeline E blob w
                  = emitStage E tr tl (resolveLanguages cfg1 tr) w4).
  { rewrite Hrun. unfold bind. now rewrite Hplay. }
  unfold processAudioChunk, tryCatch. rewrite Hpipe.
  rewrite (emitStage_run E tr tl _ cfg4 w4 Hcfg4).
  cbn [snd sink audioOut post]. split.
  - now rewrite suspend_sink, Hsink.
  - pose proof (suspend_frame E w4) as Hf4. cbv zeta in Hf4.
    destruct Hf4 as (_ & _ & _ & _ & _ & _ & Hout4 & _).
    rewrite Hout4, (playStage_returns E buf w3 w4 cfg3 ok Hcfg3 Hplay).
    cbn [audioOut startSource].
    pose proof (suspend_frame E w3) as Hf3. cbv zeta in Hf3.
    destruct Hf3 as (_ & _ & _ & _ & _ & _ & Hout3 & _).
    now rewrite Hout3.
Qed.

Lemma settings_read_after_switch :
  exists cfg4 : Settings,
    currentSettings (played switchedMidFlight "fa") = Some cfg4
    /\ sink (processAudioChunk switchedMidFlight segment (running DEFAULT_SETTINGS))
       = sink (running DEFAULT_SETTINGS)
         ++ [Sink.TRANSLATION_RESULT
               {| Sink.originalText := defaultMockText;
                  Sink.translatedText := lit "Hello, how are you?";
                  Sink.sourceLanguage := "ar";
                  Sink.targetLanguage := "fa";
                  Sink.confidence := 95 # 100;
                  Sink.bidirectional := bidirectionalMode cfg4 |}]
    /\ audioOut (processAudioChunk switchedMidFlight segment (running DEFAULT_SETTINGS))
       = audioOut (synthesized switchedMidFlight "fa")
         ++ [(mockClip, clampVolume (volume (spread DEFAULT_SETTINGS targetToPersian)))].
Proof.
  assert (Hsome : is_Some (currentSettings (running DEFAULT_SETTINGS)))
    by (eexists; reflexivity).
  exact (settings_read_when_each_step_runs switchedMidFlight segment
           (running DEFAULT_SETTINGS) (transcribed switchedMidFlight)
           (translated switchedMidFlight "fa") (synthesized switchedMidFlight "fa")
           (played switchedMidFlight "fa")
           mockTranscription (spread DEFAULT_SETTINGS targetToPersian)
           (spread DEFAULT_SETTINGS targetToPersian)
           (mockTranslationTo "fa") mockClip true
           eq_refl Hsome
           ltac:(vm_compute; reflexivity) ltac:(vm_compute; reflexivity)
           ltac:(vm_compute; reflexivity) ltac:(vm_compute; reflexivity)
           ltac:(vm_compute; reflexivity) ltac:(vm_compute; reflexivity)
           ltac:(vm_compute; reflexivity) ltac:(vm_compute; reflexivity)).
Defined.

(** ** Authentication errors under retry *)

(** C3. The claim says that an operation failing with an authentication
    error is attempted once.  In the code the retrier does not look at the
    error: a transcription that the backend answers with 401 every time is
    invoked four times, with the three backoff waits, before the error
    reaches the coordinator; the table of [getRetryStrategy], which gives
    authentication errors no retry, is not consulted. *)
Theorem auth_error_is_retried :
  @observe World (worldRuntime unauthorized) Transcription newErrorHandler
     (transcribe unauthorized segment "ar" false) "whisper_transcription"
     (maxRetries newErrorHandler) (running realMode)
    = [Invoked (Some authFailure); Slept 1000;
       Invoked (Some authFailure); Slept 2000;
       Invoked (Some authFailure); Slept 4000;
       Invoked (Some authFailure)]
  /\ type (handleApiError authFailure "Translation Pipeline") = "AUTH_ERROR"
  /\ strategy_maxRetries (getRetryStrategy "AUTH_ERROR") = 0%nat
  /\ length (filter (fun e => isTranscriptionError e = true)
               (consoleOut (processAudioChunk unauthorized segment (running realMode))))
     = 4%nat
  /\ sink (processAudioChunk unauthorized segment (running realMode))
     = [Sink.TRANSLATION_ERROR "Please check your API keys in the extension settings"].
Proof. repeat split; vm_compute; reflexivity. Qed.

(** ** The failure counter and the health check *)

Lemma countOf_track_same (h : ErrorHandler) (errorType context : string) :
  countOf (fst (trackError h errorType context)) (counterKey errorType context)
  = S (countOf h (counterKey errorType context)).
Proof.
  unfold trackError, countOf.
  destruct (5 <? _)%nat; cbn [fst errorCounts setErrorCounts];
    rewrite lookup_insert_eq; cbn [default from_option]; unfold id; lia.
Qed.

Lemma countOf_track_other (h : ErrorHandler) (errorType context key : string) :
  key <> counterKey errorType context ->
  countOf (fst (trackError h errorType context)) key = countOf h key.
Proof.
  intros Hne. unfold trackError, countOf.
  destruct (5 <? _)%nat; cbn [fst errorCounts setErrorCounts];
    rewrite lookup_insert_ne; congruence.
Qed.

Lemma isFeatureDisabled_iff (h : ErrorHandler) (errorType context : string) :
  isFeatureDisabled h errorType context = true
  <-> (5 < countOf h (counterKey errorType context))%nat.
Proof. unfold isFeatureDisabled. apply Nat.ltb_lt. Qed.

(** ** Start, stop and what they leave alone *)

Section LifecycleFrames.
Variable E : Env.
Variable R : World -> World -> Prop.
Hypothesis R_refl : forall w, R w w.
Hypothesis R_trans : forall a b c, R a b -> R b c -> R a c.
Hypothesis R_suspend : forall w, R w (suspend E w).
Hypothesis R_console : forall e w, R w (writeConsole e w).
Hypothesis R_capture : forall c w, R w (setAudioCapture c w).
Hypothesis R_settings : forall s w, R w (setCurrentSettings s w).
Hypothesis R_active : forall b w, R w (setIsActive b w).

Lemma keeps_effect (f : World -> World) :
  (forall w, R w (f w)) -> keeps R (effect f).
Proof. intros Hf w. apply Hf. Qed.

Lemma keeps_capture : keeps R capture.
Proof. intros w. unfold capture. destruct (audioCapture w); apply R_refl. Qed.

(** One step through an operation built from the statements above. *)
Ltac frame_step :=
  first
    [ apply keeps_capture
    | apply (keeps_gets R R_refl)
    | apply (keeps_ret R R_refl)
    | apply (keeps_throw R R_refl)
    | apply (keeps_settings R R_refl)
    | apply (keeps_await E R R_suspend)
    | apply (keeps_console E R R_console)
    | apply (keeps_sleep E R R_suspend)
    | apply keeps_effect; intros ?;
        first [apply R_capture | apply R_settings | apply R_active]
    | apply (keeps_bind R R_trans); [|intros ?]
    | apply (keeps_tryCatch R R_trans); [|intros ?]
    | match goal with
      | |- keeps R (match ?x with _ => _ end) => destruct x
      end ].

Ltac frame := repeat frame_step.

Lemma keeps_updateCapture (f : Capture.AudioCapture -> Capture.AudioCapture) :
  keeps R (updateCapture f).
Proof. unfold updateCapture. frame. Qed.

Lemma keeps_initialize (device : string) (v : Q) : keeps R (initialize E device v).
Proof. unfold initialize. frame. Qed.

Lemma keeps_startCapture : keeps R startCapture.
Proof. unfold startCapture. frame. Qed.

Lemma keeps_cleanup : keeps R (cleanup E).
Proof. unfold cleanup. frame. Qed.

Lemma keeps_startTranslation : keeps R (startTranslation E).
Proof.
  unfold startTranslation, logError. frame.
Qed.

Lemma keeps_stopTranslation : keeps R (stopTranslation E).
Proof. unfold stopTranslation. frame. Qed.

Lemma keeps_restartTranslation : keeps R (restartTranslation E).
Proof.
  unfold restartTranslation.
  apply (keeps_tryCatch R R_trans); [|intros ?; frame].
  apply (keeps_bind R R_trans); [apply keeps_stopTranslation|intros _].
  apply (keeps_bind R R_trans); [frame|intros _].
  apply keeps_startTranslation.
Qed.

End LifecycleFrames.

(** ** The failure counters of the service *)

Section HandlerFrames.
Variable E : Env.

Lemma sameHandler_refl (w : World) : sameHandler w w.
Proof. reflexivity. Qed.

Lemma sameHandler_trans (a b c : World) :
  sameHandler a b -> sameHandler b c -> sameHandler a c.
Proof. unfold sameHandler. congruence. Qed.

Lemma sameHandler_suspend (w : World) : sameHandler w (suspend E w).
Proof. apply suspend_errorHandler. Qed.

Lemma sameHandler_console (e : LogEntry) (w : World) : sameHandler w (writeConsole e w).
Proof. reflexivity. Qed.

Lemma sameHandler_history (l : list HistoryEntry) (w : World) :
  sameHandler w (setConversationHistory l w).
Proof. reflexivity. Qed.

Lemma sameHandler_audio (b : AudioBuffer) (g : Q) (w : World) :
  sameHandler w (startSource b g w).
Proof. reflexivity. Qed.

Lemma sameHandler_updateSettings (p : SettingsPatch) (w : World) :
  sameHandler w (updateSettings p w).
Proof. apply (updateSettings_frame p w). Qed.

Ltac handler_step :=
  first
    [ apply keeps_gets, sameHandler_refl
    | apply keeps_ret, sameHandler_refl
    | apply keeps_throw, sameHandler_refl
    | apply keeps_settings, sameHandler_refl
    | apply keeps_await, sameHandler_suspend
    | apply keeps_console, sameHandler_console
    | apply keeps_sleep, sameHandler_suspend
    | apply keeps_effect; intros ?; reflexivity
    | apply keeps_bind; [apply sameHandler_trans| |intros ?]
    | apply keeps_tryCatch; [apply sameHandler_trans| |intros ?]
    | match goal with
      | |- keeps sameHandler (match ?x with _ => _ end) => destruct x
      end ].

Lemma pipeline_sameHandler (audioBlob : Blob) : keeps sameHandler (pipeline E audioBlob).
Proof.
  unfold pipeline.
  apply keeps_bind; [apply sameHandler_trans | apply keeps_gets, sameHandler_refl|].
  intros active.
  apply keeps_bind; [apply sameHandler_trans | apply keeps_gets, sameHandler_refl|].
  intros current.
  destruct (negb active || negb (bool_decide (is_Some current)));
    [apply keeps_ret, sameHandler_refl|].
  apply keeps_bind; [apply sameHandler_trans| |].
  { apply keeps_transcribeStage;
      first [exact sameHandler_refl | exact sameHandler_trans
            | exact sameHandler_suspend | intros; reflexivity]. }
  intros transcription.
  destruct (isEmptyOrBlank (text transcription)); [apply keeps_ret, sameHandler_refl|].
  apply keeps_bind; [apply sameHandler_trans | apply keeps_settings, sameHandler_refl|].
  intros cfg.
  destruct (TranslationPolicy.needsTranslation _ _); [|apply keeps_ret, sameHandler_refl].
  apply keeps_bind; [apply sameHandler_trans| |].
  { apply keeps_translateStage;
      first [exact sameHandler_refl | exact sameHandler_trans
            | exact sameHandler_suspend | intros; reflexivity]. }
  intros translation.
  apply keeps_bind; [apply sameHandler_trans| |].
  { apply keeps_synthesizeStage;
      first [exact sameHandler_refl | exact sameHandler_trans
            | exact sameHandler_suspend | intros; reflexivity]. }
  intros audioBuffer.
  apply keeps_bind; [apply sameHandler_trans| |].
  { apply keeps_playStage;
      first [exact sameHandler_refl | exact sameHandler_trans
            | exact sameHandler_suspend | intros; reflexivity]. }
  intros _. unfold emitStage, sendResultsToContentScript.
  repeat handler_step.
Qed.

Lemma pipelineFailed_sameHandler (error : JsError) : keeps sameHandler (pipelineFailed E error).
Proof.
  unfold pipelineFailed, logError, sendErrorToContentScript. repeat handler_step.
Qed.

Lemma processAudioChunk_sameHandler (audioBlob : Blob) (w : World) :
  sameHandler w (processAudioChunk E audioBlob w).
Proof.
  unfold processAudioChunk.
  apply (keeps_tryCatch sameHandler sameHandler_trans);
    [apply pipeline_sameHandler | apply pipelineFailed_sameHandler].
Qed.

Lemma startTranslation_sameHandler : keeps sameHandler (startTranslation E).
Proof.
  apply keeps_startTranslation;
    first [exact sameHandler_refl | exact sameHandler_trans | exact sameHandler_suspend
          | reflexivity].
Qed.

Lemma stopTranslation_sameHandler : keeps sameHandler (stopTranslation E).
Proof.
  apply keeps_stopTranslation;
    first [exact sameHandler_refl | exact sameHandler_trans | exact sameHandler_suspend
          | reflexivity].
Qed.

Lemma restartTranslation_sameHandler : keeps sameHandler (restartTranslation E).
Proof.
  apply keeps_restartTranslation;
    first [exact sameHandler_refl | exact sameHandler_trans | exact sameHandler_suspend
          | reflexivity].
Qed.

Lemma healthCheck_sameHandler (w : World) : sameHandler w (healthCheck E w).
Proof.
  unfold healthCheck.
  apply (keeps_tryCatch sameHandler sameHandler_trans).
  - unfold healthCheckBody, sendErrorToContentScript.
    repeat first
      [ apply restartTranslation_sameHandler
      | apply stopTranslation_sameHandler
      | handler_step ].
  - intros error. unfold logError. repeat handler_step.
Qed.

Lemma handleMessage_sameHandler (msg : Message) : keeps sameHandler (handleMessage E msg).
Proof.
  unfold handleMessage.
  apply keeps_tryCatch; [apply sameHandler_trans| |intros error; repeat handler_step].
  destruct msg as [| |settings_].
  - apply keeps_bind; [apply sameHandler_trans | apply startTranslation_sameHandler|].
    intros _. apply keeps_ret, sameHandler_refl.
  - apply keeps_bind; [apply sameHandler_trans | apply stopTranslation_sameHandler|].
    intros _. apply keeps_ret, sameHandler_refl.
  - apply keeps_bind; [apply sameHandler_trans| |intros _; repeat handler_step].
    apply keeps_effect. intros w. apply sameHandler_updateSettings.
Qed.

Lemma occur_sameHandler (o : Occurrence) (w : World) : sameHandler w (occur E o w).
Proof.
  destruct o as [msg|audioBlob|]; cbn [occur].
  - apply handleMessage_sameHandler.
  - apply processAudioChunk_sameHandler.
  - apply healthCheck_sameHandler.
Qed.

Lemma run_sameHandler (history : list Occurrence) :
  forall w : World, sameHandler w (run E history w).
Proof.
  induction history as [|o history IH]; intros w; [reflexivity|].
  unfold run. cbn [foldl]. fold (run E history (occur E o w)).
  eapply sameHandler_trans; [apply occur_sameHandler | apply IH].
Qed.

End HandlerFrames.

Lemma isFeatureDisabled_new (errorType context : string) :
  isFeatureDisabled newErrorHandler errorType context = false.
Proof. reflexivity. Qed.

(** ** What the health check sends *)

Section HealthCheckSink.
Variable E : Env.

Lemma sameSink_refl (w : World) : sameSink w w.
Proof. reflexivity. Qed.

Lemma sameSink_trans (a b c : World) : sameSink a b -> sameSink b c -> sameSink a c.
Proof. unfold sameSink. congruence. Qed.

Lemma sameSink_suspend (w : World) : sameSink w (suspend E w).
Proof. apply suspend_sink. Qed.

Lemma stopTranslation_sameSink : keeps sameSink (stopTranslation E).
Proof.
  apply keeps_stopTranslation;
    first [exact sameSink_refl | exact sameSink_trans | exact sameSink_suspend
          | reflexivity].
Qed.

Lemma startTranslation_sameSink : keeps sameSink (startTranslation E).
Proof.
  apply keeps_startTranslation;
    first [exact sameSink_refl | exact sameSink_trans | exact sameSink_suspend
          | reflexivity].
Qed.

Lemma restartTranslation_sameSink : keeps sameSink (restartTranslation E).
Proof.
  apply keeps_restartTranslation;
    first [exact sameSink_refl | exact sameSink_trans | exact sameSink_suspend
          | reflexivity].
Qed.

(** The [catch] block of the health check sends nothing. *)
Lemma healthCheck_catch_sameSink (error : JsError) :
  keeps sameSink
    (logError E error "healthCheck";;
     effect (@console World (worldRuntime E) (ConsoleError "Health check error:" error)))%op.
Proof. intros w. reflexivity. Qed.

(** A restart from the health check, with the line written before it. *)
Lemma healthCheck_restart_sameSink (label : string) :
  keeps sameSink
    (tryCatch
       (effect (@console World (worldRuntime E) (ConsoleWarn label));;
        restartTranslation E)%op
       (fun error =>
          logError E error "healthCheck";;
          effect (@console World (worldRuntime E) (ConsoleError "Health check error:" error)))%op).
Proof.
  apply keeps_tryCatch; [apply sameSink_trans| |apply healthCheck_catch_sameSink].
  apply keeps_bind; [apply sameSink_trans| |intros _; apply restartTranslation_sameSink].
  intros w. reflexivity.
Qed.

(** While the counter of audio errors has not tripped, a health check sends
    nothing. *)
Lemma healthCheck_silent (w : World) :
  isFeatureDisabled (errorHandler w) "audio_error" "health_check" = false ->
  sink (healthCheck E w) = sink w.
Proof.
  intros Henabled.
  unfold healthCheck, healthCheckBody.
  destruct (audioCapture w) as [c|] eqn:Hcap; destruct (isActive w) eqn:Hactive;
    try (unfold tryCatch, bind, gets; cbv beta iota; rewrite Hcap, ?Hactive; reflexivity).
  destruct (negb (isInitialized (Capture.getStatus c))) eqn:Hinit.
  { pose proof (healthCheck_restart_sameSink
                  "Audio capture lost, attempting to restart..." w) as Hr.
    unfold sameSink in Hr. rewrite <- Hr.
    unfold tryCatch, bind at 1 2 3, gets at 1 2. cbv beta iota.
    rewrite Hcap, Hactive. cbv zeta. rewrite Hinit. reflexivity. }
  destruct (negb (isCapturing (Capture.getStatus c))) eqn:Hcapt.
  { pose proof (healthCheck_restart_sameSink
                  "Audio capture stopped, attempting to restart..." w) as Hr.
    unfold sameSink in Hr. rewrite <- Hr.
    unfold tryCatch, bind at 1 2 3, gets at 1 2. cbv beta iota.
    rewrite Hcap, Hactive. cbv zeta. rewrite Hinit, Hcapt. reflexivity. }
  unfold tryCatch, bind, gets. cbv beta iota.
  rewrite Hcap, Hactive. cbv zeta. rewrite Hinit, Hcapt, Henabled. reflexivity.
Qed.

(** With a capture that is initialised and capturing, and a counter that
    has not tripped, a health check changes nothing. *)
Lemma healthCheck_healthy (w : World) (c : Capture.AudioCapture) :
  audioCapture w = Some c ->
  Capture.audioContext c = true ->
  Capture.isCapturing c = true ->
  isFeatureDisabled (errorHandler w) "audio_error" "health_check" = false ->
  healthCheck E w = w.
Proof.
  intros Hcap Hinit Hcapt Henabled.
  unfold healthCheck, healthCheckBody, tryCatch, bind, gets. cbv beta iota.
  rewrite Hcap. destruct (isActive w); [|reflexivity].
  cbv zeta. cbn [Capture.getStatus isInitialized isCapturing].
  rewrite Hinit, Hcapt. cbn [negb]. cbv beta iota. rewrite Henabled. reflexivity.
Qed.

(** While translation is not active the health check does nothing. *)
Lemma healthCheck_inactive (w : World) :
  isActive w = false -> healthCheck E w = w.
Proof.
  intros Hactive.
  unfold healthCheck, healthCheckBody, tryCatch, bind, gets.
  cbv beta iota. rewrite Hactive.
  destruct (audioCapture w); reflexivity.
Qed.

End HealthCheckSink.

(** C2. The claim says that once a pair of error kind and context has
    failed more than five times, the next health check stops the pipeline
    and sends one terminal error event.  In the code the health check reads
    the counter of "audio_error" and "health_check", and nothing writes a
    counter: [trackError] has no caller, and [handleAudioError] classifies
    an audio failure without counting it.  Whatever has happened to the
    service since it was made (messages handled, chunks processed, health
    checks run), the handler is the one the constructor made, no feature
    counts as disabled, a health check sends nothing, and with a capture
    that is initialised and capturing it leaves the service as it is.  So
    after six attempts to start that failed on a microphone in use the
    health check does nothing, and after a seventh attempt that succeeded it
    leaves the service translating and sends nothing. *)
Theorem healthCheck_never_sees_failures :
  (forall (E : Env) (history : list Occurrence),
     let w := run E history newBackgroundService in
     errorHandler w = newErrorHandler
     /\ (forall errorType context : string,
           isFeatureDisabled (errorHandler w) errorType context = false)
     /\ sink (healthCheck E w) = sink w
     /\ (forall c : Capture.AudioCapture,
           audioCapture w = Some c ->
           Capture.audioContext c = true ->
           Capture.isCapturing c = true ->
           healthCheck E w = w))
  /\ length (filter (fun e => isAudioError e = true) (consoleOut afterSixFailures)) = 6%nat
  /\ isActive afterSixFailures = false
  /\ healthCheck microphoneBusyAtFirst afterSixFailures = afterSixFailures
  /\ sink afterSixFailures = []
  /\ isActive startedAtLast = true
  /\ option_map Capture.getStatus (audioCapture startedAtLast)
     = Some {| isInitialized := true; isCapturing := true |}
  /\ healthCheck microphoneBusyAtFirst startedAtLast = startedAtLast
  /\ sink startedAtLast = [].
Proof.
  split.
  { intros E history w.
    assert (Hhandler : errorHandler w = newErrorHandler).
    { exact (run_sameHandler E history newBackgroundService). }
    assert (Henabled : forall errorType context : string,
               isFeatureDisabled (errorHandler w) errorType context = false).
    { intros errorType context. rewrite Hhandler. apply isFeatureDisabled_new. }
    split; [exact Hhandler|]. split; [exact Henabled|].
    split; [apply healthCheck_silent, Henabled|].
    intros c Hcap Hinit Hcapt.
    exact (healthCheck_healthy E w c Hcap Hinit Hcapt (Henabled _ _)). }
  split; [vm_compute; reflexivity|].
  split; [vm_compute; reflexivity|].
  split; [vm_compute; reflexivity|].
  split; [vm_compute; reflexivity|].
  split; [vm_compute; reflexivity|].
  split; [vm_compute; reflexivity|].
  split; vm_compute; reflexivity.
Qed.

(** * Further properties of the code *)

(** ** The retrier, for any operation *)

Section RetryShape.
Context {St : Type} `{Runtime St} {A : Type}.
Variable h : ErrorHandler.
Variable fn : Op St A.
Variable context : string.
Variable n : nat.

Lemma retryLoop_traced (remaining : nat) :
  forall (attempt : nat) (sl : St * list (Step A)),
    (attempt + remaining = n)%nat ->
    let plain := retryLoop h fn context n remaining attempt (fst sl) in
    let seen := retryLoop h (traced fn) context n remaining attempt sl in
    fst seen = fst plain
    /\ fst (snd seen) = snd plain
    /\ exists failures : list JsError,
         snd (snd seen) = snd sl ++ retried h attempt failures ++ [Called (fst plain)]
         /\ (length failures <= remaining)%nat
         /\ (forall e, fst plain = inl e -> length failures = remaining).
Proof.
  induction remaining as [|r IH]; intros attempt sl Hsum; cbv zeta;
    rewrite (retryLoop_eq h context n fn), (retryLoop_eq h context n (traced fn));
    unfold tryCatch;
    change (traced fn sl)
      with (fst (fn (fst sl)), (snd (fn (fst sl)), snd sl ++ [Called (fst (fn (fst sl)))]));
    destruct (fn (fst sl)) as [[e|a] s1] eqn:Hfn; cbn [fst snd].
  - assert (Hn : (attempt =? n)%nat = true) by (apply Nat.eqb_eq; lia).
    rewrite Hn. unfold bind, effect, throw. cbn [fst snd console sleep tracedRuntime].
    split; [reflexivity|]. split; [reflexivity|].
    exists []. cbn [retried app length].
    split; [reflexivity|]. split; [lia | intros; lia].
  - split; [reflexivity|]. split; [reflexivity|].
    exists []. cbn [retried app length].
    split; [reflexivity|]. split; [lia | intros e' He'; discriminate He'].
  - assert (Hn : (attempt =? n)%nat = false) by (apply Nat.eqb_neq; lia).
    rewrite Hn. unfold bind, effect. cbv beta iota. cbn [fst snd console sleep tracedRuntime].
    specialize (IH (S attempt)
                  (sleep (calculateDelay h attempt)
                     (console (RetryWarn (attempt + 1) (n + 1) context
                                 (calculateDelay h attempt) (message e)) s1),
                   (snd sl ++ [Called (inl e)]) ++ [Waited (calculateDelay h attempt)])
                  ltac:(lia)).
    cbv zeta in IH. cbn [fst snd] in IH.
    destruct IH as (Hres & Hstate & failures & Htrace & Hlen & Hthrow).
    split; [exact Hres|]. split; [exact Hstate|].
    exists (e :: failures). rewrite Htrace. cbn [retried length].
    split; [now rewrite <- !app_assoc|]. split; [lia|].
    intros e' He'. now rewrite (Hthrow e' He').
  - split; [reflexivity|]. split; [reflexivity|].
    exists []. cbn [retried app length].
    split; [reflexivity|]. split; [lia | intros e' He'; discriminate He'].
Qed.

End RetryShape.

(** X1. Whatever the operation does, a run of [retryWithBackoff] is a row of
    invocations that threw, each followed by the wait of its attempt, and
    one last invocation: at most [maxRetries] invocations before the last,
    so at most [maxRetries + 1] in all and one more than there are waits.
    What [retryWithBackoff] returns or throws is what the last invocation
    returned or threw, value or error unchanged, and it throws only when
    all [maxRetries + 1] invocations have thrown.  Looking on changes
    neither the outcome nor the state. *)
Theorem retryWithBackoff_attempts_bounded {St : Type} `{Runtime St} {A : Type}
    (h : ErrorHandler) (fn : Op St A) (context : string) (maxRetries_ : nat)
    (s : St) :
  let plain := retryWithBackoff h fn context maxRetries_ s in
  let seen := retryWithBackoff h (traced fn) context maxRetries_ (s, []) in
  fst seen = fst plain
  /\ fst (snd seen) = snd plain
  /\ exists failures : list JsError,
       snd (snd seen) = retried h 0 failures ++ [Called (fst plain)]
       /\ (length failures <= maxRetries_)%nat
       /\ (forall e : JsError, fst plain = inl e -> length failures = maxRetries_).
Proof.
  exact (retryLoop_traced h fn context maxRetries_ maxRetries_ 0 (s, []) eq_refl).
Qed.

(** ** The backoff delay *)

(** X2. With a non-negative initial delay and a multiplier of at least one,
    the delay never decreases from one attempt to the next and never
    exceeds [maxDelay]; under the default configuration every attempt from
    the fifth on waits the full 10000 ms. *)
Theorem calculateDelay_monotone_capped (h : ErrorHandler) (i j : nat) :
  (0 <= initialDelay h)%Z ->
  (1 <= backoffMultiplier h)%Z ->
  (i <= j)%nat ->
  (calculateDelay h i <= calculateDelay h j)%Z
  /\ (calculateDelay h j <= maxDelay h)%Z
  /\ ((4 <= j)%nat -> calculateDelay newErrorHandler j = 10000%Z).
Proof.
  intros Hinit Hmult Hij. unfold calculateDelay. cbv zeta.
  assert (Hpow : (backoffMultiplier h ^ Z.of_nat i <= backoffMultiplier h ^ Z.of_nat j)%Z).
  { apply Z.pow_le_mono_r; lia. }
  split; [|split].
  - apply Z.min_le_compat_r. apply Z.mul_le_mono_nonneg_l; assumption.
  - apply Z.le_min_r.
  - intros Hj. cbn [initialDelay backoffMultiplier maxDelay newErrorHandler].
    unfold INITIAL_DELAY, BACKOFF_MULTIPLIER, MAX_DELAY.
    assert (H16 : (2 ^ 4 <= 2 ^ Z.of_nat j)%Z) by (apply Z.pow_le_mono_r; lia).
    change (2 ^ 4)%Z with 16%Z in H16. lia.
Qed.

Lemma calculateDelay_default_monotone :
  (0 <= initialDelay newErrorHandler)%Z
  /\ (1 <= backoffMultiplier newErrorHandler)%Z
  /\ (calculateDelay newErrorHandler 2 <= calculateDelay newErrorHandler 7)%Z
  /\ (calculateDelay newErrorHandler 7 <= maxDelay newErrorHandler)%Z.
Proof.
  assert (H1 : (0 <= initialDelay newErrorHandler)%Z) by (vm_compute; discriminate).
  assert (H2 : (1 <= backoffMultiplier newErrorHandler)%Z) by (vm_compute; discriminate).
  assert (H3 : (2 <= 7)%nat) by lia.
  split; [exact H1|]. split; [exact H2|].
  split.
  - exact (proj1 (calculateDelay_monotone_capped newErrorHandler 2 7 H1 H2 H3)).
  - exact (proj1 (proj2 (calculateDelay_monotone_capped newErrorHandler 2 7 H1 H2 H3))).
Defined.

(** ** The failure counters *)

Lemma countOf_reset_same (h : ErrorHandler) (errorType context : string) :
  countOf (resetErrorCount h errorType context) (counterKey errorType context) = 0%nat.
Proof.
  unfold resetErrorCount, countOf. cbn [errorCounts setErrorCounts].
  now rewrite lookup_delete_eq.
Qed.

Lemma countOf_reset_other (h : ErrorHandler) (errorType context key : string) :
  key <> counterKey errorType context ->
  countOf (resetErrorCount h errorType context) key = countOf h key.
Proof.
  intros Hne. unfold resetErrorCount, countOf. cbn [errorCounts setErrorCounts].
  rewrite lookup_delete_ne; congruence.
Qed.

Lemma countOf_trackTimes_same (k : nat) (h : ErrorHandler) (errorType context : string) :
  countOf (trackTimes k h errorType context) (counterKey errorType context)
  = (countOf h (counterKey errorType context) + k)%nat.
Proof.
  induction k as [|k IH]; simpl; [lia|].
  rewrite countOf_track_same, IH. lia.
Qed.

Lemma countOf_trackTimes_other (k : nat) (h : ErrorHandler)
    (errorType context key : string) :
  key <> counterKey errorType context ->
  countOf (trackTimes k h errorType context) key = countOf h key.
Proof.
  intros Hne. induction k as [|k IH]; simpl; [reflexivity|].
  now rewrite countOf_track_other.
Qed.

Lemma trackError_returns (h : ErrorHandler) (errorType context : string) :
  snd (trackError h errorType context) = true
  <-> (countOf h (counterKey errorType context) <= 5)%nat.
Proof.
  unfold trackError. cbv zeta.
  destruct (5 <? countOf h (counterKey errorType context))%nat eqn:Hcmp; cbn [snd].
  - apply Nat.ltb_lt in Hcmp. split; [discriminate | lia].
  - apply Nat.ltb_ge in Hcmp. tauto.
Qed.

(** X3. Counting from a reset, the first six calls of [trackError] for a
    pair return [true] and every later call returns [false], while
    [isFeatureDisabled] answers [true] as soon as six failures are recorded:
    after the sixth failure the feature counts as disabled although
    [trackError] has just returned [true].  A reset brings the pair back to
    enabled, and counters kept under other keys are left as they were. *)
Theorem trackError_threshold
    (h : ErrorHandler) (errorType context : string) (k : nat) :
  (snd (trackError (trackTimes k (resetErrorCount h errorType context) errorType context)
          errorType context) = true
   <-> (k < 6)%nat)
  /\ (isFeatureDisabled
        (trackTimes k (resetErrorCount h errorType context) errorType context)
        errorType context = true
      <-> (6 <= k)%nat)
  /\ isFeatureDisabled
       (resetErrorCount (trackTimes k h errorType context) errorType context)
       errorType context = false
  /\ (forall key : string,
        key <> counterKey errorType context ->
        countOf (resetErrorCount (trackTimes k h errorType context) errorType context) key
        = countOf h key).
Proof.
  split; [|split; [|split]].
  - rewrite trackError_returns, countOf_trackTimes_same, countOf_reset_same. lia.
  - rewrite isFeatureDisabled_iff, countOf_trackTimes_same, countOf_reset_same. lia.
  - apply not_true_iff_false. rewrite isFeatureDisabled_iff, countOf_reset_same. lia.
  - intros key Hne.
    rewrite countOf_reset_other by exact Hne.
    now apply countOf_trackTimes_other.
Qed.

Lemma append_assoc3 (a b c : string) : (a +:+ b) +:+ c = a +:+ (b +:+ c).
Proof.
  induction a as [|x a IH]; [reflexivity|].
  change (String x ((a +:+ b) +:+ c) = String x (a +:+ (b +:+ c))).
  now rewrite IH.
Qed.

(** X4. The key of a counter is the two parts joined by a dash, so it does
    not tell them apart: the pair (a-b, c) and the pair (a, b-c) share one
    counter, and a failure recorded for the one counts for the other. *)
Theorem counterKey_shared (h : ErrorHandler) (a b c : string) :
  counterKey (a +:+ "-" +:+ b) c = counterKey a (b +:+ "-" +:+ c)
  /\ countOf (fst (trackError h (a +:+ "-" +:+ b) c)) (counterKey a (b +:+ "-" +:+ c))
     = S (countOf h (counterKey a (b +:+ "-" +:+ c))).
Proof.
  assert (Hkey : counterKey (a +:+ "-" +:+ b) c = counterKey a (b +:+ "-" +:+ c)).
  { unfold counterKey. rewrite !append_assoc3. reflexivity. }
  split; [exact Hkey|].
  rewrite <- Hkey. apply countOf_track_same.
Qed.

(** ** Script detection, beyond Hebrew *)

Lemma persianSpecific_arabicScript (c : N) :
  WhisperDetect.persianSpecific c = true -> WhisperDetect.arabicScript c = true.
Proof.
  unfold WhisperDetect.persianSpecific, WhisperDetect.arabicScript.
  rewrite inList_spec, !elem_of_cons, elem_of_nil. intros Hc.
  rewrite !orb_true_iff, !between_spec. left. left. left. left. lia.
Qed.

Lemma testAny_true (class : N -> bool) (t : utf16) :
  testAny class t = true <-> exists c, c ∈ t /\ class c = true.
Proof.
  unfold testAny. rewrite existsb_exists. split; intros (c & Hin & Hc); exists c;
    (split; [now apply list_elem_of_In | exact Hc]).
Qed.

Lemma testAny_false_iff (class : N -> bool) (t : utf16) :
  testAny class t = false <-> Forall (fun c => class c = false) t.
Proof.
  split; [|apply testAny_false].
  unfold testAny. induction t as [|c t IH]; simpl; [constructor|].
  rewrite orb_false_iff. intros [Hc Ht]. constructor; auto.
Qed.

(** X5. A text that holds one of the characters of the Persian list is
    detected as "fa", whatever else it holds: the Kurdish and Hebrew tests
    are not reached.  The Kurdish greeting of the mock responses, which has
    tcheh and farsi yeh, is detected as Persian. *)
Theorem detectLanguage_persian_first (t : utf16) (c : N) :
  c ∈ t ->
  WhisperDetect.persianSpecific c = true ->
  WhisperDetect.detectLanguage t = "fa".
Proof.
  intros Hin Hc. unfold WhisperDetect.detectLanguage.
  destruct t as [|c0 t]; [now apply elem_of_nil in Hin|].
  assert (Hper : testAny WhisperDetect.persianSpecific (c0 :: t) = true).
  { apply testAny_true. eauto. }
  assert (Hara : testAny WhisperDetect.arabicScript (c0 :: t) = true).
  { apply testAny_true. exists c. split; [exact Hin|].
    now apply persianSpecific_arabicScript. }
  now rewrite Hara, Hper.
Qed.

Lemma detectLanguage_kurdish_greeting :
  0x06CC%N ∈ kurdishGreeting
  /\ WhisperDetect.persianSpecific 0x06CC = true
  /\ WhisperDetect.detectLanguage kurdishGreeting = "fa".
Proof.
  assert (Hin : 0x06CC%N ∈ kurdishGreeting).
  { unfold kurdishGreeting. rewrite !elem_of_cons. tauto. }
  assert (Hc : WhisperDetect.persianSpecific 0x06CC = true) by reflexivity.
  split; [exact Hin|]. split; [exact Hc|].
  exact (detectLanguage_persian_first kurdishGreeting 0x06CC%N Hin Hc).
Defined.

(** X6. A text without Arabic-script characters that holds the plain
    capital letter I is detected as Turkish: the Turkish class lists I
    (U+0049) as the capital of dotless i. *)
Theorem detectLanguage_capital_I_is_tr (t : utf16) :
  Forall (fun c => WhisperDetect.arabicScript c = false) t ->
  0x49%N ∈ t ->
  WhisperDetect.detectLanguage t = "tr".
Proof.
  intros Hno Hin. unfold WhisperDetect.detectLanguage.
  destruct t as [|c0 t]; [now apply elem_of_nil in Hin|].
  rewrite (testAny_false _ _ Hno).
  assert (Htr : testAny WhisperDetect.turkishSpecific (c0 :: t) = true).
  { apply testAny_true. exists 0x49%N. split; [exact Hin | reflexivity]. }
  now rewrite Htr.
Qed.

Lemma detectLanguage_english_sentence :
  Forall (fun c => WhisperDetect.arabicScript c = false) (lit "I am here")
  /\ 0x49%N ∈ lit "I am here"
  /\ WhisperDetect.detectLanguage (lit "I am here") = "tr".
Proof.
  assert (Hno : Forall (fun c => WhisperDetect.arabicScript c = false) (lit "I am here")).
  { repeat constructor. }
  assert (Hin : 0x49%N ∈ lit "I am here") by (apply elem_of_cons; now left).
  split; [exact Hno|]. split; [exact Hin|].
  exact (detectLanguage_capital_I_is_tr (lit "I am here") Hno Hin).
Defined.

(** X7. The answer "he" is given exactly to texts that hold an Arabic-script
    character, no character of the Persian list, and a Hebrew-block
    character or one of the direction marks U+200E, U+200F: an Arabic word
    that carries a right-to-left mark is detected as Hebrew. *)
Theorem detectLanguage_he_needs_arabic (t : utf16) :
  WhisperDetect.detectLanguage t = "he" <->
    (exists a, a ∈ t /\ WhisperDetect.arabicScript a = true)
    /\ Forall (fun c => WhisperDetect.persianSpecific c = false) t
    /\ (exists c, c ∈ t /\ (hebrewBlock c \/ c = 0x200E%N \/ c = 0x200F%N)).
Proof.
  rewrite detectLanguage_he_iff, !testAny_true, testAny_false_iff.
  assert (Hcls : forall c, WhisperDetect.hebrewSpecific c = true
                           <-> hebrewBlock c \/ c = 0x200E%N \/ c = 0x200F%N).
  { intros c. unfold WhisperDetect.hebrewSpecific, hebrewBlock.
    rewrite !orb_true_iff, between_spec, !N.eqb_eq. tauto. }
  split; intros (Ha & Hp & (c & Hin & Hc)); (split; [exact Ha|]); (split; [exact Hp|]);
    exists c; (split; [exact Hin|]); now apply Hcls.
Qed.

Lemma detectLanguage_marked_arabic :
  WhisperDetect.detectLanguage markedArabic = "he".
Proof.
  apply (proj2 (detectLanguage_he_needs_arabic markedArabic)).
  split; [exists 0x0645%N; split; [|reflexivity]|split].
  - unfold markedArabic. rewrite !elem_of_cons. tauto.
  - repeat constructor.
  - exists 0x200F%N. split; [apply elem_of_cons; now left | tauto].
Defined.

(** ** What an error event says *)

Lemma prefix_append (x s q : string) :
  String.prefix x s = true -> String.prefix x (s +:+ q) = true.
Proof.
  revert s. induction x as [|a x IH]; intros s; [intros _; destruct (s +:+ q); reflexivity|].
  destruct s as [|b s]; [discriminate|].
  change (String b s +:+ q) with (String b (s +:+ q)). simpl.
  destruct (ascii_dec a b); [apply IH | discriminate].
Qed.

Lemma includes_eq (hay needle : string) :
  includes hay needle
  = String.prefix needle hay
    || match hay with
       | EmptyString => false
       | String _ rest => includes rest needle
       end.
Proof. destruct hay; reflexivity. Qed.

Lemma includes_append_l (s q needle : string) :
  includes s needle = true -> includes (s +:+ q) needle = true.
Proof.
  induction s as [|b s IH]; rewrite includes_eq.
  - rewrite orb_false_r. intros Hp.
    rewrite includes_eq. apply orb_true_iff. left.
    now apply (prefix_append needle "" q).
  - intros Hinc. apply orb_true_iff in Hinc.
    change (String b s +:+ q) with (String b (s +:+ q)).
    rewrite includes_eq. apply orb_true_iff.
    destruct Hinc as [Hp|Hrest].
    + left. now apply (prefix_append needle (String b s) q).
    + right. now apply IH.
Qed.

Lemma includes_append_r (p s needle : string) :
  includes s needle = true -> includes (p +:+ s) needle = true.
Proof.
  intros Hinc. induction p as [|b p IH]; [exact Hinc|].
  change (String b p +:+ s) with (String b (p +:+ s)).
  rewrite includes_eq. apply orb_true_iff. now right.
Qed.

Lemma includes_self (s : string) : includes s s = true.
Proof.
  rewrite includes_eq. apply orb_true_iff. left.
  induction s as [|a s IH]; [reflexivity|]. simpl.
  destruct (ascii_dec a a); [exact IH | congruence].
Qed.

(** X8. Whichever stage fails and whatever the body of the answer says, a
    backend answer with status 401 is classified as an authentication error
    and the user is told to check the API keys. *)
Theorem backend_401_is_auth_error
    (stagePrefix status errorField apiName : string) :
  includes status "401" = true ->
  type (handleApiError
          (newError (stagePrefix +:+ message (backendError status errorField)))
          apiName) = "AUTH_ERROR"
  /\ getUserFriendlyMessage
       (handleApiError
          (newError (stagePrefix +:+ message (backendError status errorField)))
          apiName)
     = "Please check your API keys in the extension settings".
Proof.
  intros Hstatus.
  assert (Hinc : includes
                   (message (newError (stagePrefix +:+ message (backendError status errorField))))
                   "401" = true).
  { cbn [message newError backendError].
    apply includes_append_r. apply includes_append_r.
    apply includes_append_l. exact Hstatus. }
  unfold handleApiError. rewrite Hinc. cbn [orb type]. split; reflexivity.
Qed.

Lemma backend_401_transcription :
  includes "401" "401" = true
  /\ type (handleApiError
             (newError ("Transcription failed: "
                        +:+ message (backendError "401" "Invalid API key")))
             "Translation Pipeline") = "AUTH_ERROR"
  /\ getUserFriendlyMessage
       (handleApiError
          (newError ("Transcription failed: "
                     +:+ message (backendError "401" "Invalid API key")))
          "Translation Pipeline")
     = "Please check your API keys in the extension settings".
Proof.
  split; [reflexivity|].
  exact (backend_401_is_auth_error "Transcription failed: " "401" "Invalid API key"
           "Translation Pipeline" eq_refl).
Defined.

Lemma friendly_message_fixed (error : JsError) (apiName : string) :
  getUserFriendlyMessage (handleApiError error apiName) ∈ errorTexts.
Proof.
  unfold handleApiError, errorTexts.
  destruct (includes (message error) "401" || includes (message error) "Unauthorized");
    [change (getUserFriendlyMessage _)
       with "Please check your API keys in the extension settings";
     rewrite !elem_of_cons; tauto|].
  destruct (includes (message error) "429" || includes (message error) "rate limit");
    [change (getUserFriendlyMessage _)
       with "API rate limit exceeded. Please wait a moment and try again";
     rewrite !elem_of_cons; tauto|].
  destruct (includes (message error) "network" || includes (message error) "fetch");
    [change (getUserFriendlyMessage _)
       with "Network connection failed. Please check your internet connection";
     rewrite !elem_of_cons; tauto|].
  change (getUserFriendlyMessage _)
    with "An unexpected error occurred. Please try again".
  rewrite !elem_of_cons; tauto.
Qed.

(** ** One segment, at most one event *)

Section SegmentEvents.
Variable E : Env.

Lemma emitStage_sink (tr : Transcription) (tl : Translation)
    (d : TranslationDirection) (w : World) :
  match emitStage E tr tl d w with
  | (inl _, w') => sink w' = sink w
  | (inr _, w') => exists data, sink w' = sink w ++ [Sink.TRANSLATION_RESULT data]
  end.
Proof.
  destruct (currentSettings w) as [cfg|] eqn:Hcfg.
  - rewrite (emitStage_run E tr tl d cfg w Hcfg). eexists.
    cbn [sink post]. now rewrite suspend_sink.
  - unfold emitStage, bind, settings. rewrite Hcfg. reflexivity.
Qed.

(** What the [try] block does to the sink: nothing when it throws, nothing
    or one result event when it completes. *)
Lemma pipeline_sink (blob : Blob) (w : World) :
  match pipeline E blob w with
  | (inl _, w') => sink w' = sink w
  | (inr _, w') =>
      sink w' = sink w
      \/ exists data, sink w' = sink w ++ [Sink.TRANSLATION_RESULT data]
  end.
Proof.
  destruct (isActive w) eqn:Hactive;
    [destruct (currentSettings w) as [cfg0|] eqn:Hcfg0|].
  - rewrite (pipeline_after_guard E blob w Hactive ltac:(rewrite Hcfg0; eauto)).
    unfold bind at 1.
    destruct (transcribeStage E blob w) as [[e|tr] w1] eqn:Htr;
      pose proof (stage_quiet _ _ _ _ (transcribeStage_quiet E blob) Htr) as [Hs1 _];
      [exact Hs1|].
    destruct (isEmptyOrBlank (text tr)); [left; exact Hs1|].
    unfold bind at 1. unfold settings at 1.
    destruct (currentSettings w1) as [cfg1|]; [|exact Hs1].
    cbv zeta.
    destruct (TranslationPolicy.needsTranslation _ _); [|left; exact Hs1].
    unfold bind at 1.
    destruct (translateStage E _ _ _ w1) as [[e|tl] w2] eqn:Htl;
      pose proof (stage_quiet _ _ _ _ (translateStage_quiet E _ _ _) Htl) as [Hs2 _];
      [congruence|].
    unfold bind at 1.
    destruct (synthesizeStage E _ _ w2) as [[e|buf] w3] eqn:Hsyn;
      pose proof (stage_quiet _ _ _ _ (synthesizeStage_quiet E _ _) Hsyn) as [Hs3 _];
      [congruence|].
    unfold bind at 1.
    destruct (playStage E buf w3) as [[e|ok] w4] eqn:Hplay;
      pose proof (stage_quiet _ _ _ _ (playStage_quiet E buf) Hplay) as [Hs4 _];
      [congruence|].
    pose proof (emitStage_sink tr tl (resolveLanguages cfg1 tr) w4) as Hemit.
    destruct (emitStage E tr tl (resolveLanguages cfg1 tr) w4) as [[e|u] w5].
    + congruence.
    + right. destruct Hemit as (data & Hdata). exists data.
      rewrite Hdata. congruence.
  - unfold pipeline, bind, gets. rewrite Hactive, Hcfg0.
    rewrite bool_decide_eq_false_2 by (intros [? ?]; discriminate).
    left. reflexivity.
  - unfold pipeline, bind, gets. rewrite Hactive. left. reflexivity.
Qed.

End SegmentEvents.

(** X9. Processing one segment sends at most one event to the sink: nothing,
    or one result event, or one error event whose text is one of four fixed
    sentences (the message of the error itself is never sent); when the
    service is not active the segment changes nothing at all. *)
Theorem processAudioChunk_at_most_one_event (E : Env) (blob : Blob) (w : World) :
  (sink (processAudioChunk E blob w) = sink w
   \/ (exists data,
         sink (processAudioChunk E blob w) = sink w ++ [Sink.TRANSLATION_RESULT data])
   \/ (exists m,
         m ∈ errorTexts
         /\ sink (processAudioChunk E blob w) = sink w ++ [Sink.TRANSLATION_ERROR m]))
  /\ (isActive w = false -> processAudioChunk E blob w = w).
Proof.
  split.
  - unfold processAudioChunk, tryCatch.
    pose proof (pipeline_sink E blob w) as Hp.
    destruct (pipeline E blob w) as [[e|u] w'].
    + right. right.
      destruct (pipelineFailed_run E e w') as (Hs & _).
      exists (getUserFriendlyMessage (handleApiError e "Translation Pipeline")).
      split; [apply friendly_message_fixed|]. rewrite Hs. now rewrite Hp.
    + cbn [snd]. destruct Hp as [Hp|Hp]; [now left | right; now left].
  - intros Hactive. unfold processAudioChunk, tryCatch, pipeline, bind, gets.
    now rewrite Hactive.
Qed.

(** X10. A transcription that is empty or all whitespace ends the segment at
    once: no event is sent and no translation, synthesis or playback is
    started; the service is left as the transcription stage left it. *)
Theorem processAudioChunk_blank_transcript
    (E : Env) (blob : Blob) (w w1 : World) (tr : Transcription) :
  isActive w = true ->
  is_Some (currentSettings w) ->
  transcribeStage E blob w = (inr tr, w1) ->
  isEmptyOrBlank (text tr) = true ->
  processAudioChunk E blob w = w1 /\ sink w1 = sink w.
Proof.
  intros Hactive Hsome Htr Hblank.
  split.
  - unfold processAudioChunk, tryCatch.
    rewrite (pipeline_after_guard E blob w Hactive Hsome).
    unfold bind. now rewrite Htr, Hblank.
  - exact (proj1 (stage_quiet _ _ _ _ (transcribeStage_quiet E blob) Htr)).
Qed.

Lemma processAudioChunk_silence :
  processAudioChunk silence segment (running DEFAULT_SETTINGS) = transcribed silence
  /\ sink (transcribed silence) = sink (running DEFAULT_SETTINGS).
Proof.
  assert (Hsome : is_Some (currentSettings (running DEFAULT_SETTINGS)))
    by (eexists; reflexivity).
  exact (processAudioChunk_blank_transcript silence segment
           (running DEFAULT_SETTINGS) (transcribed silence)
           (heard (lit "   "))
           eq_refl Hsome ltac:(vm_compute; reflexivity) ltac:(vm_compute; reflexivity)).
Defined.

(** X11. When [needsTranslation] answers no for the transcript and the
    resolved target language, the segment ends there: the service is left
    as the transcription stage left it and no event is sent. *)
Theorem processAudioChunk_skips_translated_text
    (E : Env) (blob : Blob) (w w1 : World) (tr : Transcription) (cfg1 : Settings) :
  isActive w = true ->
  is_Some (currentSettings w) ->
  transcribeStage E blob w = (inr tr, w1) ->
  currentSettings w1 = Some cfg1 ->
  TranslationPolicy.needsTranslation (text tr) (target (resolveLanguages cfg1 tr)) = false ->
  processAudioChunk E blob w = w1 /\ sink w1 = sink w.
Proof.
  intros Hactive Hsome Htr Hcfg Hneeds.
  split.
  - unfold processAudioChunk, tryCatch.
    rewrite (pipeline_after_guard E blob w Hactive Hsome).
    unfold bind at 1. rewrite Htr.
    destruct (isEmptyOrBlank (text tr)); [reflexivity|].
    unfold bind, settings. now rewrite Hcfg, Hneeds.
  - exact (proj1 (stage_quiet _ _ _ _ (transcribeStage_quiet E blob) Htr)).
Qed.

Lemma processAudioChunk_english_speaker :
  processAudioChunk englishSpeaker segment (running DEFAULT_SETTINGS)
    = transcribed englishSpeaker
  /\ sink (transcribed englishSpeaker) = sink (running DEFAULT_SETTINGS).
Proof.
  assert (Hsome : is_Some (currentSettings (running DEFAULT_SETTINGS)))
    by (eexists; reflexivity).
  exact (processAudioChunk_skips_translated_text englishSpeaker segment
           (running DEFAULT_SETTINGS) (transcribed englishSpeaker)
           (heard (lit "Hello there")) DEFAULT_SETTINGS
           eq_refl Hsome ltac:(vm_compute; reflexivity) ltac:(vm_compute; reflexivity)
           ltac:(vm_compute; reflexivity)).
Defined.

(** ** Mock mode *)

Section MockRuns.
Variable E : Env.
Hypothesis quietInbox : forall n, inbox E n = [].

Lemma suspend_quiet_inbox (w : World) : suspend E w = setTick (S (tick w)) w.
Proof. unfold suspend. now rewrite quietInbox. Qed.

Lemma retry_first_success {A} (h : ErrorHandler) (fn : Op World A)
    (context : string) (n : nat) (w w' : World) (a : A) :
  fn w = (inr a, w') ->
  @retryWithBackoff World (worldRuntime E) A h fn context n w = (inr a, w').
Proof.
  intros Hfn. unfold retryWithBackoff. rewrite retryLoop_eq.
  unfold tryCatch. now rewrite Hfn.
Qed.

Lemma transcribeStage_mock (blob : Blob) (w : World) (cfg : Settings) :
  currentSettings w = Some cfg ->
  mockMode cfg = true ->
  transcribeStage E blob w = (inr (mockHeard E cfg), setTick (S (tick w)) w).
Proof.
  intros Hcfg Hmock. unfold transcribeStage, bind at 1, gets. cbv beta iota.
  apply retry_first_success.
  unfold bind, settings. rewrite Hcfg, Hmock.
  unfold transcribe, getMockTranscription, tryCatch, bind, await, ret.
  cbv beta iota. now rewrite suspend_quiet_inbox.
Qed.

Lemma translateStage_mock (t : utf16) (src tgt : string) (w : World) (cfg : Settings) :
  currentSettings w = Some cfg ->
  mockMode cfg = true ->
  translateStage E t src tgt w
  = (inr {| translatedText := mockTranslationFor E src;
            translationConfidence := 9 # 10;
            translationSource := Some src;
            translationTarget := Some tgt |},
     setTick (S (tick w)) w).
Proof.
  intros Hcfg Hmock. unfold translateStage, bind at 1, gets. cbv beta iota.
  apply retry_first_success.
  unfold bind, settings. rewrite Hcfg, Hmock.
  unfold translate, getMockTranslation, tryCatch, bind, await, ret.
  cbv beta iota. now rewrite suspend_quiet_inbox.
Qed.

Lemma synthesizeStage_mock (t : utf16) (tgt : string) (w : World) (cfg : Settings) :
  currentSettings w = Some cfg ->
  mockMode cfg = true ->
  synthesizeStage E t tgt w
  = (inr (getMockAudioBuffer E t tgt), setTick (S (tick w)) w).
Proof.
  intros Hcfg Hmock. unfold synthesizeStage, bind at 1, gets. cbv beta iota.
  apply retry_first_success.
  unfold bind, settings. rewrite Hcfg, Hmock.
  unfold synthesize, getMockAudio, tryCatch, bind, await, ret.
  cbv beta iota. now rewrite suspend_quiet_inbox.
Qed.

End MockRuns.

(** Playback on a platform that works. *)
Lemma playStage_runs (E : Env) (buf : AudioBuffer) (w : World) (cfg : Settings) :
  currentSettings w = Some cfg ->
  playbackFault E (tick w) = None ->
  playStage E buf w
  = (inr true, startSource buf (clampVolume (volume cfg)) (suspend E w)).
Proof.
  intros Hcfg Hfault.
  unfold playStage, playAudio, tryCatch, bind, settings, await, effect, ret.
  rewrite Hcfg. cbv beta iota. now rewrite Hfault.
Qed.

(** X12. In mock mode, with a source language of the six supported codes, a
    working audio platform and no settings message on the way, a segment
    makes no request to the backend and cannot fail:
    after five suspensions the sink has received exactly one result event,
    built from the mock tables, the clip has been started at the clamped
    volume, and nothing was written to the console. *)
Theorem processAudioChunk_mock_mode
    (E : Env) (blob : Blob) (w : World) (cfg : Settings) :
  (forall n, inbox E n = []) ->
  (forall n, playbackFault E n = None) ->
  isActive w = true ->
  currentSettings w = Some cfg ->
  mockMode cfg = true ->
  sourceLanguage cfg ∈ ["ar"; "fa"; "tr"; "he"; "ku"; "en"] ->
  isEmptyOrBlank (mockTextFor E (hintOf cfg)) = false ->
  TranslationPolicy.needsTranslation (mockTextFor E (hintOf cfg))
    (target (resolveLanguages cfg (mockHeard E cfg))) = true ->
  sink (processAudioChunk E blob w)
    = sink w
      ++ [Sink.TRANSLATION_RESULT
            {| Sink.originalText := mockTextFor E (hintOf cfg);
               Sink.translatedText :=
                 mockTranslationFor E (source (resolveLanguages cfg (mockHeard E cfg)));
               Sink.sourceLanguage := source (resolveLanguages cfg (mockHeard E cfg));
               Sink.targetLanguage := target (resolveLanguages cfg (mockHeard E cfg));
               Sink.confidence := 95 # 100;
               Sink.bidirectional := bidirectionalMode cfg |}]
  /\ audioOut (processAudioChunk E blob w)
     = audioOut w
       ++ [(getMockAudioBuffer E
              (mockTranslationFor E (source (resolveLanguages cfg (mockHeard E cfg))))
              (target (resolveLanguages cfg (mockHeard E cfg))),
            clampVolume (volume cfg))]
  /\ tick (processAudioChunk E blob w) = (tick w + 5)%nat
  /\ consoleOut (processAudioChunk E blob w) = consoleOut w
  /\ conversationHistory (processAudioChunk E blob w) = conversationHistory w.
Proof.
  intros Hinbox Hplay Hactive Hcfg Hmock Hcode Hblank Hneeds.
  assert (Hsome : is_Some (currentSettings w)) by (rewrite Hcfg; eauto).
  set (d := resolveLanguages cfg (mockHeard E cfg)) in *.
  set (w1 := setTick (S (tick w)) w).
  set (w2 := setTick (S (tick w1)) w1).
  set (w3 := setTick (S (tick w2)) w2).
  pose proof (transcribeStage_mock E Hinbox blob w cfg Hcfg Hmock) as Htr.
  pose proof (translateStage_mock E Hinbox (mockTextFor E (hintOf cfg))
                (source d) (target d) w1 cfg Hcfg Hmock) as Htl.
  pose proof (synthesizeStage_mock E Hinbox (mockTranslationFor E (source d))
                (target d) w2 cfg Hcfg Hmock) as Hsyn.
  destruct (pipeline_reaches_playback E blob w w1 w2 w3 (mockHeard E cfg) cfg _ _
              Hactive Hsome Htr Hblank Hcfg Hneeds Htl Hsyn) as (Hrun & _).
  assert (Hcfg3 : currentSettings w3 = Some cfg) by exact Hcfg.
  pose proof (playStage_runs E
                (getMockAudioBuffer E (mockTranslationFor E (source d)) (target d))
                w3 cfg Hcfg3 (Hplay _)) as Hplayed.
  set (w4 := startSource _ _ (suspend E w3)) in Hplayed.
  assert (Hcfg4 : currentSettings w4 = Some cfg).
  { unfold w4. cbn [currentSettings startSource].
    rewrite (suspend_quiet_inbox E Hinbox). exact Hcfg. }
  assert (Hfinal : processAudioChunk E blob w
                   = post (Sink.TRANSLATION_RESULT
                             {| Sink.originalText := mockTextFor E (hintOf cfg);
                                Sink.translatedText := mockTranslationFor E (source d);
                                Sink.sourceLanguage := source d;
                                Sink.targetLanguage := target d;
                                Sink.confidence := 95 # 100;
                                Sink.bidirectional := bidirectionalMode cfg |})
                       (suspend E w4)).
  { unfold processAudioChunk, tryCatch. rewrite Hrun.
    unfold bind at 1. rewrite Hplayed.
    now rewrite (emitStage_run E _ _ _ cfg w4 Hcfg4). }
  rewrite Hfinal. unfold w4. rewrite !(suspend_quiet_inbox E Hinbox).
  cbn [sink audioOut tick consoleOut conversationHistory post startSource setTick
       w3 w2 w1].
  repeat split; try reflexivity. lia.
Qed.

Lemma processAudioChunk_mock_default :
  sink (processAudioChunk offline segment (running DEFAULT_SETTINGS))
    = sink (running DEFAULT_SETTINGS)
      ++ [Sink.TRANSLATION_RESULT
            {| Sink.originalText := mockTextFor offline (hintOf DEFAULT_SETTINGS);
               Sink.translatedText :=
                 mockTranslationFor offline
                   (source (resolveLanguages DEFAULT_SETTINGS (mockHeard offline DEFAULT_SETTINGS)));
               Sink.sourceLanguage :=
                 source (resolveLanguages DEFAULT_SETTINGS (mockHeard offline DEFAULT_SETTINGS));
               Sink.targetLanguage :=
                 target (resolveLanguages DEFAULT_SETTINGS (mockHeard offline DEFAULT_SETTINGS));
               Sink.confidence := 95 # 100;
               Sink.bidirectional := bidirectionalMode DEFAULT_SETTINGS |}]
  /\ tick (processAudioChunk offline segment (running DEFAULT_SETTINGS))
     = (tick (running DEFAULT_SETTINGS) + 5)%nat.
Proof.
  pose proof (processAudioChunk_mock_mode offline segment (running DEFAULT_SETTINGS)
                DEFAULT_SETTINGS (fun _ => eq_refl) (fun _ => eq_refl)
                eq_refl eq_refl eq_refl
                ltac:(apply elem_of_cons; now left)
                ltac:(vm_compute; reflexivity) ltac:(vm_compute; reflexivity))
    as (Hsink & _ & Htick & _).
  split; [exact Hsink | exact Htick].
Defined.

(** ** Retrying an operation that cannot succeed *)

Section RetryExhaustion.
Context {St : Type} `{Runtime St} {A : Type}.
Variable h : ErrorHandler.
Variable fn : Op St A.
Variable context : string.
Variable n : nat.
Hypothesis fails : alwaysFails fn.

Lemma retryLoop_exhausts (remaining : nat) :
  forall (attempt : nat) (sl : St * list Observation),
    (attempt + remaining = n)%nat ->
    exists (e : JsError) (new : list Observation),
      fst (retryLoop h (probed fn) context n remaining attempt sl) = inl e
      /\ snd (snd (retryLoop h (probed fn) context n remaining attempt sl)) = snd sl ++ new
      /\ invocations new = S remaining
      /\ delays new = map (calculateDelay h) (seq attempt remaining).
Proof.
  induction remaining as [|r IH]; intros attempt sl Hsum;
    destruct (fails (fst sl)) as (e & Hfn).
  - assert (attempt = n) by lia. subst attempt.
    rewrite (retryLoop_rethrows h fn context n 0 sl e Hfn).
    exists e, [Invoked (Some e)]. repeat split.
  - assert (Hne : attempt <> n) by lia.
    rewrite (retryLoop_retries h fn context n r attempt sl e Hfn Hne).
    destruct (IH (S attempt)
                (sleep (calculateDelay h attempt)
                   (console (RetryWarn (attempt + 1) (n + 1) context
                               (calculateDelay h attempt) (message e))
                      (snd (fn (fst sl)))),
                 (snd sl ++ [Invoked (Some e)]) ++ [Slept (calculateDelay h attempt)]))
      as (e' & new & Hres & Hobs & Hinv & Hdel); [lia|].
    exists e', (Invoked (Some e) :: Slept (calculateDelay h attempt) :: new).
    split; [exact Hres|].
    split; [rewrite Hobs; cbn [snd]; now rewrite <- !app_assoc|].
    split.
    + change (Invoked (Some e) :: Slept (calculateDelay h attempt) :: new)
        with ([Invoked (Some e); Slept (calculateDelay h attempt)] ++ new).
      rewrite invocations_app, Hinv. reflexivity.
    + simpl. now rewrite Hdel.
Qed.

End RetryExhaustion.

(** X13. For every retry budget: an operation that always fails is invoked
    exactly [maxRetries + 1] times, the retrier waits [maxRetries] times, for
    the delays of attempts 0, 1, ... in order, and it ends by throwing. *)
Theorem retryWithBackoff_exhausts {St : Type} `{Runtime St} {A : Type}
    (h : ErrorHandler) (fn : Op St A) (context : string) (maxRetries_ : nat)
    (s : St) :
  alwaysFails fn ->
  invocations (observe h fn context maxRetries_ s) = S maxRetries_
  /\ delays (observe h fn context maxRetries_ s)
     = map (calculateDelay h) (seq 0 maxRetries_)
  /\ exists e : JsError,
       fst (retryWithBackoff h (probed fn) context maxRetries_ (s, [])) = inl e.
Proof.
  intros Hfails.
  destruct (retryLoop_exhausts h fn context maxRetries_ Hfails maxRetries_ 0 (s, []))
    as (e & new & Hres & Hobs & Hinv & Hdel); [lia|].
  unfold observe, retryWithBackoff. rewrite Hobs. cbn [snd app].
  split; [exact Hinv|]. split; [exact Hdel|]. exists e. exact Hres.
Qed.

Lemma retryWithBackoff_exhausts_counter :
  alwaysFails failingCounter
  /\ invocations (@observe _ bareRuntime _ newErrorHandler failingCounter "count" 5 0%nat)
     = 6%nat
  /\ delays (@observe _ bareRuntime _ newErrorHandler failingCounter "count" 5 0%nat)
     = map (calculateDelay newErrorHandler) (seq 0 5).
Proof.
  assert (Hfails : alwaysFails failingCounter).
  { intros k. eexists. reflexivity. }
  split; [exact Hfails|].
  pose proof (@retryWithBackoff_exhausts _ bareRuntime _ newErrorHandler
                failingCounter "count" 5 0%nat Hfails) as (Hinv & Hdel & _).
  split; [exact Hinv | exact Hdel].
Defined.

(** ** Synthesis of an empty text *)

Lemma synthesize_blank (E : Env) (t : utf16) (lang : string) (w : World) :
  isEmptyOrBlank t = true ->
  synthesize E t lang false w
  = (inl (newError "TTS synthesis failed: No text provided for synthesis"),
     writeConsole (ConsoleError "TTS synthesis error:"
                     (newError "No text provided for synthesis")) w).
Proof.
  intros Hblank. unfold synthesize, tryCatch, throw, bind, effect.
  now rewrite Hblank.
Qed.

(** X14. Outside mock mode, synthesis of an empty or blank text throws
    without a request to the backend (no suspension takes place), and since
    the retrier does not look at the error the call is repeated to the end
    of the retry budget, with all the waits. *)
Theorem synthesize_blank_retried
    (E : Env) (t : utf16) (lang : string) (h : ErrorHandler) (n : nat) (w : World) :
  isEmptyOrBlank t = true ->
  fst (synthesize E t lang false w)
    = inl (newError "TTS synthesis failed: No text provided for synthesis")
  /\ tick (snd (synthesize E t lang false w)) = tick w
  /\ invocations (@observe World (worldRuntime E) AudioBuffer h
                    (synthesize E t lang false) "tts_synthesis" n w) = S n
  /\ delays (@observe World (worldRuntime E) AudioBuffer h
               (synthesize E t lang false) "tts_synthesis" n w)
     = map (calculateDelay h) (seq 0 n).
Proof.
  intros Hblank.
  assert (Hfails : alwaysFails (synthesize E t lang false)).
  { intros w0. rewrite (synthesize_blank E t lang w0 Hblank). eauto. }
  rewrite (synthesize_blank E t lang w Hblank). cbn [fst snd tick writeConsole].
  split; [reflexivity|]. split; [reflexivity|].
  destruct (@retryLoop_exhausts World (worldRuntime E) AudioBuffer h
              (synthesize E t lang false) "tts_synthesis" n Hfails n 0 (w, []))
    as (e & new & _ & Hobs & Hinv & Hdel); [lia|].
  unfold observe, retryWithBackoff. rewrite Hobs. cbn [snd app].
  split; [exact Hinv | exact Hdel].
Qed.

Lemma synthesize_blank_default :
  isEmptyOrBlank (lit "  ") = true
  /\ tick (snd (synthesize offline (lit "  ") "en" false (running realMode)))
     = tick (running realMode)
  /\ invocations (@observe World (worldRuntime offline) AudioBuffer newErrorHandler
                    (synthesize offline (lit "  ") "en" false) "tts_synthesis" 3
                    (running realMode)) = 4%nat.
Proof.
  assert (Hblank : isEmptyOrBlank (lit "  ") = true) by reflexivity.
  split; [exact Hblank|].
  pose proof (synthesize_blank_retried offline (lit "  ") "en" newErrorHandler 3
                (running realMode) Hblank) as (_ & Htick & Hinv & _).
  split; [exact Htick | exact Hinv].
Defined.

(** ** What reaches the conversation history *)

(** X15. What a call of [translate] does to the conversation history is
    decided by its arguments and its outcome: when it is made outside mock
    mode with a text that is not blank and it returns, the history is the
    one [addToHistory] builds from the text and the translation returned;
    in every other case (mock mode, a blank text, a request that failed)
    the history is left as it was. *)
Theorem translate_history_change
    (E : Env) (t : utf16) (src tgt : string) (mock : bool) (w : World) :
  conversationHistory (snd (translate E t src tgt mock w))
  = match fst (translate E t src tgt mock w) with
    | inr r =>
        if mock || isEmptyOrBlank t then conversationHistory w
        else conversationHistory
               (addToHistory t (translatedText r) src tgt (suspend E w))
    | inl _ => conversationHistory w
    end.
Proof.
  unfold translate, getMockTranslation, tryCatch, bind, await, throw, effect, ret.
  destruct mock; [|destruct (isEmptyOrBlank t) eqn:Hblank]; cbv beta iota zeta.
  - cbn [fst snd orb]. apply suspend_history.
  - reflexivity.
  - destruct (fetchTranslate E (tick w) t src tgt) as [error|status errorField|result];
      cbv beta iota zeta; cbn [fst snd orb].
    + cbn [conversationHistory console worldRuntime writeConsole].
      apply suspend_history.
    + cbn [conversationHistory console worldRuntime writeConsole].
      apply suspend_history.
    + reflexivity.
Qed.


(** X16. [setMaxHistoryLength] keeps the bound between 1 and 50 whatever it
    is given, and does not shorten the history it finds; the next pair that
    is stored brings the history within the new bound. *)
Theorem setMaxHistoryLength_clamps
    (len : Z) (w : World) (original translated : utf16) (src tgt : string) :
  (1 <= maxHistoryLength (setMaxHistoryLength len w) <= 50)%nat
  /\ ((1 <= len <= 50)%Z ->
      maxHistoryLength (setMaxHistoryLength len w) = Z.to_nat len)
  /\ conversationHistory (setMaxHistoryLength len w) = conversationHistory w
  /\ (length (conversationHistory
                (addToHistory original translated src tgt (setMaxHistoryLength len w)))
      <= maxHistoryLength (setMaxHistoryLength len w))%nat.
Proof.
  assert (Hbound : (1 <= maxHistoryLength (setMaxHistoryLength len w) <= 50)%nat).
  { unfold setMaxHistoryLength. cbn [maxHistoryLength setMaxHistory]. lia. }
  split; [exact Hbound|]. split; [|split].
  - intros Hlen. unfold setMaxHistoryLength. cbn [maxHistoryLength setMaxHistory].
    f_equal. lia.
  - reflexivity.
  - pose proof (addToHistory_spec original translated src tgt
                  (setMaxHistoryLength len w) (proj1 Hbound)) as Hadd.
    cbv zeta in Hadd. destruct Hadd as (_ & dropped & _ & _ & Hle). exact Hle.
Qed.

(** ** Playback *)

Lemma clampVolume_range (v : Q) : (0 <= clampVolume v)%Q /\ (clampVolume v <= 1)%Q.
Proof.
  unfold clampVolume. split.
  - apply Q.le_max_l.
  - apply Q.max_lub; [discriminate | apply Q.le_min_l].
Qed.

(** X17. When [playAudio] returns, exactly one source has been started, on
    the given clip, with a gain between 0 and 1, and that clip is the
    current audio; when it throws, nothing was started, the current audio
    is the one of before, and the error is a plain [Error] whose message
    starts with "Audio playback failed: ". *)
Theorem playAudio_outcome (E : Env) (buf : AudioBuffer) (v : Q) (w : World) :
  match playAudio E buf v w with
  | (inr _, w') =>
      exists gain : Q,
        audioOut w' = audioOut w ++ [(buf, gain)]
        /\ (0 <= gain)%Q /\ (gain <= 1)%Q
        /\ currentAudio w' = Some buf
  | (inl error, w') =>
      audioOut w' = audioOut w
      /\ currentAudio w' = currentAudio w
      /\ name error = "Error"
      /\ exists inner : string, message error = "Audio playback failed: " +:+ inner
  end.
Proof.
  pose proof (suspend_frame E w) as Hf. cbv zeta in Hf.
  destruct Hf as (_ & _ & _ & _ & _ & Hcur & Hout & _).
  unfold playAudio, tryCatch, bind, await, throw, effect, ret.
  cbv beta iota zeta.
  destruct (playbackFault E (tick w)) as [error|]; cbv beta iota zeta.
  - cbn [audioOut currentAudio console worldRuntime writeConsole name message newError].
    repeat split; try assumption. eauto.
  - exists (clampVolume v). cbn [audioOut currentAudio startSource].
    rewrite Hout. destruct (clampVolume_range v). auto.
Qed.

(** ** The errors of the clients *)

(** X18. In mock mode [transcribe] never throws and never asks the backend.
    When it throws, the error is a plain [Error], whatever was thrown
    inside, and its message is the inner message behind the prefix
    "Transcription failed: "; when it returns from the backend, the
    confidence it reports is never zero (a confidence of zero or none is
    reported as 1). *)
Theorem transcribe_outcome
    (E : Env) (blob : Blob) (lang : string) (mock : bool) (w : World) :
  match transcribe E blob lang mock w with
  | (inl error, _) =>
      mock = false
      /\ name error = "Error"
      /\ exists inner : string, message error = "Transcription failed: " +:+ inner
  | (inr tr, _) => ~ (confidence tr == 0)%Q
  end.
Proof.
  unfold transcribe, getMockTranscription, tryCatch, bind, await, throw, effect, ret.
  destruct mock; cbv beta iota zeta.
  - cbn [confidence]. discriminate.
  - destruct (fetchTranscribe E (tick w) blob lang) as [error|status errorField|result];
      cbv beta iota zeta.
    + cbn [name message newError]. eauto.
    + cbn [name message newError]. eauto.
    + cbn [confidence]. unfold orElseNum.
      destruct (body_confidence result) as [q|]; [|discriminate].
      destruct (Qeq_bool q 0) eqn:Hq; [discriminate|].
      intros Hzero. apply Qeq_bool_iff in Hzero. congruence.
Qed.

(** ** Audio errors as the user sees them *)

(** X19. An audio error is shown with one of three fixed texts.  A
    microphone that another application holds ([NotReadableError]) is shown
    with the text of a device that was not found, since both are filed under
    one type; an audio error of any other name is filed under a type the
    table of texts does not have and is shown as an unexpected error. *)
Theorem audio_error_texts (error : JsError) (context : string) :
  getUserFriendlyMessage (handleAudioError error context) ∈ audioErrorTexts
  /\ (name error = "NotReadableError" ->
      info_message (handleAudioError error context)
        = "Microphone is being used by another application"
      /\ getUserFriendlyMessage (handleAudioError error context)
         = "Microphone device not found. Please check your audio settings")
  /\ (name error <> "NotAllowedError" -> name error <> "NotFoundError" ->
      name error <> "NotReadableError" ->
      getUserFriendlyMessage (handleAudioError error context)
        = "An unexpected error occurred. Please try again").
Proof.
  unfold handleAudioError, audioErrorTexts.
  destruct (String.eqb (name error) "NotAllowedError") eqn:H1;
    [|destruct (String.eqb (name error) "NotFoundError") eqn:H2;
      [|destruct (String.eqb (name error) "NotReadableError") eqn:H3]].
  - apply String.eqb_eq in H1.
    change (getUserFriendlyMessage _)
      with "Microphone permission denied. Please allow microphone access".
    split; [rewrite !elem_of_cons; tauto|].
    split; [intros H; rewrite H in H1; discriminate | congruence].
  - apply String.eqb_eq in H2.
    change (getUserFriendlyMessage _)
      with "Microphone device not found. Please check your audio settings".
    split; [rewrite !elem_of_cons; tauto|].
    split; [intros H; rewrite H in H2; discriminate | congruence].
  - apply String.eqb_eq in H3.
    change (getUserFriendlyMessage _)
      with "Microphone device not found. Please check your audio settings".
    split; [rewrite !elem_of_cons; tauto|].
    split; [intros _; split; reflexivity | congruence].
  - apply String.eqb_neq in H3.
    change (getUserFriendlyMessage _)
      with "An unexpected error occurred. Please try again".
    split; [rewrite !elem_of_cons; tauto|].
    split; [intros H; contradiction | reflexivity].
Qed.


(** ** Start and stop *)

Lemma processAudioChunk_inactive (E : Env) (blob : Blob) (w : World) :
  isActive w = false -> processAudioChunk E blob w = w.
Proof.
  intros Hactive. unfold processAudioChunk, tryCatch, pipeline, bind, gets.
  now rewrite Hactive.
Qed.

(** [cleanup] never throws. *)
Lemma cleanup_returns (E : Env) (w : World) : fst (cleanup E w) = inr tt.
Proof.
  unfold cleanup, tryCatch.
  match goal with |- context [match ?m with _ => _ end] => destruct m as [[e|[]] w'] end;
    reflexivity.
Qed.

Lemma stopTranslation_active (E : Env) (w : World) (c : Capture.AudioCapture) :
  isActive w = true ->
  audioCapture w = Some c ->
  stopTranslation E w
  = (inr tt,
     writeConsole (ConsoleLog "Translation stopped")
       (setIsActive false
          (setAudioCapture None
             (snd (cleanup E (setAudioCapture (Some (Capture.stopCapture c)) w)))))).
Proof.
  intros Hactive Hcap.
  unfold stopTranslation, updateCapture, capture.
  unfold tryCatch at 1. unfold bind at 1. unfold gets at 1. cbv beta iota.
  rewrite Hactive. cbn [negb].
  unfold bind at 1 2. unfold gets at 1. cbv beta iota. rewrite Hcap.
  unfold bind at 1 2. cbv beta iota. rewrite Hcap. cbv beta iota.
  unfold effect at 1. cbv beta iota.
  unfold bind at 1.
  pose proof (cleanup_returns E (setAudioCapture (Some (Capture.stopCapture c)) w)) as Hc.
  destruct (cleanup E (setAudioCapture (Some (Capture.stopCapture c)) w)) as [r w1].
  cbn [fst snd] in *. subst r. reflexivity.
Qed.

(** X20. [stopTranslation] never throws: the capture is stopped and cleaned
    up, and a cleanup that fails is only written to the console.  It leaves
    the service inactive, without its capture object if it was active, and
    has sent nothing; the chunks that still arrive and the health checks
    that still run change nothing.  On a service that is not active it only
    writes a line to the console. *)
Theorem stopTranslation_never_throws (E : Env) (w : World) :
  let w' := snd (stopTranslation E w) in
  fst (stopTranslation E w) = inr tt
  /\ isActive w' = false
  /\ sink w' = sink w
  /\ (isActive w = true -> audioCapture w' = None)
  /\ (isActive w = false -> w' = writeConsole (ConsoleLog "Translation not active") w)
  /\ (forall blob : Blob, processAudioChunk E blob w' = w')
  /\ healthCheck E w' = w'.
Proof.
  intros w'.
  assert (Hmain : fst (stopTranslation E w) = inr tt
                  /\ isActive w' = false
                  /\ (isActive w = true -> audioCapture w' = None)
                  /\ (isActive w = false
                      -> w' = writeConsole (ConsoleLog "Translation not active") w)).
  { unfold w'. destruct (isActive w) eqn:Hactive.
    - destruct (audioCapture w) as [c|] eqn:Hcap.
      + rewrite (stopTranslation_active E w c Hactive Hcap).
        repeat split; discriminate.
      + unfold stopTranslation, tryCatch, bind, gets, effect, ret. cbv beta iota.
        rewrite Hactive. cbn [negb]. cbv beta iota. rewrite Hcap. cbv beta iota.
        cbn [fst snd isActive audioCapture console worldRuntime writeConsole setIsActive].
        repeat split; [intros _; exact Hcap | discriminate].
    - unfold stopTranslation, tryCatch, bind, gets, effect. cbv beta iota.
      rewrite Hactive. cbn [negb fst snd].
      repeat split; [exact Hactive | discriminate]. }
  destruct Hmain as (Hret & Hinactive & Hcapture & Hnot).
  split; [exact Hret|]. split; [exact Hinactive|].
  split; [exact (stopTranslation_sameSink E w)|].
  split; [exact Hcapture|]. split; [exact Hnot|].
  split; [intros blob; now apply processAudioChunk_inactive|].
  now apply healthCheck_inactive.
Qed.

(** ** Starting with a microphone that cannot be had *)

(** An error made by [new Error] is shown as an unexpected error. *)
Lemma plain_audio_error_text (msg context : string) :
  getUserFriendlyMessage (handleAudioError (newError msg) context)
  = "An unexpected error occurred. Please try again".
Proof. reflexivity. Qed.

Lemma suspend_tick (E : Env) (w : World) : tick (suspend E w) = S (tick w).
Proof. apply (suspend_frame E w). Qed.

Lemma suspend_currentSettings_Some (E : Env) (w : World) (cfg : Settings) :
  currentSettings w = Some cfg -> exists cfg', currentSettings (suspend E w) = Some cfg'.
Proof.
  intros Hcfg. pose proof (suspend_frame E w) as Hf. cbv zeta in Hf.
  destruct Hf as (_ & _ & _ & _ & _ & _ & _ & _ & _ & _ & Hsome).
  destruct (proj2 Hsome (ex_intro _ cfg Hcfg)) as [cfg' Hcfg']. now exists cfg'.
Qed.

Section Starting.
Variable E : Env.

(** What [initialize] throws when the platform has thrown [cause]. *)
Definition initializeError (cause : JsError) : JsError :=
  newError ("Failed to initialize audio capture: " +:+ message cause).

(** [initialize] on a capture object, by the answers of the platform. *)
Lemma initialize_run (device : string) (v : Q) (w : World) (c : Capture.AudioCapture) :
  audioCapture w = Some c ->
  let c1 := Capture.setDevice device v c in
  let w1 := suspend E (setAudioCapture (Some c1) w) in
  initialize E device v w
  = match getUserMedia E (tick w) with
    | Some cause =>
        (inl (initializeError cause),
         writeConsole (ConsoleError "Error initializing audio capture:" cause) w1)
    | None =>
        match newAudioContext E (S (tick w)) with
        | Some cause =>
            (inl (initializeError cause),
             writeConsole (ConsoleError "Error initializing audio capture:" cause)
               (setAudioCapture (Some (Capture.setMediaStream true c1)) w1))
        | None =>
            (inr true,
             setAudioCapture
               (Some (Capture.setAudioWorkletNode true
                        (Capture.setAudioContext true
                           (Capture.setMediaStream true c1)))) w1)
        end
    end.
Proof.
  intros Hcap c1 w1.
  assert (Hcap1 : audioCapture w1 = Some c1).
  { unfold w1. now rewrite suspend_audioCapture. }
  assert (Htick1 : tick w1 = S (tick w)).
  { unfold w1. now rewrite suspend_tick. }
  unfold initialize, updateCapture, capture.
  unfold tryCatch at 1. unfold bind at 1 2. cbv beta iota. rewrite Hcap.
  unfold effect at 1. cbv beta iota.
  unfold bind at 1. unfold await at 1. cbv beta iota.
  cbn [tick setAudioCapture]. fold c1. fold w1.
  destruct (getUserMedia E (tick w)) as [cause|]; [reflexivity|].
  unfold bind at 1 2. cbv beta iota. rewrite Hcap1. unfold effect at 1. cbv beta iota.
  unfold bind at 1. unfold gets at 1. cbv beta iota.
  cbn [tick setAudioCapture]. rewrite Htick1.
  destruct (newAudioContext E (S (tick w))) as [cause|]; [reflexivity|].
  unfold bind, effect, ret. cbv beta iota.
  cbn [audioCapture setAudioCapture]. reflexivity.
Qed.

(** [startTranslation] on an inactive service, by the answers of the
    platform. *)
Lemma startTranslation_run (w : World) :
  isActive w = false ->
  let loaded := storedSettings E (tick w) in
  let w0 := setAudioCapture (Some Capture.newAudioCapture)
              (setCurrentSettings (Some loaded) (suspend E w)) in
  let c1 := Capture.setDevice (orElse (micDevice loaded) "default")
              (orElseNum (Some (volume loaded)) (8 # 10)) Capture.newAudioCapture in
  let w1 := suspend E (setAudioCapture (Some c1) w0) in
  let shown := newError "An unexpected error occurred. Please try again" in
  let failed (cause : JsError) (base : World) :=
    (@inl JsError unit shown,
     writeConsole (ConsoleError "Error starting translation:" shown)
       (writeConsole (ErrorLogged "startTranslation" shown)
          (writeConsole (ConsoleError "Audio error in startTranslation:"
                           (initializeError cause))
             (writeConsole (ConsoleError "Error initializing audio capture:" cause)
                base)))) in
  startTranslation E w
  = match getUserMedia E (S (tick w)) with
    | Some cause => failed cause w1
    | None =>
        match newAudioContext E (S (S (tick w))) with
        | Some cause =>
            failed cause (setAudioCapture (Some (Capture.setMediaStream true c1)) w1)
        | None =>
            (inr tt,
             writeConsole (ConsoleLog "Translation started successfully")
               (setIsActive true
                  (setAudioCapture
                     (Some (Capture.setIsCapturing true
                              (Capture.onAudioChunk
                                 (Capture.setAudioWorkletNode true
                                    (Capture.setAudioContext true
                                       (Capture.setMediaStream true c1))))))
                     w1)))
        end
    end.
Proof.
  intros Hactive loaded w0 c1 w1 shown failed.
  assert (Htick0 : tick w0 = S (tick w)) by apply suspend_tick.
  unfold startTranslation.
  unfold tryCatch at 1. unfold bind at 1. unfold gets at 1. cbv beta iota.
  rewrite Hactive.
  unfold bind at 1. unfold await at 1. cbv beta iota.
  unfold bind at 1. unfold effect at 1. cbv beta iota.
  unfold bind at 1. unfold effect at 1. cbv beta iota.
  fold loaded. fold w0.
  unfold bind at 1. unfold tryCatch at 1. unfold bind at 1.
  unfold settings at 1. cbn [currentSettings w0 setAudioCapture setCurrentSettings].
  cbv beta iota. unfold bind at 1.
  rewrite (initialize_run _ _ w0 Capture.newAudioCapture eq_refl).
  cbv zeta. rewrite Htick0. fold c1. fold w1.
  destruct (getUserMedia E (S (tick w))) as [cause|]; [reflexivity|].
  destruct (newAudioContext E (S (S (tick w)))) as [cause|]; [reflexivity|].
  cbv beta iota. unfold ret at 1. cbv beta iota.
  unfold updateCapture, startCapture, capture, bind, effect. cbv beta iota.
  cbn [audioCapture setAudioCapture]. cbv beta iota.
  reflexivity.
Qed.

End Starting.

(** X21. [startTranslation] on a service that is already active only writes
    a line to the console.  On an inactive service it sends nothing to the
    sink, and its outcome is decided by the platform.  When the microphone
    is granted and the audio context made, it returns with the service
    active and the capture initialised and capturing.  When either fails,
    whatever the cause, it throws a plain [Error] with the text of an
    unexpected error and leaves the service inactive: [initialize] has
    wrapped the cause in a plain [Error], so [handleAudioError] never sees
    the name of a permission or device error. *)
Theorem startTranslation_outcome (E : Env) (w : World) :
  (isActive w = true ->
   startTranslation E w
   = (inr tt, writeConsole (ConsoleLog "Translation already active") w))
  /\ (isActive w = false ->
      let w' := snd (startTranslation E w) in
      sink w' = sink w
      /\ match getUserMedia E (S (tick w)), newAudioContext E (S (S (tick w))) with
         | None, None =>
             fst (startTranslation E w) = inr tt
             /\ isActive w' = true
             /\ option_map Capture.getStatus (audioCapture w')
                = Some {| isInitialized := true; isCapturing := true |}
         | Some cause, _ | None, Some cause =>
             fst (startTranslation E w)
             = inl (newError "An unexpected error occurred. Please try again")
             /\ isActive w' = false
             /\ ConsoleError "Audio error in startTranslation:" (initializeError cause)
                ∈ consoleOut w'
         end).
Proof.
  split.
  { intros Hactive.
    unfold startTranslation, tryCatch, bind, gets, effect. now rewrite Hactive. }
  intros Hactive w'.
  split; [exact (startTranslation_sameSink E w)|].
  unfold w'. rewrite (startTranslation_run E w Hactive). cbv zeta.
  destruct (getUserMedia E (S (tick w))) as [cause|];
    [|destruct (newAudioContext E (S (S (tick w)))) as [cause|]];
    cbn [fst snd isActive audioCapture consoleOut writeConsole setIsActive
         setAudioCapture setCurrentSettings option_map].
  - rewrite suspend_isActive, suspend_consoleOut.
    cbn [isActive setAudioCapture setCurrentSettings]. rewrite suspend_isActive.
    split; [reflexivity|]. split; [exact Hactive|].
    rewrite !elem_of_app, !list_elem_of_singleton. left. left. right. reflexivity.
  - rewrite suspend_isActive, suspend_consoleOut.
    cbn [isActive setAudioCapture setCurrentSettings]. rewrite suspend_isActive.
    split; [reflexivity|]. split; [exact Hactive|].
    rewrite !elem_of_app, !list_elem_of_singleton. left. left. right. reflexivity.
  - repeat split.
Qed.

Lemma startTranslation_microphone_in_use :
  fst (startTranslation microphoneBusy newBackgroundService)
    = inl (newError "An unexpected error occurred. Please try again")
  /\ isActive (snd (startTranslation microphoneBusy newBackgroundService)) = false
  /\ ConsoleError "Audio error in startTranslation:" initializeFailure
     ∈ consoleOut (snd (startTranslation microphoneBusy newBackgroundService)).
Proof.
  exact (proj2 (proj2 (startTranslation_outcome microphoneBusy newBackgroundService)
                  eq_refl)).
Defined.

(** ** What the health check can send *)

(** The health check on a healthy capture whose counter has tripped. *)
Lemma healthCheck_stops_run (E : Env) (w : World) (c : Capture.AudioCapture) :
  isActive w = true ->
  audioCapture w = Some c ->
  Capture.audioContext c = true ->
  Capture.isCapturing c = true ->
  isFeatureDisabled (errorHandler w) "audio_error" "health_check" = true ->
  healthCheck E w
  = post (Sink.TRANSLATION_ERROR tooManyAudioErrors)
      (suspend E
         (writeConsole (ConsoleLog "Translation stopped")
            (setIsActive false
               (setAudioCapture None
                  (snd (cleanup E
                          (setAudioCapture (Some (Capture.stopCapture c))
                             (writeConsole
                                (ConsoleWarn "Too many audio errors, temporarily disabling translation...")
                                w)))))))).
Proof.
  intros Hactive Hcap Hinit Hcapt Hdisabled.
  unfold healthCheck, healthCheckBody, tryCatch.
  unfold bind at 1. unfold gets at 1. cbv beta iota.
  unfold bind at 1. unfold gets at 1. cbv beta iota.
  rewrite Hcap, Hactive. cbv zeta.
  cbn [Capture.getStatus isInitialized isCapturing]. rewrite Hinit, Hcapt. cbn [negb].
  unfold bind at 1. unfold gets at 1. cbv beta iota. rewrite Hdisabled.
  unfold bind at 1. unfold effect at 1. cbv beta iota.
  unfold bind at 1.
  change (@console World (worldRuntime E)) with writeConsole.
  rewrite (stopTranslation_active E
             (writeConsole
                (ConsoleWarn "Too many audio errors, temporarily disabling translation...") w)
             c Hactive Hcap).
  reflexivity.
Qed.

(** X22. What a run of the health check sends is decided by the service it
    finds: when the service is active, its capture initialised and
    capturing, and the counter of "audio_error" and "health_check" has
    tripped, it sends the one message about too many audio errors and leaves
    the service stopped, without its capture object; in every other case,
    restarts and failures included, it sends nothing.  It never sends a
    result event. *)
Theorem healthCheck_sink (E : Env) (w : World) :
  let tripped :=
    isActive w
    && match audioCapture w with
       | Some c => Capture.audioContext c && Capture.isCapturing c
       | None => false
       end
    && isFeatureDisabled (errorHandler w) "audio_error" "health_check" in
  sink (healthCheck E w)
  = (if tripped then sink w ++ [Sink.TRANSLATION_ERROR tooManyAudioErrors] else sink w)
  /\ (if tripped
      then isActive (healthCheck E w) = false /\ audioCapture (healthCheck E w) = None
      else True).
Proof.
  intros tripped. unfold tripped. clear tripped.
  destruct (isFeatureDisabled (errorHandler w) "audio_error" "health_check") eqn:Hdisabled.
  2: { rewrite andb_false_r. split; [|exact I]. now apply healthCheck_silent. }
  rewrite andb_true_r.
  destruct (isActive w) eqn:Hactive.
  2: { cbn [andb]. split; [|exact I]. now rewrite healthCheck_inactive. }
  cbn [andb].
  destruct (audioCapture w) as [c|] eqn:Hcap.
  2: { split; [|exact I].
       unfold healthCheck, healthCheckBody, tryCatch, bind, gets. cbv beta iota.
       now rewrite Hcap. }
  destruct (Capture.audioContext c) eqn:Hinit.
  2: { cbn [andb]. split; [|exact I].
       pose proof (healthCheck_restart_sameSink E
                     "Audio capture lost, attempting to restart..." w) as Hr.
       unfold sameSink in Hr. rewrite <- Hr.
       unfold healthCheck, healthCheckBody.
       unfold tryCatch, bind at 1 2 3, gets at 1 2. cbv beta iota.
       rewrite Hcap, Hactive. cbv zeta.
       cbn [Capture.getStatus isInitialized]. rewrite Hinit. reflexivity. }
  destruct (Capture.isCapturing c) eqn:Hcapt.
  2: { cbn [andb]. split; [|exact I].
       pose proof (healthCheck_restart_sameSink E
                     "Audio capture stopped, attempting to restart..." w) as Hr.
       unfold sameSink in Hr. rewrite <- Hr.
       unfold healthCheck, healthCheckBody.
       unfold tryCatch, bind at 1 2 3, gets at 1 2. cbv beta iota.
       rewrite Hcap, Hactive. cbv zeta.
       cbn [Capture.getStatus isInitialized isCapturing]. rewrite Hinit, Hcapt.
       reflexivity. }
  cbn [andb].
  rewrite (healthCheck_stops_run E w c Hactive Hcap Hinit Hcapt Hdisabled).
  cbn [sink isActive audioCapture post].
  rewrite suspend_sink, suspend_isActive, suspend_audioCapture.
  cbn [sink isActive audioCapture writeConsole setIsActive setAudioCapture].
  split; [|split; reflexivity].
  f_equal.
  exact (keeps_cleanup E sameSink sameSink_refl sameSink_trans (sameSink_suspend E)
           (fun _ _ => eq_refl) (fun _ _ => eq_refl) _).
Qed.

(** ** The supported language pairs *)

Section LanguagePairs.
Variable table : list (string * LanguageInfo).

Lemma pairs_of_source (source_ : string) (languages : list string) (p : LanguagePair) :
  p ∈ flat_map (fun target_ =>
         if negb (String.eqb source_ target_) then
           [ {| pair_source := source_;
                pair_target := target_;
                pair_sourceName := nameOf table source_;
                pair_targetName := nameOf table target_;
                pair_sourceFlag := flagOf table source_;
                pair_targetFlag := flagOf table target_ |} ]
         else []) languages
  <-> pair_source p = source_ /\ pair_target p ∈ languages
      /\ pair_target p <> source_
      /\ p = {| pair_source := source_;
                pair_target := pair_target p;
                pair_sourceName := nameOf table source_;
                pair_targetName := nameOf table (pair_target p);
                pair_sourceFlag := flagOf table source_;
                pair_targetFlag := flagOf table (pair_target p) |}.
Proof.
  rewrite list_elem_of_In, in_flat_map. split.
  - intros (t & Ht & Hp). apply list_elem_of_In in Ht.
    destruct (String.eqb source_ t) eqn:Heq; cbn [negb] in Hp;
      [destruct Hp|].
    destruct Hp as [Hp|[]]. subst p. cbn.
    apply String.eqb_neq in Heq. repeat split; auto.
  - intros (Hs & Ht & Hne & Hp). exists (pair_target p).
    split; [now apply list_elem_of_In|].
    assert (Heq : String.eqb source_ (pair_target p) = false)
      by (apply String.eqb_neq; congruence).
    rewrite Heq. cbn [negb]. left. now symmetry.
Qed.

Lemma length_pairs_of_source (source_ : string) (languages : list string) :
  NoDup languages ->
  length (flat_map (fun target_ =>
            if negb (String.eqb source_ target_) then
              [ {| pair_source := source_;
                   pair_target := target_;
                   pair_sourceName := nameOf table source_;
                   pair_targetName := nameOf table target_;
                   pair_sourceFlag := flagOf table source_;
                   pair_targetFlag := flagOf table target_ |} ]
            else []) languages)
  = if bool_decide (source_ ∈ languages) then (length languages - 1)%nat
    else length languages.
Proof.
  induction 1 as [|t languages Hnotin Hnodup IH]; [reflexivity|].
  cbn [flat_map]. rewrite length_app, IH.
  destruct (String.eqb source_ t) eqn:Heq; cbn [negb length].
  - apply String.eqb_eq in Heq. subst t.
    rewrite (bool_decide_eq_false_2 _ Hnotin).
    rewrite bool_decide_eq_true_2 by (apply elem_of_cons; now left).
    cbn [length]. lia.
  - apply String.eqb_neq in Heq.
    destruct (bool_decide (source_ ∈ languages)) eqn:Hin.
    + apply bool_decide_eq_true in Hin.
      rewrite bool_decide_eq_true_2 by (apply elem_of_cons; now right).
      destruct languages; [now apply elem_of_nil in Hin | cbn [length]; lia].
    + apply bool_decide_eq_false in Hin.
      rewrite bool_decide_eq_false_2; [cbn [length]; lia|].
      rewrite elem_of_cons. tauto.
Qed.

Lemma length_flat_map_const {A B} (g : A -> list B) (l : list A) (k : nat) :
  (forall x, x ∈ l -> length (g x) = k) ->
  length (flat_map g l) = (length l * k)%nat.
Proof.
  induction l as [|x l IH]; intros Hk; [reflexivity|].
  cbn [flat_map length]. rewrite length_app, Hk by (apply elem_of_cons; now left).
  rewrite IH; [lia|]. intros y Hy. apply Hk. apply elem_of_cons. now right.
Qed.

End LanguagePairs.

(** X23. For a table without repeated codes, the supported language pairs
    are exactly the ordered pairs of two different codes of the table, each
    with the names and flags of its two languages: n languages give
    n * (n - 1) pairs, and no language is paired with itself. *)
Theorem getSupportedLanguagePairs_complete
    (table : list (string * LanguageInfo)) :
  NoDup (map fst table) ->
  (forall p : LanguagePair,
     p ∈ getSupportedLanguagePairs table
     <-> pair_source p ∈ map fst table
         /\ pair_target p ∈ map fst table
         /\ pair_source p <> pair_target p
         /\ pair_sourceName p = nameOf table (pair_source p)
         /\ pair_targetName p = nameOf table (pair_target p)
         /\ pair_sourceFlag p = flagOf table (pair_source p)
         /\ pair_targetFlag p = flagOf table (pair_target p))
  /\ length (getSupportedLanguagePairs table)
     = (length table * (length table - 1))%nat.
Proof.
  intros Hnodup. split.
  - intros p. unfold getSupportedLanguagePairs. cbv zeta.
    rewrite list_elem_of_In, in_flat_map. split.
    + intros (s & Hs & Hp). apply list_elem_of_In in Hs, Hp.
      apply pairs_of_source in Hp. destruct Hp as (Hsrc & Ht & Hne & Hrec).
      rewrite Hrec. cbn. subst s. repeat split; auto.
    + intros (Hs & Ht & Hne & Hn1 & Hn2 & Hf1 & Hf2).
      exists (pair_source p). split; [now apply list_elem_of_In|].
      apply list_elem_of_In. apply pairs_of_source.
      repeat split; auto. destruct p; cbn in *. congruence.
  - unfold getSupportedLanguagePairs. cbv zeta.
    rewrite (length_flat_map_const _ (map fst table) (length table - 1)).
    + now rewrite length_map.
    + intros s Hs. rewrite (length_pairs_of_source table s _ Hnodup).
      rewrite (bool_decide_eq_true_2 _ Hs). now rewrite length_map.
Qed.

Lemma getSupportedLanguagePairs_six :
  NoDup (map fst sixLanguages)
  /\ length (getSupportedLanguagePairs sixLanguages) = 30%nat.
Proof.
  assert (Hnodup : NoDup (map fst sixLanguages)).
  { apply (bool_decide_unpack (NoDup (map fst sixLanguages))). vm_compute. exact I. }
  split; [exact Hnodup|].
  exact (proj2 (getSupportedLanguagePairs_complete sixLanguages Hnodup)).
Defined.

(** ** Which errors count as recoverable *)

(** X24. An error classified by [handleApiError] counts as recoverable exactly
    when it was classified as a rate limit or a network error, that is when
    its message has neither "401" nor "Unauthorized" and has one of "429",
    "rate limit", "network", "fetch"; an authentication error and an
    unknown error do not, although an unknown error is filed with the
    action "retry". *)
Theorem recoverable_api_errors (error : JsError) (apiName : string) :
  (isRecoverableError (handleApiError error apiName) = true
   <-> (includes (message error) "401" || includes (message error) "Unauthorized") = false
       /\ ((includes (message error) "429" || includes (message error) "rate limit")
           || (includes (message error) "network" || includes (message error) "fetch"))
          = true)
  /\ (type (handleApiError error apiName) = "UNKNOWN_ERROR" ->
      action (handleApiError error apiName) = "retry"
      /\ isRecoverableError (handleApiError error apiName) = false).
Proof.
  unfold handleApiError.
  destruct (includes (message error) "401" || includes (message error) "Unauthorized");
    [split; [split; [discriminate | intros [? _]; discriminate] | discriminate]|].
  destruct (includes (message error) "429" || includes (message error) "rate limit");
    [split; [split; [intros _; split; reflexivity | reflexivity] | discriminate]|].
  destruct (includes (message error) "network" || includes (message error) "fetch");
    [split; [split; [intros _; split; reflexivity | reflexivity] | discriminate]|].
  split; [split; [discriminate | intros [_ ?]; discriminate]|].
  intros _. split; reflexivity.
Qed.
